(** * Inventory forecast endpoint of the LIMS / supply-chain backend

    Shallow embedding of [forecast] (src/main.py, POST /inventory/forecast)
    together with the request and response schemas of src/schemas.py.

    Python floats are IEEE-754 binary64 numbers; they are modelled with the
    Standard Library's executable specification of binary floating point
    ([SpecFloat], precision 53, maximal exponent 1024).  Python integers are
    unbounded and are modelled as [Z].  Each Python primitive the function
    uses is embedded with the CPython semantics it has, including the
    exceptions it raises ([OverflowError], [ValueError]).

    The other endpoints of src/main.py that do not depend on the truth value
    of the database handle are embedded after it: login, the assistant, the
    LIMS sample and result endpoints, requisitions, purchase-order lookup,
    stock consumption, the dashboard charts and the invoice status, with the
    Mongo collections they read and write as lists in natural order. *)

From Stdlib Require Import ZArith List String Ascii Bool Lia QArith Qabs.
From Stdlib Require Import Floats.SpecFloat.
Import ListNotations.
Open Scope Z_scope.

(** ** Python exceptions and results *)

Inductive exc : Set :=
| OverflowError
| ValueError
| ZeroDivisionError.

Inductive pyres (A : Type) : Type :=
| Ok (a : A)
| Err (e : exc).
Arguments Ok {A} a.
Arguments Err {A} e.

Definition bind {A B} (m : pyres A) (k : A -> pyres B) : pyres B :=
  match m with
  | Ok a => k a
  | Err e => Err e
  end.

Notation "'let*' x ':=' m 'in' k" := (bind m (fun x => k))
  (at level 200, x name, m at level 100, k at level 200).

(** ** Binary64 *)

Definition prec : Z := 53.
Definition emax : Z := 1024.

Definition fadd := SFadd prec emax.
Definition fsub := SFsub prec emax.
Definition fmul := SFmul prec emax.
Definition fdiv := SFdiv prec emax.
Definition fsqrt := SFsqrt prec emax.

Definition fzero : spec_float := S754_zero false.

(** [PyLong_AsDouble]: correctly rounded conversion of an int, raising
    [OverflowError] ("int too large to convert to float") when the rounded
    value is out of range. *)
Definition py_float_of_int (z : Z) : pyres spec_float :=
  match binary_normalize prec emax z 0 false with
  | S754_infinity _ => Err OverflowError
  | f => Ok f
  end.

(** Exact conversion of a small constant (lead time, cycle length). *)
Definition float_of_small (z : Z) : spec_float := binary_normalize prec emax z 0 false.

(** [long_true_divide] ([int / int]): [ZeroDivisionError] for a zero divisor,
    otherwise the quotient
    correctly rounded to binary64; [OverflowError] ("integer division
    result too large for a float") when it is out of range. *)
Definition py_int_truediv (a b : Z) : pyres spec_float :=
  let neg := xorb (a <? 0) (b <? 0) in
  if b =? 0 then Err ZeroDivisionError else
  match a with
  | Z0 => Ok (S754_zero neg)
  | _ =>
    let '(q, e, l) := SFdiv_core_binary prec emax (Z.abs a) 0 (Z.abs b) 0 in
    match binary_round_aux prec emax neg q e l with
    | S754_infinity _ => Err OverflowError
    | f => Ok f
    end
  end.

(** [float_pow(x, 2)]: CPython handles nan, infinities and zeros itself
    and calls the C library's [pow(|x|, 2.0)] otherwise, taken here as the
    correctly rounded square; a finite argument whose square overflows
    raises [OverflowError] ("Numerical result out of range"). *)
Definition py_pow2 (x : spec_float) : pyres spec_float :=
  match x with
  | S754_nan => Ok S754_nan
  | S754_infinity _ => Ok (S754_infinity false)
  | S754_zero _ => Ok fzero
  | S754_finite _ m e =>
    match fmul (S754_finite false m e) (S754_finite false m e) with
    | S754_infinity _ => Err OverflowError
    | r => Ok r
    end
  end.

(** [math.sqrt]: a nan result from a non-nan argument is a domain error. *)
Definition py_sqrt (x : spec_float) : pyres spec_float :=
  match fsqrt x, x with
  | S754_nan, S754_nan => Ok S754_nan
  | S754_nan, _ => Err ValueError
  | r, _ => Ok r
  end.

(** Round half to even of the integer-or-dyadic value [m * 2^e]. *)
Definition round_half_even_pos (m : positive) (e : Z) : Z :=
  if 0 <=? e then Z.shiftl (Zpos m) e
  else
    let k := - e in
    let q := Z.shiftr (Zpos m) k in
    let r := Zpos m - Z.shiftl q k in
    let half := Z.shiftl 1 (k - 1) in
    match Z.compare r half with
    | Lt => q
    | Gt => q + 1
    | Eq => if Z.even q then q else q + 1
    end.

(** [round(x)] for a float [x] (float.__round__ without ndigits): round
    half to even, then [PyLong_FromDouble], which raises [OverflowError] on
    an infinity and [ValueError] on a nan. *)
Definition py_round (x : spec_float) : pyres Z :=
  match x with
  | S754_nan => Err ValueError
  | S754_infinity _ => Err OverflowError
  | S754_zero _ => Ok 0
  | S754_finite s m e =>
    let r := round_half_even_pos m e in
    Ok (if s then - r else r)
  end.

(** [fabs(a) >= fabs(b)] on C doubles (false when either is a nan). *)
Definition fabs_ge (a b : spec_float) : bool :=
  match SFcompare (SFabs a) (SFabs b) with
  | Some Gt | Some Eq => true
  | _ => false
  end.

(** One step of the float loop of [sum] (CPython 3.12 and later, Neumaier's
    compensated summation): [t = f + x]; the rounding error of that addition
    is added to the compensation [c]. *)
Definition neumaier_step (st : spec_float * spec_float) (x : spec_float) :
    spec_float * spec_float :=
  let '(f, c) := st in
  let t := fadd f x in
  if fabs_ge f x then (t, fadd c (fadd (fsub f t) x))
  else (t, fadd c (fadd (fsub x t) f)).

(** [sum] of a list of floats: the int start 0 plus the first float gives
    [f = 0.0 + x], with [c = 0.0]; the remaining floats go through
    [neumaier_step]; at the end the compensation is added when it is
    non-zero and finite ([if (c && Py_IS_FINITE(c)) f += c]). [sum([])] is
    the int 0, here [0.0]. *)
Definition py_sum_floats (xs : list spec_float) : spec_float :=
  match xs with
  | [] => fzero
  | x :: rest =>
    let '(f, c) := fold_left neumaier_step rest (fadd fzero x, fzero) in
    match c with
    | S754_finite _ _ _ => fadd f c
    | _ => f
    end
  end.

(** Evaluation of a generator expression element by element, stopping at
    the first exception. *)
Fixpoint py_map {A B} (f : A -> pyres B) (l : list A) : pyres (list B) :=
  match l with
  | [] => Ok []
  | x :: xs =>
    let* y := f x in
    let* ys := py_map f xs in
    Ok (y :: ys)
  end.

Definition py_sum_ints (l : list Z) : Z := fold_left Z.add l 0.

Definition py_len {A} (l : list A) : Z := Z.of_nat (List.length l).

(** [float / float]: [ZeroDivisionError] for a zero divisor. *)
Definition py_float_truediv (x y : spec_float) : pyres spec_float :=
  match y with
  | S754_zero _ => Err ZeroDivisionError
  | _ => Ok (fdiv x y)
  end.

(** ** Schemas (src/schemas.py) *)

Record ForecastRequest := mkForecastRequest {
  sku : string;
  last_30d_consumption : list Z
}.

Record ForecastResponse := mkForecastResponse {
  resp_sku : string;
  recommended_reorder_qty : Z;
  safety_stock : Z;
  reorder_point : Z
}.

(** ** forecast (src/main.py) *)

(** [avg = sum(data) / len(data)] *)
Definition forecast_avg (data : list Z) : pyres spec_float :=
  py_int_truediv (py_sum_ints data) (py_len data).

(** [(x - avg) ** 2] for an int [x] of the history: the int is converted
    to a float by [float.__rsub__]. *)
Definition sq_dev (avg : spec_float) (x : Z) : pyres spec_float :=
  let* fx := py_float_of_int x in
  py_pow2 (fsub fx avg).

(** [variance = sum((x - avg) ** 2 for x in data) / len(data)] *)
Definition forecast_variance (data : list Z) (avg : spec_float) : pyres spec_float :=
  let* sqs := py_map (sq_dev avg) data in
  let* n := py_float_of_int (py_len data) in
  py_float_truediv (py_sum_floats sqs) n.

(** [stddev = math.sqrt(variance)] *)
Definition forecast_stddev (data : list Z) (avg : spec_float) : pyres spec_float :=
  let* variance := forecast_variance data avg in
  py_sqrt variance.

(** The draws of [random.randint(0, 5) for _ in range(30)]. *)
Definition valid_random_sample (rs : list Z) : Prop :=
  List.length rs = 30%nat /\ Forall (fun x => 0 <= x <= 5) rs.

(** [data = req.last_30d_consumption or [random...]]: an empty list is
    falsy, and only then is the random sample [random_sample] used. *)
Definition forecast_data (random_sample : list Z) (req : ForecastRequest) : list Z :=
  match last_30d_consumption req with
  | [] => random_sample
  | l => l
  end.

Definition lead_time_days : Z := 7.

(** The body of [forecast] once [data] is fixed. *)
Definition forecast_on (s : string) (data : list Z) : pyres ForecastResponse :=
  let* avg := forecast_avg data in
  let* stddev := forecast_stddev data avg in
  let* r := py_round stddev in
  let safety := Z.max 2 r in
  let* fsafety := py_float_of_int safety in
  let* reorder_point :=
    py_round (fadd (fmul avg (float_of_small lead_time_days)) fsafety) in
  let* q := py_round (fmul avg (float_of_small 14)) in
  let reorder_qty := Z.max 5 q in
  Ok (mkForecastResponse s reorder_qty safety reorder_point).

Definition forecast (random_sample : list Z) (req : ForecastRequest) : pyres ForecastResponse :=
  forecast_on (sku req) (forecast_data random_sample req).

Definition resp_triple (r : pyres ForecastResponse) : pyres (Z * Z * Z) :=
  let* x := r in Ok (safety_stock x, reorder_point x, recommended_reorder_qty x).


(** ** The forecast formulas of the specification, in exact arithmetic

    The specification's formulas read over the rationals: [avg] the exact
    mean, the population variance exact, and [round] either of the two
    conventions the specification allows. *)

Inductive rounding_mode := HalfEven | HalfAway.

(** Rounding of a rational to an integer. *)
Definition round_q (mode : rounding_mode) (x : Q) : Z :=
  let n := Qnum x in
  let d := Zpos (Qden x) in
  let f := n / d in
  match Z.compare (2 * (n - f * d)) d with
  | Lt => f
  | Gt => f + 1
  | Eq =>
    match mode with
    | HalfEven => if Z.even f then f else f + 1
    | HalfAway => if f <? 0 then f else f + 1
    end
  end.

(** Rounding of the square root of a non-negative rational. *)
Definition round_sqrt_q (mode : rounding_mode) (v : Q) : Z :=
  let p := Qnum v in
  let d := Zpos (Qden v) in
  let k := Z.sqrt (p * d) / d in
  match Z.compare (4 * p) ((2 * k + 1) ^ 2 * d) with
  | Lt => k
  | Gt => k + 1
  | Eq =>
    match mode with
    | HalfEven => if Z.even k then k else k + 1
    | HalfAway => k + 1
    end
  end.

Definition spec_avg (h : list Z) : Q :=
  Qred (inject_Z (py_sum_ints h) / inject_Z (py_len h)).

Definition spec_variance (h : list Z) : Q :=
  let avg := spec_avg h in
  Qred (fold_right Qplus 0 (map (fun x => (inject_Z x - avg) ^ 2) h)
        / inject_Z (py_len h))%Q.

(** [(safety_stock, reorder_point, reorder_qty)] as the specification's
    formulas give them. *)
Definition spec_forecast (mode : rounding_mode) (h : list Z) : Z * Z * Z :=
  let avg := spec_avg h in
  let safety := Z.max 2 (round_sqrt_q mode (spec_variance h)) in
  let rp := round_q mode (avg * inject_Z lead_time_days + inject_Z safety)%Q in
  let qty := Z.max 5 (round_q mode (avg * inject_Z 14))%Q in
  (safety, rp, qty).

(** The rational value of a finite float. *)
Definition fvalue (f : spec_float) : Q :=
  match f with
  | S754_finite s m e =>
    let v :=
      match e with
      | Zneg p => Zpos m # (2 ^ p)
      | _ => inject_Z (Zpos m * 2 ^ e)
      end in
    if s then (- v)%Q else v
  | _ => 0%Q
  end.

(** [n] is the value of [x] rounded to the nearest integer, ties to even. *)
Definition rounds_half_even (x : Q) (n : Z) : Prop :=
  (Qabs (x - inject_Z n) < 1 # 2)%Q \/
  (Qabs (x - inject_Z n) == 1 # 2 /\ Z.even n = true)%Q.

(** A float that is not a nan and has sign [s]. *)
Definition sgn_ok (s : bool) (f : spec_float) : Prop :=
  match f with
  | S754_zero s' | S754_infinity s' | S754_finite s' _ _ => s' = s
  | S754_nan => False
  end.

Definition not_nan (f : spec_float) : Prop := exists s, sgn_ok s f.

Definition finite_f (f : spec_float) : Prop :=
  match f with
  | S754_zero _ | S754_finite _ _ _ => True
  | _ => False
  end.

(** A zero, or a finite float with a 53-bit mantissa and exponent at most
    [E]: its magnitude is below [2 ^ (53 + E)]. *)
Definition bnd (E : Z) (f : spec_float) : Prop :=
  match f with
  | S754_zero _ => True
  | S754_finite _ m e => Zpos m < 2 ^ 53 /\ e <= E
  | _ => False
  end.

(** A history of 1 to 256 entries, each of magnitude below [2 ^ 53] (each
    exactly representable as a float). *)
Definition hist_bounded (data : list Z) : Prop :=
  data <> [] /\ (List.length data <= 256)%nat /\ Forall (fun x => Z.abs x < 2 ^ 53) data.

(** The result is a value satisfying [P], or an [OverflowError]. *)
Definition ok_or_overflow {A} (P : A -> Prop) (r : pyres A) : Prop :=
  match r with
  | Ok a => P a
  | Err e => e = OverflowError
  end.

(** Sample inputs: two random samples (all draws 0, all draws 5), and a
    28-day history summing to 115. *)
Definition zeros_sample : list Z := repeat 0 30.

Definition fives_sample : list Z := repeat 5 30.

Definition tie_history : list Z := repeat 5 23 ++ repeat 0 5.

(** * The other endpoints of src/main.py *)

(** ** Strings

    A Python [str] is modelled by a Rocq [string] whose characters are the
    code points U+0000..U+00FF (Latin-1), one [ascii] per code point;
    slicing, concatenation and [in] act on code points as in Python. *)

(** [str.lower] on U+0000..U+00FF: the capitals A..Z (0x41..0x5A) and
    U+00C0..U+00DE except U+00D7 map to the code point 0x20 above; every
    other code point is its own lower case. *)
Definition py_lower_char (c : ascii) : ascii :=
  let n := nat_of_ascii c in
  if (Nat.leb 65 n && Nat.leb n 90) ||
     (Nat.leb 192 n && Nat.leb n 222 && negb (Nat.eqb n 215))
  then ascii_of_nat (n + 32) else c.

Fixpoint py_lower (s : string) : string :=
  match s with
  | EmptyString => EmptyString
  | String c s' => String (py_lower_char c) (py_lower s')
  end.

(** [k in s] on strings: [k] is a substring of [s]. *)
Fixpoint py_str_contains (k s : string) : bool :=
  String.prefix k s ||
  match s with
  | EmptyString => false
  | String _ s' => py_str_contains k s'
  end.

(** [d[k]] / [d.get(k)] on a dict literal, given by its items in order. *)
Fixpoint dict_lookup {A} (d : list (string * A)) (k : string) : option A :=
  match d with
  | [] => None
  | (k', v) :: d' => if String.eqb k k' then Some v else dict_lookup d' k
  end.

(** [d.get(k, default)] *)
Definition dict_get {A} (d : list (string * A)) (k : string) (default : A) : A :=
  match dict_lookup d k with Some v => v | None => default end.

(** ** POST /auth/mock-login ([mock_login]) *)

Record LoginRequest := mkLoginRequest {
  login_email : string;
  login_role : string
}.

Record LoginResponse := mkLoginResponse {
  lr_user : string;
  lr_role : string;
  lr_permissions : list string
}.

Definition role_permissions : list (string * list string) := [
  ("admin", ["all"]);
  ("lab_manager", ["lims"; "inventory"; "tat"; "reports"]);
  ("pathologist", ["validation"; "reporting"]);
  ("technician", ["worksheets"; "entry"]);
  ("procurement_officer", ["catalog"; "requisition"; "po"]);
  ("finance", ["ap"; "payments"; "invoices"])
]%string.

Definition mock_login (payload : LoginRequest) : LoginResponse :=
  let role := py_lower (login_role payload) in
  let permissions := dict_get role_permissions role [] in
  mkLoginResponse (login_email payload) role permissions.

(** The role names of [UserRole.role] (src/schemas.py). *)
Definition user_role_names : list string :=
  ["admin"; "lab_manager"; "pathologist"; "technician"; "procurement_officer";
   "finance"]%string.

(** ** POST /ai/ask ([ai_ask]) *)

Record ChatMessage := mkChatMessage {
  cm_role : string;
  cm_content : string;
  cm_context : option string
}.

Definition hints : list (string * string) := [
  ("inventory", "Current low stock items can be reviewed in Inventory > Alerts. Consider reordering high ABC-class reagents first.");
  ("finance", "Net 30 invoices due this week total INR 2.4L. Paying early could save ~2% in discounts.");
  ("lims", "3 samples have abnormal results awaiting validation in Biochemistry.");
  ("procurement", "Two requisitions are pending approval. Recommended vendor for glucose reagent is ChemLabs.")
]%string.

(** [next((k for k in keys if k in content.lower()), default)] *)
Fixpoint first_key_in (keys : list string) (content : string) (default : string) : string :=
  match keys with
  | [] => default
  | k :: ks => if py_str_contains k (py_lower content) then k
               else first_key_in ks content default
  end.

Definition newline : string := String (ascii_of_nat 10) EmptyString.

(** The answer of [ai_ask]; [None] stands for the [KeyError] of
    [hints[key]].  The two [create_document] calls that log the exchange
    sit in a [try] whose [except Exception: pass] discards any failure, so
    they do not change the response. *)
Definition ai_ask (msg : ChatMessage) : option string :=
  let key := first_key_in (List.map fst hints) (cm_content msg) "lims" in
  match dict_lookup hints key with
  | None => None
  | Some hint =>
    Some ("Insight: " ++ hint ++ newline ++ "You asked: " ++
          substring 0 300 (cm_content msg))%string
  end.

(** ** Mongo collections and HTTP errors

    A collection is the list of its documents in natural order; a document
    keeps the fields the code reads or writes.  [find_one] returns the first
    document matching the filter, [update_one] changes the first one and
    reports whether one matched. *)

Fixpoint update_first {A} (p : A -> bool) (f : A -> A) (l : list A) : list A * bool :=
  match l with
  | [] => ([], false)
  | x :: xs =>
    if p x then (f x :: xs, true)
    else let '(ys, b) := update_first p f xs in (x :: ys, b)
  end.

(** [HTTPException(status_code, detail)], or an exception the endpoint
    lets escape (answered 500 by FastAPI), by its name. *)
Inductive api_error : Type :=
  | HTTPException (status_code : Z) (detail : string)
  | Uncaught (name : string).

Inductive apires (A : Type) : Type :=
  | ApiOk (a : A)
  | ApiErr (e : api_error).
Arguments ApiOk {A} a.
Arguments ApiErr {A} e.

Definition db_not_configured : api_error :=
  HTTPException 500 "Database not configured".

(** ** LIMS samples *)

(** A document of the [sample] collection: the departments of its
    [ordered_tests] and the fields the endpoints set. *)
Record SampleDoc := mkSampleDoc {
  sd_barcode : string;
  sd_departments : list string;
  sd_status : string;
  sd_rejection_reason : option string;
  sd_received_at : option Z;
  sd_updated_at : option Z
}.

(** Python truthiness of an [Optional[str]]: [None] and [""] are false. *)
Definition opt_str_truthy (o : option string) : bool :=
  match o with None => false | Some s => negb (String.eqb s "") end.

(** [receive_sample], lines 133-134: the sample as it is handed to
    [create_document] ([now] is [datetime.now(timezone.utc)]). *)
Definition receive_sample_doc (s : SampleDoc) (now : Z) : SampleDoc :=
  mkSampleDoc (sd_barcode s) (sd_departments s)
    (if negb (opt_str_truthy (sd_rejection_reason s)) then "received" else "rejected")
    (sd_rejection_reason s) (Some now) (sd_updated_at s).

(** [reject_sample]: the new [sample] collection and the response. *)
Definition reject_sample (db : option (list SampleDoc)) (barcode reason : string) (now : Z)
  : option (list SampleDoc) * apires (string * string) :=
  match db with
  | None => (None, ApiErr db_not_configured)
  | Some samples =>
    let '(samples', matched) :=
      update_first (fun d => String.eqb (sd_barcode d) barcode)
        (fun d => mkSampleDoc (sd_barcode d) (sd_departments d) "rejected"
                    (Some reason) (sd_received_at d) (Some now))
        samples in
    if matched then (Some samples', ApiOk (barcode, "rejected"%string))
    else (Some samples', ApiErr (HTTPException 404 "Sample not found"))
  end.

(** [worksheets(department)]: [if department:] adds the filter on
    [ordered_tests.department] (an array of sub-documents: some element
    matches), and the status must be [received] or [in_progress]. *)
Definition worksheets (db : option (list SampleDoc)) (department : option string)
  : list SampleDoc :=
  match db with
  | None => []
  | Some samples =>
    filter (fun d =>
      (if opt_str_truthy department then
         match department with
         | Some dep => existsb (String.eqb dep) (sd_departments d)
         | None => true
         end
       else true) &&
      existsb (String.eqb (sd_status d)) ["received"; "in_progress"]%string)
      samples
  end.

(** ** Results ([add_result]) *)

Inductive abnormal_flag := FlagL | FlagH | FlagCRIT.

Record ResultEntry := mkResultEntry {
  re_barcode : string;
  re_test_code : string;
  re_parameter : string;
  re_value : spec_float;
  re_unit : string;
  re_ref_low : option spec_float;
  re_ref_high : option spec_float;
  re_abnormal_flag : option abnormal_flag;
  re_entered_by : option string;
  re_entered_at : option Z
}.

(** Python's [x < y] and [x > y] on floats: false when a nan is involved. *)
Definition py_flt (x y : spec_float) : bool :=
  match SFcompare x y with Some Lt => true | _ => false end.

Definition py_fgt (x y : spec_float) : bool :=
  match SFcompare x y with Some Gt => true | _ => false end.

Definition py_fge (x y : spec_float) : bool :=
  match SFcompare x y with Some Gt | Some Eq => true | _ => false end.

(** [add_result], lines 165-172: the entry handed to [create_document];
    its [abnormal_flag] is the ["flag"] of the response. *)
Definition add_result_entry (entry : ResultEntry) (now : Z) : ResultEntry :=
  let flag1 :=
    match re_ref_low entry with
    | Some lo => if py_flt (re_value entry) lo then Some FlagL else None
    | None => None
    end in
  let flag :=
    match re_ref_high entry with
    | Some hi => if py_fgt (re_value entry) hi then Some FlagH else flag1
    | None => flag1
    end in
  let abn := match flag with Some f => Some f | None => re_abnormal_flag entry end in
  mkResultEntry (re_barcode entry) (re_test_code entry) (re_parameter entry)
    (re_value entry) (re_unit entry) (re_ref_low entry) (re_ref_high entry)
    abn (re_entered_by entry) (Some now).

(** [add_result], lines 175-176: with a database, the first sample with the
    entry's barcode is marked [in_progress]. *)
Definition add_result_mark (samples : list SampleDoc) (barcode : string) (now : Z)
  : list SampleDoc :=
  fst (update_first (fun d => String.eqb (sd_barcode d) barcode)
         (fun d => mkSampleDoc (sd_barcode d) (sd_departments d) "in_progress"
                     (sd_rejection_reason d) (sd_received_at d) (Some now))
         samples).

(** ** Requisitions ([req_action]) *)

Record ReqDoc := mkReqDoc {
  rq_req_id : option string;
  rq_status : string;
  rq_approver : option string;
  rq_remarks : option string;
  rq_updated_at : option Z
}.

Record ReqAction := mkReqAction {
  ra_req_id : string;
  ra_approver : string;
  ra_action : string;
  ra_remarks : option string
}.

Definition req_action (db : option (list ReqDoc)) (act : ReqAction) (now : Z)
  : option (list ReqDoc) * apires string :=
  match db with
  | None => (None, ApiErr db_not_configured)
  | Some reqs =>
    let new_status := if String.eqb (ra_action act) "approve" then "approved" else "rejected" in
    let set_fields d :=
      mkReqDoc (rq_req_id d) new_status (Some (ra_approver act)) (ra_remarks act) (Some now) in
    let '(reqs1, matched) :=
      update_first (fun d => match rq_req_id d with
                             | Some r => String.eqb r (ra_req_id act)
                             | None => false
                             end) set_fields reqs in
    let reqs2 :=
      if matched then reqs1
      else fst (update_first (fun d => String.eqb (rq_status d) "pending") set_fields reqs1) in
    (Some reqs2, ApiOk new_status)
  end%string.

(** ** Inventory ([consume]) *)

Record InvDoc := mkInvDoc {
  inv_sku : string;
  inv_batch : option string;
  inv_qty : option Z;
  inv_unit : option string;
  inv_updated_at : option Z
}.

(** The range of a BSON int64. *)
Definition int64_ok (z : Z) : bool := (- 2 ^ 63 <=? z) && (z <? 2 ^ 63).

(** [consume]: [update_one({"sku": sku}, {"$inc": {"qty": -abs(qty)},
    "$set": {"updated_at": now}}, upsert=True)], then [find_one] by sku.
    Encoding an int outside int64 raises [OverflowError] in the driver; an
    [$inc] whose result leaves int64 is refused by the server
    ([WriteError]); a missing [qty] counts as 0; without a match the upsert
    appends [{sku, qty: -abs(qty), updated_at}]. *)
Definition consume (db : option (list InvDoc)) (sku : string) (qty : Z) (now : Z)
  : option (list InvDoc) * apires (option InvDoc) :=
  match db with
  | None => (None, ApiErr db_not_configured)
  | Some items =>
    let dq := - Z.abs qty in
    let p d := String.eqb (inv_sku d) sku in
    if negb (int64_ok dq) then (Some items, ApiErr (Uncaught "OverflowError"))
    else
      match find p items with
      | Some d =>
        let nq := match inv_qty d with Some q => q | None => 0 end + dq in
        if negb (int64_ok nq) then (Some items, ApiErr (Uncaught "WriteError"))
        else
          let items' :=
            fst (update_first p (fun d => mkInvDoc (inv_sku d) (inv_batch d) (Some nq)
                                           (inv_unit d) (Some now)) items) in
          (Some items', ApiOk (find p items'))
      | None =>
        let items' := items ++ [mkInvDoc sku None (Some dq) None (Some now)] in
        (Some items', ApiOk (find p items'))
      end
  end.

(** ** Validation ([validation_queue], [validate_results]) *)

(** [validation_queue]: the stored result entries whose [abnormal_flag] is
    [H], [L] or [CRIT], the first 200 in natural order. *)
Definition validation_queue (db : option (list ResultEntry)) : list ResultEntry :=
  match db with
  | None => []
  | Some entries =>
    firstn 200 (filter (fun e => match re_abnormal_flag e with
                                 | Some (FlagH | FlagL | FlagCRIT) => true
                                 | None => false
                                 end) entries)
  end.

(** [validate_results], lines 201-202: with a database, the first sample
    with the barcode is marked [validated]. *)
Definition validate_mark (samples : list SampleDoc) (barcode : string) (now : Z)
  : list SampleDoc :=
  fst (update_first (fun d => String.eqb (sd_barcode d) barcode)
         (fun d => mkSampleDoc (sd_barcode d) (sd_departments d) "validated"
                     (sd_rejection_reason d) (sd_received_at d) (Some now))
         samples).

(** ** Purchase orders ([create_po], lines 287-289) *)

(** The requisition [create_po] builds the order from: the first one with
    the [req_id], or else the first one [approved] or [pending]; a [None]
    database fails on [db["requisition"]] with [TypeError]. *)
Definition create_po_lookup (db : option (list ReqDoc)) (req_id : string) : apires ReqDoc :=
  match db with
  | None => ApiErr (Uncaught "TypeError")
  | Some reqs =>
    match find (fun d => match rq_req_id d with
                         | Some r => String.eqb r req_id
                         | None => false
                         end) reqs with
    | Some d => ApiOk d
    | None =>
      match find (fun d => existsb (String.eqb (rq_status d)) ["approved"; "pending"]%string) reqs with
      | Some d => ApiOk d
      | None => ApiErr (HTTPException 404 "Requisition not found")
      end
    end
  end.

(** The quantity the [$inc] of [consume] starts from: the [qty] of the
    first item with the sku, 0 when it has none or there is no such item. *)
Definition stock_of (items : list InvDoc) (sku : string) : Z :=
  match find (fun d => String.eqb (inv_sku d) sku) items with
  | Some d => match inv_qty d with Some q => q | None => 0 end
  | None => 0
  end.

(** ** Dashboard charts ([dashboard_summary], lines 106-116) *)

(** The five [random.randint] draws of one month, in the order drawn. *)
Record MonthDraws := mkMonthDraws {
  d_revenue : Z;
  d_cost : Z;
  d_reagents : Z;
  d_consumables : Z;
  d_logistics : Z
}.

Definition valid_month_draws (d : MonthDraws) : Prop :=
  -10000 <= d_revenue d <= 15000 /\ -8000 <= d_cost d <= 12000 /\
  15000 <= d_reagents d <= 30000 /\ 5000 <= d_consumables d <= 15000 /\
  3000 <= d_logistics d <= 10000.

Record PnlEntry := mkPnlEntry {
  pnl_month : string;
  pnl_revenue : Z;
  pnl_cost : Z;
  pnl_profit : Z
}.

Record SpendEntry := mkSpendEntry {
  sp_month : string;
  sp_reagents : Z;
  sp_consumables : Z;
  sp_logistics : Z
}.

Definition months : list string :=
  ["Jan"; "Feb"; "Mar"; "Apr"; "May"; "Jun"; "Jul"; "Aug"; "Sep"; "Oct"; "Nov"; "Dec"]%string.

(** [draw i] are the draws of month [i] ([enumerate(months, start=1)]). *)
Definition dashboard_charts (draw : nat -> MonthDraws) : list PnlEntry * list SpendEntry :=
  let base_rev := 120000 in
  let base_cost := 70000 in
  let ims := combine (seq 1 12) months in
  (List.map (fun '(i, m) =>
     let revenue := base_rev + d_revenue (draw i) in
     let cost := base_cost + d_cost (draw i) in
     mkPnlEntry m revenue cost (revenue - cost)) ims,
   List.map (fun '(i, m) =>
     mkSpendEntry m (d_reagents (draw i)) (d_consumables (draw i)) (d_logistics (draw i))) ims).

(** ** Invoice status ([add_payment], lines 365-372) *)

Record InvoiceItem := mkInvoiceItem {
  ii_sku : string;
  ii_qty : Z;
  ii_price : spec_float;
  ii_gst_rate : spec_float
}.

(** One turn of the loop over the items:
    [total += qty * price] then [total += (qty * price) * (gst_rate / 100.0)];
    [int * float] converts the int with [PyLong_AsDouble]. *)
Definition invoice_total_step (total : spec_float) (it : InvoiceItem) : pyres spec_float :=
  let* q1 := py_float_of_int (ii_qty it) in
  let total1 := fadd total (fmul q1 (ii_price it)) in
  let* q2 := py_float_of_int (ii_qty it) in
  Ok (fadd total1 (fmul (fmul q2 (ii_price it)) (fdiv (ii_gst_rate it) (float_of_small 100)))).

Fixpoint invoice_total_loop (total : spec_float) (items : list InvoiceItem) : pyres spec_float :=
  match items with
  | [] => Ok total
  | it :: its => let* t := invoice_total_step total it in invoice_total_loop t its
  end.

(** The status written to the invoice, from [paid], the value of
    [sum(x.get("amount", 0) for x in payments)], and the items.  With no
    payment [paid] is the int 0, which compares with every float as [0.0]
    does, so [paid] is a float here. *)
Definition invoice_status (paid : spec_float) (items : list InvoiceItem) : pyres string :=
  let* total := invoice_total_loop fzero items in
  Ok (if py_fge paid total then "paid"
      else if py_fgt paid fzero then "partial" else "unpaid")%string.

(** ** Values of finite floats, in units of the smallest subnormal *)

(** The float [n * 2 ^ F] of sign [b] for a rounded mantissa [n] of at
    most 53 bits (a carry to [2 ^ 53] bumps the exponent), or an infinity
    past the largest exponent: what the rounding of [SpecFloat] builds. *)
Definition mkf (b : bool) (n F : Z) : spec_float :=
  if n =? 0 then S754_zero b
  else if n =? 2 ^ 53 then
    (if F + 1 <=? emax - prec then S754_finite b (Z.to_pos (2 ^ 52)) (F + 1)
     else S754_infinity b)
  else if F <=? emax - prec then S754_finite b (Z.to_pos n) F else S754_infinity b.

(** A zero, or a finite float in the form the rounding functions produce: a
    53-bit mantissa, normalised unless the exponent is the least one. *)
Definition canon (f : spec_float) : Prop :=
  match f with
  | S754_zero _ => True
  | S754_finite _ m e =>
    Zpos m < 2 ^ 53 /\ emin prec emax <= e <= emax - prec /\
    (2 ^ 52 <= Zpos m \/ e = emin prec emax)
  | _ => False
  end.

(** The value of a finite float in units of [2 ^ emin], the least subnormal
    (zero for the other floats). *)
Definition zval (f : spec_float) : Z :=
  match f with
  | S754_finite s m e => cond_Zopp s (Zpos m * 2 ^ (e - emin prec emax))
  | _ => 0
  end.

(** [R] is a 53-bit integer times a power of two (a float value, ignoring
    the exponent range above). *)
Definition repr (R : Z) : Prop :=
  exists m k, 0 <= m < 2 ^ 53 /\ 0 <= k /\ Z.abs R = m * 2 ^ k.

(** [R] is the value of a finite float. *)
Definition repr_fin (R : Z) : Prop :=
  exists m k, 0 <= m < 2 ^ 53 /\ 0 <= k <= emax - prec - emin prec emax /\
    Z.abs R = m * 2 ^ k.

(** [f] is [+inf], or finite with value at least [R]. *)
Definition fge (f : spec_float) (R : Z) : Prop :=
  match f with
  | S754_infinity false => True
  | S754_zero _ | S754_finite _ _ _ => R <= zval f
  | _ => False
  end.

(** [f] is [-inf], or finite with value at most [R]. *)
Definition fle (f : spec_float) (R : Z) : Prop :=
  match f with
  | S754_infinity true => True
  | S754_zero _ | S754_finite _ _ _ => zval f <= R
  | _ => False
  end.

(** A summand of the variance: a non-negative float, canonical when finite. *)
Definition item_ok (x : spec_float) : Prop := sgn_ok false x /\ (finite_f x -> canon x).

(** The invariant of the compensated sum of non-negative floats: the running
    sum [f] is non-negative, and when [f] and the compensation [c] are finite
    [f + c >= 0]. *)
Definition neumaier_inv (st : spec_float * spec_float) : Prop :=
  let '(f, c) := st in
  sgn_ok false f /\
  (finite_f f -> canon f /\ (finite_f c -> canon c /\ - zval f <= zval c)).

(** ** Endpoint inputs *)

(** Sample documents and draws used to exercise the endpoints. *)
Definition sample_entry (v lo hi : Z) (f : option abnormal_flag) : ResultEntry :=
  mkResultEntry "BC001" "GLU" "Glucose" (float_of_small v) "mg/dL"
    (Some (float_of_small lo)) (Some (float_of_small hi)) f None None.

Definition sample_doc (b : string) (st : string) : SampleDoc :=
  mkSampleDoc b ["biochemistry"]%string st None (Some 1) None.

Definition rejected_sample : SampleDoc :=
  mkSampleDoc "BC002" ["biochemistry"]%string "rejected" (Some "haemolysed"%string) (Some 1) (Some 9).

(** The fields [req_action] sets on the requisition it updates. *)
Definition req_set (act : ReqAction) (now : Z) (d : ReqDoc) : ReqDoc :=
  mkReqDoc (rq_req_id d) (if String.eqb (ra_action act) "approve" then "approved" else "rejected")
    (Some (ra_approver act)) (ra_remarks act) (Some now).

Definition req_doc (st : string) : ReqDoc := mkReqDoc None st None None None.

Definition req_doc_id (r : string) : ReqDoc := mkReqDoc (Some r) "pending" None None None.

Definition inv_doc (sku : string) (q : Z) : InvDoc :=
  mkInvDoc sku (Some "B1"%string) (Some q) (Some "kit"%string) None.

Definition flat_draws (_ : nat) : MonthDraws := mkMonthDraws 15000 (-8000) 30000 5000 10000.

(** ** Signs of rounded results *)

Lemma shr_1_nonneg mrs : 0 <= shr_m mrs -> 0 <= shr_m (shr_1 mrs).
Proof.
  destruct mrs as [m r s]; simpl.
  destruct m as [|p|p]; simpl; try lia.
  destruct p; simpl; lia.
Qed.

Lemma iter_shr_1_nonneg p : forall mrs,
  0 <= shr_m mrs -> 0 <= shr_m (iter_pos shr_1 p mrs).
Proof.
  induction p as [p IH|p IH|]; intros mrs H; simpl.
  - apply IH, IH, shr_1_nonneg, H.
  - apply IH, IH, H.
  - apply shr_1_nonneg, H.
Qed.

Lemma shr_nonneg mrs e n : 0 <= shr_m mrs -> 0 <= shr_m (fst (shr mrs e n)).
Proof.
  intros H; unfold shr; destruct n; simpl; auto using iter_shr_1_nonneg.
Qed.

Lemma shr_fexp_nonneg m e l :
  0 <= m -> 0 <= shr_m (fst (shr_fexp prec emax m e l)).
Proof.
  intros H; unfold shr_fexp; apply shr_nonneg.
  destruct l as [|[]]; simpl; exact H.
Qed.

Lemma round_nearest_even_nonneg m l : 0 <= m -> 0 <= round_nearest_even m l.
Proof.
  intros H; destruct l as [|[]]; simpl; try lia.
  destruct (Z.even m); lia.
Qed.

Lemma binary_round_aux_sgn sx mx ex lx :
  0 <= mx -> sgn_ok sx (binary_round_aux prec emax sx mx ex lx).
Proof.
  intros H; unfold binary_round_aux.
  pose proof (shr_fexp_nonneg mx ex lx H) as H1.
  destruct (shr_fexp prec emax mx ex lx) as [mrs' e'] eqn:E1; simpl in H1.
  pose proof (shr_fexp_nonneg (round_nearest_even (shr_m mrs') (loc_of_shr_record mrs'))
                e' loc_Exact (round_nearest_even_nonneg _ _ H1)) as H2.
  destruct (shr_fexp prec emax _ e' loc_Exact) as [mrs'' e''] eqn:E2; simpl in H2.
  destruct (shr_m mrs'') as [|m|m]; simpl; auto.
  - destruct (_ <=? _); reflexivity.
Qed.

Lemma binary_round_sgn sx m e : sgn_ok sx (binary_round prec emax sx m e).
Proof.
  unfold binary_round.
  destruct (shl_align m e _) as [mz ez].
  apply binary_round_aux_sgn; lia.
Qed.

Lemma binary_normalize_sgn m e :
  sgn_ok (m <? 0) (binary_normalize prec emax m e false).
Proof.
  destruct m as [|p|p]; simpl; try reflexivity; apply binary_round_sgn.
Qed.

Lemma binary_normalize_not_nan m e : not_nan (binary_normalize prec emax m e false).
Proof. eexists; apply binary_normalize_sgn. Qed.

Lemma fadd_nonneg x y :
  sgn_ok false x -> sgn_ok false y -> sgn_ok false (fadd x y).
Proof.
  intros Hx Hy; unfold fadd, SFadd.
  destruct x as [sx|sx| |sx mx ex]; destruct y as [sy|sy| |sy my ey];
    simpl in Hx, Hy; subst; simpl; auto.
  apply binary_round_sgn.
Qed.

Lemma fadd_not_nan x y : not_nan x -> finite_f y -> not_nan (fadd x y).
Proof.
  intros [s Hx] Hy; unfold fadd, SFadd.
  destruct x as [sx|sx| |sx mx ex]; destruct y as [sy|sy| |sy my ey];
    simpl in Hx, Hy; try contradiction; subst;
    try solve [eexists; simpl; reflexivity].
  - destruct s, sy; eexists; simpl; reflexivity.
  - apply binary_normalize_not_nan.
Qed.

Lemma fsub_not_nan x y : finite_f x -> finite_f y -> not_nan (fsub x y).
Proof.
  intros Hx Hy; unfold fsub, SFsub.
  destruct x as [sx|sx| |sx mx ex]; destruct y as [sy|sy| |sy my ey];
    simpl in Hx, Hy; try contradiction;
    try solve [eexists; simpl; reflexivity].
  - destruct sx, sy; eexists; simpl; reflexivity.
  - apply binary_normalize_not_nan.
Qed.

Lemma fmul_not_nan x y : finite_f x -> finite_f y -> not_nan (fmul x y).
Proof.
  intros Hx Hy; unfold fmul, SFmul.
  destruct x as [sx|sx| |sx mx ex]; destruct y as [sy|sy| |sy my ey];
    simpl in Hx, Hy; try contradiction;
    try solve [eexists; simpl; reflexivity].
  eexists; apply binary_round_aux_sgn; lia.
Qed.

Lemma fmul_nonneg x y :
  sgn_ok false x -> finite_f x -> sgn_ok false y -> finite_f y ->
  sgn_ok false (fmul x y).
Proof.
  intros Hx Fx Hy Fy; unfold fmul, SFmul.
  destruct x as [sx|sx| |sx mx ex]; destruct y as [sy|sy| |sy my ey];
    simpl in Hx, Hy, Fx, Fy; try contradiction; subst; simpl; auto.
  apply binary_round_aux_sgn; lia.
Qed.

Lemma SFdiv_core_binary_nonneg m1 e1 m2 e2 :
  0 <= m1 -> 0 < m2 ->
  0 <= fst (fst (SFdiv_core_binary prec emax m1 e1 m2 e2)).
Proof.
  intros H1 H2; unfold SFdiv_core_binary.
  set (m' := match _ with Zpos _ => _ | Z0 => m1 | Zneg _ => 0 end).
  assert (Hm : 0 <= m').
  { subst m'; destruct (_ - _ - _); try lia. apply Z.shiftl_nonneg; lia. }
  pose proof (Z_div_mod m' m2 ltac:(lia)) as Hd.
  destruct (Z.div_eucl m' m2) as [q r]; simpl.
  destruct Hd as [Heq Hr]; nia.
Qed.

Lemma fdiv_nonneg x m e :
  sgn_ok false x -> sgn_ok false (fdiv x (S754_finite false m e)).
Proof.
  intros Hx; unfold fdiv, SFdiv.
  destruct x as [sx|sx| |sx mx ex]; simpl in Hx; try contradiction; subst; simpl; auto.
  pose proof (SFdiv_core_binary_nonneg (Zpos mx) ex (Zpos m) e ltac:(lia) ltac:(lia)) as H.
  destruct (SFdiv_core_binary prec emax _ _ _ _) as [[q ez] lz]; simpl in H.
  apply binary_round_aux_sgn; exact H.
Qed.

Lemma fsqrt_nonneg x : sgn_ok false x -> sgn_ok false (fsqrt x).
Proof.
  intros Hx; unfold fsqrt, SFsqrt.
  destruct x as [sx|sx| |sx mx ex]; simpl in Hx; try contradiction; subst; simpl; auto.
  unfold SFsqrt_core_binary.
  set (m' := match _ with Zpos _ => _ | Z0 => _ | Zneg _ => 0 end).
  assert (Hm : 0 <= m').
  { subst m'; destruct (_ - _); try lia. apply Z.shiftl_nonneg; lia. }
  pose proof (Z.sqrtrem_spec m' Hm) as Hs.
  destruct (Z.sqrtrem m') as [q r]; destruct Hs as [Heq Hr].
  apply binary_round_aux_sgn.
  destruct (0 <=? q) eqn:Hq; [apply Z.leb_le in Hq; exact Hq|].
  apply Z.leb_gt in Hq; nia.
Qed.

(** ** Rounding a positive mantissa above the underflow threshold does not
    give zero *)

Lemma digits2_pos_bound p : 2 ^ (Zpos (digits2_pos p) - 1) <= Zpos p.
Proof.
  induction p as [p IH|p IH|]; [rewrite (Pos2Z.inj_xI p)|rewrite (Pos2Z.inj_xO p)|reflexivity];
    cbn [digits2_pos];
    replace (Zpos (Pos.succ (digits2_pos p)) - 1) with (Zpos (digits2_pos p) - 1 + 1) by lia;
    rewrite Z.pow_add_r, Z.pow_1_r by lia; lia.
Qed.

Lemma shr_1_div mrs : 0 <= shr_m mrs -> shr_m (shr_1 mrs) = shr_m mrs / 2.
Proof.
  destruct mrs as [m r s]; simpl; intros H.
  destruct m as [|p|p]; try lia; [reflexivity|].
  destruct p as [p|p|]; simpl; try reflexivity.
  - rewrite (Pos2Z.inj_xI p); apply Z.div_unique with (r := 1); lia.
  - rewrite (Pos2Z.inj_xO p); apply Z.div_unique with (r := 0); lia.
Qed.

Lemma iter_shr_1_div p : forall mrs,
  0 <= shr_m mrs -> shr_m (iter_pos shr_1 p mrs) = shr_m mrs / 2 ^ Zpos p.
Proof.
  induction p as [p IH|p IH|]; intros mrs H; cbn [iter_pos].
  - assert (H1 := shr_1_nonneg _ H).
    assert (H2 := iter_shr_1_nonneg p _ H1).
    rewrite IH, IH, shr_1_div by assumption.
    rewrite !Z.div_div by (try apply Z.mul_pos_pos; lia).
    f_equal. rewrite (Pos2Z.inj_xI p).
    replace (2 * Zpos p + 1) with (Zpos p + Zpos p + 1) by lia.
    rewrite !Z.pow_add_r by lia. ring.
  - assert (H2 := iter_shr_1_nonneg p _ H).
    rewrite IH, IH by assumption.
    rewrite Z.div_div by lia.
    f_equal. rewrite (Pos2Z.inj_xO p).
    replace (2 * Zpos p) with (Zpos p + Zpos p) by lia.
    rewrite Z.pow_add_r by lia. ring.
  - apply shr_1_div, H.
Qed.

Lemma shr_fexp_pos m e l :
  0 < m -> emin prec emax <= e ->
  0 < shr_m (fst (shr_fexp prec emax m e l)) /\
  emin prec emax <= snd (shr_fexp prec emax m e l).
Proof.
  intros Hm He; unfold shr_fexp, shr.
  assert (Hl : shr_m (shr_record_of_loc m l) = m) by (destruct l as [|[]]; reflexivity).
  assert (Hb := digits2_pos_bound (Z.to_pos m)).
  destruct m as [|pm|pm]; try lia; simpl Zdigits2 in *; simpl Z.to_pos in Hb.
  unfold fexp in *.
  destruct (Z.max _ _ - e) as [|p|p] eqn:En; simpl; [rewrite Hl; lia| |rewrite Hl; lia].
  rewrite iter_shr_1_div by lia; rewrite Hl.
  split; [|lia].
  apply Z.div_str_pos; split; [lia|].
  eapply Z.le_trans; [|exact Hb].
  apply Z.pow_le_mono_r; unfold emin, prec in *; lia.
Qed.

Lemma round_nearest_even_ge m l : m <= round_nearest_even m l.
Proof. destruct l as [|[]]; simpl; try lia. destruct (Z.even m); lia. Qed.

Lemma binary_round_aux_nonzero sx mx ex lx s :
  0 < mx -> emin prec emax <= ex ->
  binary_round_aux prec emax sx mx ex lx <> S754_zero s.
Proof.
  intros Hm He; unfold binary_round_aux.
  destruct (shr_fexp_pos mx ex lx Hm He) as [H1 H1e].
  destruct (shr_fexp prec emax mx ex lx) as [mrs' e'] eqn:E1; simpl in H1, H1e.
  set (m2 := round_nearest_even (shr_m mrs') (loc_of_shr_record mrs')).
  assert (Hm2 : 0 < m2) by (pose proof (round_nearest_even_ge (shr_m mrs') (loc_of_shr_record mrs')); lia).
  destruct (shr_fexp_pos m2 e' loc_Exact Hm2 H1e) as [H2 _].
  destruct (shr_fexp prec emax m2 e' loc_Exact) as [mrs'' e''] eqn:E2; simpl in H2.
  destruct (shr_m mrs'') as [|m|m]; try lia.
  destruct (_ <=? _); discriminate.
Qed.

Lemma binary_normalize_pos_nonzero p s :
  binary_normalize prec emax (Zpos p) 0 false <> S754_zero s.
Proof.
  simpl; unfold binary_round, shl_align.
  destruct (fexp prec emax (Zpos (digits2_pos p) + 0) - 0) as [|d|d] eqn:Ed;
    apply binary_round_aux_nonzero; try lia;
    unfold fexp, emin, prec, emax in *; simpl; lia.
Qed.

(** ** The Python primitives *)

Lemma bind_ok_or_overflow {A B} (P : A -> Prop) (Q : B -> Prop) m (k : A -> pyres B) :
  ok_or_overflow P m -> (forall a, P a -> ok_or_overflow Q (k a)) ->
  ok_or_overflow Q (bind m k).
Proof. destruct m; simpl; auto. Qed.

Lemma py_float_of_int_spec z :
  ok_or_overflow (fun f => finite_f f /\ sgn_ok (z <? 0) f) (py_float_of_int z).
Proof.
  unfold py_float_of_int.
  pose proof (binary_normalize_sgn z 0) as H.
  destruct (binary_normalize prec emax z 0 false); simpl in *; tauto.
Qed.

Lemma py_float_of_int_pos z f :
  0 < z -> py_float_of_int z = Ok f -> exists m e, f = S754_finite false m e.
Proof.
  intros Hz Hf.
  pose proof (py_float_of_int_spec z) as H; rewrite Hf in H; simpl in H.
  destruct H as [Hfin Hs].
  replace (z <? 0) with false in Hs by (symmetry; apply Z.ltb_ge; lia).
  destruct z as [|p|p]; try lia.
  unfold py_float_of_int in Hf.
  pose proof (binary_normalize_pos_nonzero p false) as Hnz.
  destruct f as [s|s| |s m e]; simpl in Hfin, Hs; try contradiction; subst.
  - destruct (binary_normalize prec emax (Zpos p) 0 false); try discriminate;
      inversion Hf; subst; contradiction.
  - eauto.
Qed.

Lemma py_int_truediv_spec a b :
  b <> 0 ->
  ok_or_overflow (fun f => finite_f f /\ (0 <= a -> 0 < b -> sgn_ok false f))
    (py_int_truediv a b).
Proof.
  intros Hb; unfold py_int_truediv.
  replace (b =? 0) with false by (symmetry; apply Z.eqb_neq; exact Hb).
  destruct a as [|pa|pa].
  - simpl; split; [exact I|]. intros _ Hb'.
    replace (b <? 0) with false by (symmetry; apply Z.ltb_ge; lia); reflexivity.
  - pose proof (SFdiv_core_binary_nonneg (Z.abs (Zpos pa)) 0 (Z.abs b) 0
                  ltac:(lia) ltac:(lia)) as Hq.
    destruct (SFdiv_core_binary prec emax _ _ _ _) as [[q e] l]; simpl in Hq.
    pose proof (binary_round_aux_sgn (xorb (Zpos pa <? 0) (b <? 0)) q e l Hq) as Hs.
    destruct (binary_round_aux _ _ _ _ _ _); simpl in *; try tauto.
    + split; [exact I|]. intros _ Hb'.
      replace (b <? 0) with false in Hs by (symmetry; apply Z.ltb_ge; lia); exact Hs.
    + split; [exact I|]. intros _ Hb'.
      replace (b <? 0) with false in Hs by (symmetry; apply Z.ltb_ge; lia); exact Hs.
  - pose proof (SFdiv_core_binary_nonneg (Z.abs (Zneg pa)) 0 (Z.abs b) 0
                  ltac:(lia) ltac:(lia)) as Hq.
    destruct (SFdiv_core_binary prec emax _ _ _ _) as [[q e] l]; simpl in Hq.
    pose proof (binary_round_aux_sgn (xorb (Zneg pa <? 0) (b <? 0)) q e l Hq) as Hs.
    destruct (binary_round_aux _ _ _ _ _ _); simpl in *; try tauto;
      split; try exact I; intros H; lia.
Qed.

Lemma py_pow2_spec x :
  not_nan x -> ok_or_overflow (sgn_ok false) (py_pow2 x).
Proof.
  intros [s Hx]; unfold py_pow2.
  destruct x as [sx|sx| |sx m e]; simpl in Hx; try contradiction; simpl; auto.
  pose proof (binary_round_aux_sgn false (Zpos (m * m)) (e + e) loc_Exact ltac:(lia)) as H.
  unfold fmul, SFmul; simpl xorb.
  destruct (binary_round_aux _ _ _ _ _ _); simpl in *; auto.
Qed.

Lemma py_sqrt_nonneg x :
  sgn_ok false x -> exists r, py_sqrt x = Ok r /\ sgn_ok false r.
Proof.
  intros Hx; pose proof (fsqrt_nonneg x Hx) as H; unfold py_sqrt.
  destruct (fsqrt x); simpl in H; try contradiction; eauto.
Qed.

Lemma round_half_even_pos_nonneg m e : 0 <= round_half_even_pos m e.
Proof.
  unfold round_half_even_pos.
  destruct (0 <=? e); [apply Z.shiftl_nonneg; lia|].
  assert (0 <= Z.shiftr (Zpos m) (- e)) by (apply Z.shiftr_nonneg; lia).
  destruct (Z.compare _ _); try destruct (Z.even _); lia.
Qed.

Lemma py_round_spec x :
  not_nan x -> ok_or_overflow (fun n => sgn_ok false x -> 0 <= n) (py_round x).
Proof.
  intros [s Hx]; destruct x as [sx|sx| |sx m e]; simpl in Hx |- *;
    try contradiction; auto.
  - intros; lia.
  - intros ->; apply round_half_even_pos_nonneg.
Qed.

Lemma py_map_spec {A B} (f : A -> pyres B) (P : B -> Prop) l :
  (forall x, In x l -> ok_or_overflow P (f x)) ->
  ok_or_overflow (Forall P) (py_map f l).
Proof.
  induction l as [|x l IH]; intros H; simpl; [constructor|].
  apply bind_ok_or_overflow with (P := P); [apply H; left; reflexivity|].
  intros y Hy.
  apply bind_ok_or_overflow with (P := Forall P); [apply IH; intros; apply H; right; assumption|].
  intros ys Hys; simpl; constructor; assumption.
Qed.

(** ** [round] rounds half to even *)

Lemma rounds_half_even_Z (a : Z) (d : positive) (n : Z) :
  (Z.abs (a - n * Zpos d) * 2 < Zpos d \/
   (Z.abs (a - n * Zpos d) * 2 = Zpos d /\ Z.even n = true)) ->
  rounds_half_even (a # d) n.
Proof.
  intros H; unfold rounds_half_even.
  assert (E : ((a # d) - inject_Z n == (a - n * Zpos d) # d)%Q).
  { unfold Qeq, Qminus, Qplus, Qopp, inject_Z; simpl.
    rewrite Pos2Z.inj_mul. ring. }
  rewrite E; unfold Qabs, Qlt, Qeq; simpl.
  destruct H as [H|[H He]]; [left; lia|right; split; [lia|exact He]].
Qed.

Lemma round_half_even_pos_spec m e :
  rounds_half_even (fvalue (S754_finite false m e)) (round_half_even_pos m e).
Proof.
  unfold fvalue, round_half_even_pos.
  destruct e as [|pe|pe].
  - simpl; rewrite Pos.mul_1_r.
    replace (inject_Z (Zpos m)) with (Zpos m # 1) by reflexivity.
    apply rounds_half_even_Z; left; lia.
  - rewrite (proj2 (Z.leb_le 0 (Zpos pe)) ltac:(lia)).
    rewrite Z.shiftl_mul_pow2 by lia.
    replace (inject_Z (Zpos m * 2 ^ Zpos pe)) with ((Zpos m * 2 ^ Zpos pe) # 1) by reflexivity.
    apply rounds_half_even_Z; left; lia.
  - rewrite (proj2 (Z.leb_gt 0 (Zneg pe)) ltac:(lia)); cbv zeta.
    replace (- Zneg pe) with (Zpos pe) by reflexivity.
    rewrite Z.shiftr_div_pow2, Z.shiftl_mul_pow2, Z.shiftl_mul_pow2 by lia.
    apply rounds_half_even_Z.
    rewrite Pos2Z.inj_pow.
    set (D := 2 ^ Zpos pe).
    assert (HD : 2 ^ (Zpos pe - 1) * 2 = D).
    { subst D. replace (Zpos pe) with (Zpos pe - 1 + 1) at 2 by lia.
      rewrite Z.pow_add_r by lia. ring. }
    assert (HDpos : 0 < D) by (subst D; apply Z.pow_pos_nonneg; lia).
    rewrite Z.mul_1_l.
    pose proof (Z.div_mod (Zpos m) D ltac:(lia)) as Hdm.
    pose proof (Z.mod_pos_bound (Zpos m) D HDpos) as Hr.
    set (q := Zpos m / D) in *.
    replace (Zpos m - q * D) with (Zpos m mod D) by lia.
    set (r := Zpos m mod D) in *.
    destruct (Z.compare_spec r (2 ^ (Zpos pe - 1))) as [Hc|Hc|Hc].
    + destruct (Z.even q) eqn:Hq.
      * right; split; [|exact Hq]. rewrite Z.abs_eq by lia. lia.
      * right; split.
        -- rewrite Z.abs_neq by lia. lia.
        -- rewrite Z.even_add, Hq; reflexivity.
    + left; rewrite Z.abs_eq by lia; lia.
    + left; rewrite Z.abs_neq by lia; lia.
Qed.

Lemma py_round_half_even x n :
  py_round x = Ok n -> rounds_half_even (fvalue x) n.
Proof.
  intros H; destruct x as [s|s| |s m e]; simpl in H; inversion H; subst.
  - replace (fvalue (S754_zero s)) with (0 # 1) by reflexivity.
    apply rounds_half_even_Z; left; lia.
  - pose proof (round_half_even_pos_spec m e) as Hp.
    destruct s; [|exact Hp].
    change (fvalue (S754_finite true m e)) with (- fvalue (S754_finite false m e))%Q.
    unfold rounds_half_even in *.
    set (v := fvalue (S754_finite false m e)) in *.
    set (r := round_half_even_pos m e) in *.
    cbv beta iota.
    assert (E : (- v - inject_Z (- r) == - (v - inject_Z r))%Q).
    { unfold inject_Z, Qeq, Qminus, Qplus, Qopp; simpl. ring. }
    rewrite E, Qabs_opp, Z.even_opp; exact Hp.
Qed.

(** ** The stages of [forecast] *)

Lemma ok_or_overflow_weaken {A} (P Q : A -> Prop) r :
  (forall a, P a -> Q a) -> ok_or_overflow P r -> ok_or_overflow Q r.
Proof. destruct r; simpl; auto. Qed.

Lemma py_sum_ints_nonneg data :
  Forall (fun x => 0 <= x) data -> 0 <= py_sum_ints data.
Proof.
  unfold py_sum_ints.
  assert (G : forall acc, 0 <= acc -> Forall (fun x => 0 <= x) data ->
            0 <= fold_left Z.add data acc).
  { induction data as [|x l IH]; intros acc Hacc H; simpl; auto.
    inversion H; subst; apply IH; auto; lia. }
  intros H; apply G; [lia|exact H].
Qed.

Lemma py_len_pos {A} (data : list A) : data <> [] -> 0 < py_len data.
Proof. destruct data; [congruence|]. unfold py_len; simpl; lia. Qed.

Lemma forecast_avg_spec data :
  data <> [] ->
  ok_or_overflow (fun avg => finite_f avg /\
                    (Forall (fun x => 0 <= x) data -> sgn_ok false avg))
    (forecast_avg data).
Proof.
  intros Hne; unfold forecast_avg.
  pose proof (py_len_pos data Hne) as Hl.
  eapply ok_or_overflow_weaken; [|apply py_int_truediv_spec; lia].
  intros f [Hf Hs]; split; [exact Hf|].
  intros H; apply Hs; [apply py_sum_ints_nonneg; exact H|exact Hl].
Qed.

Lemma float_of_small_lead_time :
  float_of_small lead_time_days = S754_finite false 7881299347898368 (-50).
Proof. vm_compute. reflexivity. Qed.

Lemma float_of_small_14 : float_of_small 14 = S754_finite false 7881299347898368 (-49).
Proof. vm_compute. reflexivity. Qed.

Lemma py_round_finite x n : py_round x = Ok n -> finite_f x.
Proof. destruct x; simpl; intros H; try discriminate; exact I. Qed.

(** What a response of [forecast_on] is made of. *)
Lemma forecast_on_ok s data r :
  forecast_on s data = Ok r ->
  exists avg sd r1 fs r3,
    forecast_avg data = Ok avg /\
    forecast_stddev data avg = Ok sd /\
    py_round sd = Ok r1 /\
    safety_stock r = Z.max 2 r1 /\
    py_float_of_int (safety_stock r) = Ok fs /\
    py_round (fadd (fmul avg (float_of_small lead_time_days)) fs) = Ok (reorder_point r) /\
    py_round (fmul avg (float_of_small 14)) = Ok r3 /\
    recommended_reorder_qty r = Z.max 5 r3 /\
    resp_sku r = s.
Proof.
  unfold forecast_on.
  destruct (forecast_avg data) as [avg|e] eqn:E0; cbn [bind]; [|discriminate].
  destruct (forecast_stddev data avg) as [sd|e] eqn:E5; cbn [bind]; [|discriminate].
  destruct (py_round sd) as [r1|e] eqn:E1; cbn [bind]; [|discriminate].
  destruct (py_float_of_int (Z.max 2 r1)) as [fs|e] eqn:E2; cbn [bind]; [|discriminate].
  destruct (py_round (fadd _ fs)) as [rp|e] eqn:E3; cbn [bind]; [|discriminate].
  destruct (py_round (fmul avg _)) as [r3|e] eqn:E4; cbn [bind]; [|discriminate].
  intros H; inversion H; subst.
  cbn [safety_stock reorder_point recommended_reorder_qty resp_sku].
  exists avg, sd, r1, fs, r3; repeat split; assumption.
Qed.

Lemma forecast_data_nonempty rs req :
  valid_random_sample rs -> forecast_data rs req <> [].
Proof.
  intros [Hl _]; unfold forecast_data.
  destruct (last_30d_consumption req); [|discriminate].
  intros ->; discriminate.
Qed.

Lemma forecast_data_nonneg rs req :
  valid_random_sample rs -> Forall (fun x => 0 <= x) (last_30d_consumption req) ->
  Forall (fun x => 0 <= x) (forecast_data rs req).
Proof.
  intros [_ Hrs] H; unfold forecast_data.
  destruct (last_30d_consumption req); [|exact H].
  eapply Forall_impl; [|exact Hrs]; simpl; lia.
Qed.

(** ** Magnitude bounds of rounded results *)

Lemma Zdigits2_lt m : 0 <= m -> m < 2 ^ Zdigits2 m.
Proof.
  intros Hm; destruct m as [|p|p]; [reflexivity| |lia].
  cbn [Zdigits2].
  induction p as [p IH|p IH|]; [rewrite (Pos2Z.inj_xI p)|rewrite (Pos2Z.inj_xO p)|reflexivity];
    cbn [digits2_pos];
    replace (Zpos (Pos.succ (digits2_pos p))) with (Zpos (digits2_pos p) + 1) by lia;
    rewrite Z.pow_add_r, Z.pow_1_r by lia; lia.
Qed.

Lemma Zdigits2_le m k : 0 <= m -> m < 2 ^ k -> Zdigits2 m <= k.
Proof.
  intros Hm Hk; destruct m as [|p|p]; [|cbn [Zdigits2]|lia].
  - simpl. destruct (Z.le_gt_cases 0 k); [lia|].
    rewrite Z.pow_neg_r in Hk by lia; lia.
  - pose proof (digits2_pos_bound p) as Hb.
    destruct (Z.le_gt_cases (Zpos (digits2_pos p)) k) as [H|H]; [exact H|].
    assert (2 ^ k <= 2 ^ (Zpos (digits2_pos p) - 1)) by (apply Z.pow_le_mono_r; lia).
    lia.
Qed.

Lemma shr_fexp_bound m e l :
  0 <= m ->
  (0 <= shr_m (fst (shr_fexp prec emax m e l)) < 2 ^ 53) /\
  snd (shr_fexp prec emax m e l) = Z.max e (fexp prec emax (Zdigits2 m + e)).
Proof.
  intros Hm; unfold shr_fexp, shr.
  assert (Hl : shr_m (shr_record_of_loc m l) = m) by (destruct l as [|[]]; reflexivity).
  pose proof (Zdigits2_lt m Hm) as HD.
  unfold fexp in *.
  destruct (Z.max _ _ - e) as [|p|p] eqn:En; cbn [fst snd].
  - rewrite Hl; split; [split; [lia|]|lia].
    eapply Z.lt_le_trans; [exact HD|apply Z.pow_le_mono_r; unfold prec in *; lia].
  - rewrite iter_shr_1_div by lia; rewrite Hl.
    split; [|lia]. split; [apply Z.div_pos; lia|].
    apply Z.div_lt_upper_bound; [lia|].
    rewrite <- Z.pow_add_r by lia.
    eapply Z.lt_le_trans; [exact HD|apply Z.pow_le_mono_r; unfold prec in *; lia].
  - rewrite Hl; split; [split; [lia|]|lia].
    eapply Z.lt_le_trans; [exact HD|apply Z.pow_le_mono_r; unfold prec in *; lia].
Qed.

Lemma round_nearest_even_le m l : round_nearest_even m l <= m + 1.
Proof. destruct l as [|[]]; simpl; try lia. destruct (Z.even m); lia. Qed.

Lemma binary_round_aux_bnd sx mx ex lx k :
  0 <= mx < 2 ^ k ->
  Z.max (Z.max ex (k + ex - 53)) (emin prec emax) + 1 <= emax - prec ->
  bnd (Z.max (Z.max ex (k + ex - 53)) (emin prec emax) + 1)
      (binary_round_aux prec emax sx mx ex lx).
Proof.
  intros Hm HE; unfold binary_round_aux.
  pose proof (Zdigits2_le mx k ltac:(lia) ltac:(lia)) as HDk.
  destruct (shr_fexp_bound mx ex lx ltac:(lia)) as [H1 He1].
  destruct (shr_fexp prec emax mx ex lx) as [mrs' e'] eqn:E1; cbn [fst snd] in H1, He1.
  set (m2 := round_nearest_even (shr_m mrs') (loc_of_shr_record mrs')).
  assert (Hm2 : 0 <= m2 <= 2 ^ 53).
  { pose proof (round_nearest_even_le (shr_m mrs') (loc_of_shr_record mrs')).
    pose proof (round_nearest_even_ge (shr_m mrs') (loc_of_shr_record mrs')). lia. }
  assert (HD2 : Zdigits2 m2 <= 54).
  { apply Zdigits2_le; [lia|]. eapply Z.le_lt_trans; [apply Hm2|].
    apply Z.pow_lt_mono_r; lia. }
  destruct (shr_fexp_bound m2 e' loc_Exact ltac:(lia)) as [H2 He2].
  destruct (shr_fexp prec emax m2 e' loc_Exact) as [mrs'' e''] eqn:E2; cbn [fst snd] in H2, He2.
  unfold fexp, emin, prec, emax in *.
  destruct (shr_m mrs'') as [|m|m]; [exact I| |lia].
  rewrite (proj2 (Z.leb_le e'' (1024 - 53))) by lia.
  simpl; split; lia.
Qed.

Lemma bnd_mono E E' f : E <= E' -> bnd E f -> bnd E' f.
Proof. destruct f; simpl; intuition lia. Qed.

Lemma binary_round_aux_bnd_le sx mx ex lx k E :
  0 <= mx < 2 ^ k ->
  Z.max (Z.max ex (k + ex - 53)) (emin prec emax) + 1 <= E -> E <= emax - prec ->
  bnd E (binary_round_aux prec emax sx mx ex lx).
Proof.
  intros Hm H1 H2; eapply bnd_mono; [exact H1|].
  apply binary_round_aux_bnd; lia.
Qed.

Lemma pow2_k_nonneg m k : 0 < m -> m < 2 ^ k -> 0 <= k.
Proof.
  intros H0 H; destruct (Z.le_gt_cases 0 k); [lia|].
  rewrite Z.pow_neg_r in H by lia; lia.
Qed.

Lemma iter_xO_mul m d : Zpos (Pos.iter xO m d) = Zpos m * 2 ^ Zpos d.
Proof.
  induction d as [|d IH] using Pos.peano_ind.
  - cbn [Pos.iter]; rewrite (Pos2Z.inj_xO m), Z.pow_1_r; ring.
  - rewrite Pos.iter_succ, Pos2Z.inj_succ, Z.pow_succ_r by lia.
    rewrite (Pos2Z.inj_xO (Pos.iter xO m d)), IH; ring.
Qed.

Lemma shl_align_fst mx ex ez :
  ez <= ex -> Zpos (fst (shl_align mx ex ez)) = Zpos mx * 2 ^ (ex - ez).
Proof.
  intros H; unfold shl_align.
  destruct (ez - ex) as [|d|d] eqn:Ed; cbn [fst].
  - replace (ex - ez) with 0 by lia; ring.
  - lia.
  - rewrite iter_xO_mul; replace (ex - ez) with (Zpos d) by lia; reflexivity.
Qed.

Lemma binary_round_bnd sx mx ex k E :
  Zpos mx < 2 ^ k ->
  Z.max (Z.max ex (k + ex - 53)) (emin prec emax) + 1 <= E -> E <= emax - prec ->
  bnd E (binary_round prec emax sx mx ex).
Proof.
  intros Hm H1 H2; pose proof (pow2_k_nonneg (Zpos mx) k ltac:(lia) Hm) as Hk.
  unfold binary_round.
  set (f := fexp prec emax (Zpos (digits2_pos mx) + ex)).
  destruct (Z.le_gt_cases ex f) as [Hf|Hf].
  - unfold shl_align; destruct (f - ex) as [|d|d] eqn:Ed; try lia;
      apply (binary_round_aux_bnd_le _ _ _ _ k); lia.
  - pose proof (shl_align_fst mx ex f ltac:(lia)) as Hs.
    assert (Hez : snd (shl_align mx ex f) = f).
    { unfold shl_align; destruct (f - ex) eqn:?; try lia; reflexivity. }
    destruct (shl_align mx ex f) as [mz ez]; cbn [fst snd] in Hs, Hez; subst ez.
    apply (binary_round_aux_bnd_le _ _ _ _ (k + (ex - f))); [|lia|lia].
    rewrite Hs, Z.pow_add_r by lia. split; [lia|].
    apply Z.mul_lt_mono_pos_r; [apply Z.pow_pos_nonneg; lia|exact Hm].
Qed.

Lemma binary_normalize_bnd m e k E :
  Z.abs m < 2 ^ k ->
  Z.max (Z.max e (k + e - 53)) (emin prec emax) + 1 <= E -> E <= emax - prec ->
  bnd E (binary_normalize prec emax m e false).
Proof.
  intros Hm H1 H2; unfold binary_normalize.
  destruct m as [|p|p]; [exact I| |]; apply (binary_round_bnd _ _ _ k); lia.
Qed.

Lemma shl_align_bound m ex ez E :
  Zpos m < 2 ^ 53 -> ez <= ex -> ex <= E ->
  Zpos (fst (shl_align m ex ez)) < 2 ^ 53 * 2 ^ (E - ez).
Proof.
  intros Hm H1 H2; rewrite shl_align_fst by lia.
  assert (2 ^ (ex - ez) <= 2 ^ (E - ez)) by (apply Z.pow_le_mono_r; lia).
  assert (0 < 2 ^ (ex - ez)) by (apply Z.pow_pos_nonneg; lia).
  nia.
Qed.

Lemma cond_Zopp_abs b m : Z.abs (cond_Zopp b m) = Z.abs m.
Proof. destruct b; simpl; lia. Qed.

Ltac destruct_conj :=
  repeat match goal with H : _ /\ _ |- _ => destruct H end.

Lemma fadd_bnd E x y :
  bnd E x -> bnd E y -> emin prec emax <= E -> E + 2 <= emax - prec ->
  bnd (E + 2) (fadd x y).
Proof.
  intros Hx Hy H1 H2; unfold fadd, SFadd.
  destruct x as [sx|sx| |sx mx ex]; destruct y as [sy|sy| |sy my ey];
    simpl in Hx, Hy; try contradiction; destruct_conj.
  - destruct sx, sy; exact I.
  - simpl; split; lia.
  - simpl; split; lia.
  - apply (binary_normalize_bnd _ _ (1 + 53 + (E - Z.min ex ey))); [|lia|lia].
    pose proof (shl_align_bound mx ex (Z.min ex ey) E ltac:(lia) ltac:(lia) ltac:(lia)).
    pose proof (shl_align_bound my ey (Z.min ex ey) E ltac:(lia) ltac:(lia) ltac:(lia)).
    rewrite !Z.pow_add_r, Z.pow_1_r by lia.
    destruct sx, sy; cbn [cond_Zopp]; lia.
Qed.

Lemma fsub_bnd E x y :
  bnd E x -> bnd E y -> emin prec emax <= E -> E + 2 <= emax - prec ->
  bnd (E + 2) (fsub x y).
Proof.
  intros Hx Hy H1 H2; unfold fsub, SFsub.
  destruct x as [sx|sx| |sx mx ex]; destruct y as [sy|sy| |sy my ey];
    simpl in Hx, Hy; try contradiction; destruct_conj.
  - destruct sx, sy; exact I.
  - simpl; split; lia.
  - simpl; split; lia.
  - apply (binary_normalize_bnd _ _ (1 + 53 + (E - Z.min ex ey))); [|lia|lia].
    pose proof (shl_align_bound mx ex (Z.min ex ey) E ltac:(lia) ltac:(lia) ltac:(lia)).
    pose proof (shl_align_bound my ey (Z.min ex ey) E ltac:(lia) ltac:(lia) ltac:(lia)).
    rewrite !Z.pow_add_r, Z.pow_1_r by lia.
    destruct sx, sy; cbn [cond_Zopp]; lia.
Qed.

Lemma fmul_bnd E1 E2 E x y :
  bnd E1 x -> bnd E2 y -> Z.max (E1 + E2 + 53) (emin prec emax) + 1 <= E ->
  E <= emax - prec ->
  bnd E (fmul x y).
Proof.
  intros Hx Hy H1 H2; unfold fmul, SFmul.
  destruct x as [sx|sx| |sx mx ex]; destruct y as [sy|sy| |sy my ey];
    simpl in Hx, Hy; try contradiction; destruct_conj; try exact I.
  apply (binary_round_aux_bnd_le _ _ _ _ 106); [|lia|lia].
  rewrite Pos2Z.inj_mul; split; [lia|].
  change (2 ^ 106) with (2 ^ 53 * 2 ^ 53).
  apply Z.mul_lt_mono_nonneg; lia.
Qed.

Lemma SFdiv_core_bnd sx m1 e1 m2 e2 k E :
  0 <= m1 < 2 ^ k -> 0 < m2 ->
  Z.max (Z.max (e1 - e2) (k + e1 - e2 - 53)) (emin prec emax) + 1 <= E ->
  E <= emax - prec ->
  bnd E (let '(q, e, l) := SFdiv_core_binary prec emax m1 e1 m2 e2 in
         binary_round_aux prec emax sx q e l).
Proof.
  intros Hm1 Hm2 H1 H2.
  assert (Hk : 0 <= k).
  { destruct (Z.le_gt_cases 0 k); [lia|]. rewrite Z.pow_neg_r in Hm1 by lia; lia. }
  unfold SFdiv_core_binary; cbv zeta.
  set (e' := Z.min _ (e1 - e2)).
  assert (He' : e' <= e1 - e2) by (subst e'; lia).
  set (m' := match e1 - e2 - e' with Zpos _ => _ | Z0 => m1 | Zneg _ => 0 end).
  assert (Hm' : 0 <= m' < 2 ^ (k + (e1 - e2 - e'))).
  { subst m'; destruct (e1 - e2 - e') as [|p|p] eqn:Es; try lia.
    - rewrite Z.add_0_r; lia.
    - rewrite Z.shiftl_mul_pow2, Z.pow_add_r by lia.
      assert (0 < 2 ^ Zpos p) by (apply Z.pow_pos_nonneg; lia). nia. }
  pose proof (Z_div_mod m' m2 ltac:(lia)) as Hd.
  destruct (Z.div_eucl m' m2) as [q r]; destruct Hd as [Heq Hr].
  apply (binary_round_aux_bnd_le _ _ _ _ (k + (e1 - e2 - e'))); [nia|lia|lia].
Qed.

Lemma fdiv_bnd E1 E x sy my ey :
  bnd E1 x -> Z.max (E1 - ey) (emin prec emax) + 1 <= E -> E <= emax - prec ->
  bnd E (fdiv x (S754_finite sy my ey)).
Proof.
  intros Hx H1 H2; unfold fdiv, SFdiv.
  destruct x as [sx|sx| |sx mx ex]; simpl in Hx; try contradiction; [exact I|].
  destruct_conj.
  apply (SFdiv_core_bnd _ _ _ _ _ 53); lia.
Qed.

Lemma fsqrt_bnd E x :
  bnd E x -> sgn_ok false x -> 0 <= E -> E + 1 <= emax - prec ->
  bnd (E + 1) (fsqrt x).
Proof.
  intros Hx Hs H0 H1; unfold fsqrt, SFsqrt.
  destruct x as [sx|sx| |sx mx ex]; simpl in Hx, Hs; try contradiction; subst;
    [exact I|destruct_conj].
  unfold SFsqrt_core_binary; cbv zeta.
  set (e' := Z.min _ (Z.div2 ex)).
  assert (He' : e' <= ex / 2) by (subst e'; rewrite <- Z.div2_div; lia).
  set (m' := match ex - 2 * e' with Zpos _ => _ | Z0 => _ | Zneg _ => 0 end).
  assert (Hs : 0 <= ex - 2 * e') by (Z.div_mod_to_equations; lia).
  assert (Hm' : 0 <= m' < 2 ^ (53 + (ex - 2 * e'))).
  { subst m'; destruct (ex - 2 * e') as [|p|p] eqn:Es; [lia| |lia].
    rewrite Z.shiftl_mul_pow2, Z.pow_add_r by lia.
    assert (0 < 2 ^ Zpos p) by (apply Z.pow_pos_nonneg; lia). nia. }
  pose proof (Z.sqrtrem_spec m' ltac:(lia)) as Hq.
  destruct (Z.sqrtrem m') as [q r]; destruct Hq as [Heq Hr].
  set (K := (54 + (ex - 2 * e')) / 2).
  assert (HK : 53 + (ex - 2 * e') <= K + K) by (subst K; Z.div_mod_to_equations; lia).
  assert (HqK : q < 2 ^ K).
  { destruct (Z.lt_ge_cases q (2 ^ K)) as [h|h]; [exact h|].
    assert (2 ^ (53 + (ex - 2 * e')) <= 2 ^ K * 2 ^ K)
      by (rewrite <- Z.pow_add_r by lia; apply Z.pow_le_mono_r; lia).
    assert (2 ^ K * 2 ^ K <= q * q)
      by (apply Z.mul_le_mono_nonneg; try lia; apply Z.pow_nonneg; lia).
    lia. }
  apply (binary_round_aux_bnd_le _ _ _ _ K); [nia| |lia].
  subst K; unfold emin, prec, emax; Z.div_mod_to_equations; lia.
Qed.

(** ** The Python primitives on bounded arguments *)

Lemma py_float_of_int_bnd z k :
  Z.abs z < 2 ^ k -> Z.max 0 (k - 53) + 1 <= emax - prec ->
  exists f, py_float_of_int z = Ok f /\ bnd (Z.max 0 (k - 53) + 1) f.
Proof.
  intros Hz H; unfold py_float_of_int.
  pose proof (binary_normalize_bnd z 0 k (Z.max 0 (k - 53) + 1) Hz
                ltac:(unfold emin, prec, emax; lia) H) as Hb.
  destruct (binary_normalize prec emax z 0 false); simpl in Hb; try contradiction;
    eexists; (split; [reflexivity|exact Hb]).
Qed.

Lemma binary_round_aux_exp sx mx ex lx s m e :
  0 <= mx -> binary_round_aux prec emax sx mx ex lx = S754_finite s m e -> ex <= e.
Proof.
  intros Hm H; unfold binary_round_aux in H.
  destruct (shr_fexp_bound mx ex lx Hm) as [H1 He1].
  destruct (shr_fexp prec emax mx ex lx) as [mrs' e'] eqn:E1; cbn [fst snd] in H1, He1.
  set (m2 := round_nearest_even (shr_m mrs') (loc_of_shr_record mrs')) in H.
  assert (Hm2 : 0 <= m2) by (apply round_nearest_even_nonneg; lia).
  destruct (shr_fexp_bound m2 e' loc_Exact Hm2) as [H2 He2].
  destruct (shr_fexp prec emax m2 e' loc_Exact) as [mrs'' e''] eqn:E2; cbn [fst snd] in H2, He2.
  destruct (shr_m mrs''); try discriminate.
  destruct (e'' <=? emax - prec); inversion H; subst; lia.
Qed.

(** [float(n)] of a positive int has an exponent of at least [-52]. *)
Lemma py_float_of_int_exp p s m e :
  py_float_of_int (Zpos p) = Ok (S754_finite s m e) -> -52 <= e.
Proof.
  unfold py_float_of_int; intros H.
  destruct (binary_normalize prec emax (Zpos p) 0 false) eqn:Eb; try discriminate.
  inversion H; subst; clear H.
  unfold binary_normalize, binary_round, shl_align in Eb.
  set (f := fexp prec emax (Zpos (digits2_pos p) + 0)) in Eb.
  assert (Hf : Zpos (digits2_pos p) - 53 <= f) by (subst f; unfold fexp, emin, prec, emax; lia).
  destruct (f - 0) as [|d|d] eqn:Ed; cbv beta iota in Eb;
    apply binary_round_aux_exp in Eb; lia.
Qed.

Lemma py_int_truediv_bnd a b k :
  Z.abs a < 2 ^ k -> b <> 0 -> Z.max 0 (k - 53) + 1 <= emax - prec ->
  exists f, py_int_truediv a b = Ok f /\ bnd (Z.max 0 (k - 53) + 1) f.
Proof.
  intros Ha Hb H; unfold py_int_truediv.
  replace (b =? 0) with false by (symmetry; apply Z.eqb_neq; exact Hb).
  destruct a as [|pa|pa]; [eexists; split; [reflexivity|exact I]| |].
  - pose proof (SFdiv_core_bnd (xorb (Zpos pa <? 0) (b <? 0)) (Z.abs (Zpos pa)) 0
                  (Z.abs b) 0 k (Z.max 0 (k - 53) + 1)) as Hq.
    destruct (SFdiv_core_binary prec emax _ _ _ _) as [[q e] l].
    specialize (Hq ltac:(lia) ltac:(lia) ltac:(unfold emin, prec, emax; lia) H).
    destruct (binary_round_aux _ _ _ _ _ _); simpl in Hq; try contradiction;
      eexists; (split; [reflexivity|exact Hq]).
  - pose proof (SFdiv_core_bnd (xorb (Zneg pa <? 0) (b <? 0)) (Z.abs (Zneg pa)) 0
                  (Z.abs b) 0 k (Z.max 0 (k - 53) + 1)) as Hq.
    destruct (SFdiv_core_binary prec emax _ _ _ _) as [[q e] l].
    specialize (Hq ltac:(lia) ltac:(lia) ltac:(unfold emin, prec, emax; lia) H).
    destruct (binary_round_aux _ _ _ _ _ _); simpl in Hq; try contradiction;
      eexists; (split; [reflexivity|exact Hq]).
Qed.

Lemma py_pow2_bnd E E' x :
  bnd E x -> Z.max (E + E + 53) (emin prec emax) + 1 <= E' -> E' <= emax - prec ->
  exists f, py_pow2 x = Ok f /\ bnd E' f.
Proof.
  intros Hx H1 H2; unfold py_pow2.
  destruct x as [sx|sx| |sx m e]; simpl in Hx; try contradiction.
  - eexists; split; [reflexivity|exact I].
  - pose proof (fmul_bnd E E E' (S754_finite false m e) (S754_finite false m e)
                  Hx Hx H1 H2) as Hb.
    destruct (fmul _ _); simpl in Hb; try contradiction;
      eexists; (split; [reflexivity|exact Hb]).
Qed.

Lemma py_sqrt_bnd E x :
  bnd E x -> sgn_ok false x -> 0 <= E -> E + 1 <= emax - prec ->
  exists f, py_sqrt x = Ok f /\ bnd (E + 1) f.
Proof.
  intros Hx Hs H0 H1; pose proof (fsqrt_bnd E x Hx Hs H0 H1) as Hb; unfold py_sqrt.
  destruct (fsqrt x); simpl in Hb; try contradiction;
    eexists; (split; [reflexivity|exact Hb]).
Qed.

Lemma round_half_even_pos_le m e :
  Zpos m < 2 ^ 53 -> round_half_even_pos m e <= 2 ^ 53 * 2 ^ Z.max 0 e.
Proof.
  intros Hm; unfold round_half_even_pos.
  destruct (0 <=? e) eqn:He.
  - apply Z.leb_le in He.
    rewrite Z.shiftl_mul_pow2, Z.max_r by lia.
    assert (0 < 2 ^ e) by (apply Z.pow_pos_nonneg; lia). nia.
  - apply Z.leb_gt in He.
    rewrite Z.max_l, Z.pow_0_r, Z.mul_1_r by lia.
    rewrite Z.shiftr_div_pow2 by lia.
    assert (2 <= 2 ^ (- e)) by (apply (Z.pow_le_mono_r 2 1); lia).
    assert (Zpos m / 2 ^ (- e) <= Zpos m / 2) by (apply Z.div_le_compat_l; lia).
    assert (Zpos m / 2 < 2 ^ 52) by (apply Z.div_lt_upper_bound; [lia|]; exact Hm).
    destruct (Z.compare _ _); try destruct (Z.even _); lia.
Qed.

Lemma py_round_bnd E x :
  bnd E x -> 0 <= E -> exists n, py_round x = Ok n /\ Z.abs n <= 2 ^ (53 + E).
Proof.
  intros Hx HE; destruct x as [s|s| |s m e]; simpl in Hx; try contradiction.
  - exists 0; split; [reflexivity|]. assert (0 < 2 ^ (53 + E)) by (apply Z.pow_pos_nonneg; lia).
    lia.
  - destruct Hx as [Hm He]; eexists; split; [reflexivity|].
    pose proof (round_half_even_pos_le m e Hm).
    pose proof (round_half_even_pos_nonneg m e).
    assert (2 ^ 53 * 2 ^ Z.max 0 e <= 2 ^ 53 * 2 ^ E)
      by (apply Z.mul_le_mono_nonneg_l; [lia|apply Z.pow_le_mono_r; lia]).
    rewrite Z.pow_add_r by lia.
    destruct s; lia.
Qed.

Lemma py_map_ok {A B} (f : A -> pyres B) (P : B -> Prop) l :
  (forall x, In x l -> exists y, f x = Ok y /\ P y) ->
  exists ys, py_map f l = Ok ys /\ Forall P ys /\ List.length ys = List.length l.
Proof.
  induction l as [|x l IH]; intros H.
  - exists []; split; [reflexivity|split; [constructor|reflexivity]].
  - destruct (H x (or_introl eq_refl)) as (y & Hy & Py).
    destruct IH as (ys & Hys & Pys & Lys); [intros; apply H; right; assumption|].
    exists (y :: ys); cbn [py_map]; rewrite Hy; cbn [bind]; rewrite Hys; cbn [bind].
    split; [reflexivity|split; [constructor; assumption|cbn [List.length]; congruence]].
Qed.

Lemma py_sum_ints_abs data B :
  Forall (fun x => Z.abs x <= B) data ->
  Z.abs (py_sum_ints data) <= Z.of_nat (List.length data) * B.
Proof.
  unfold py_sum_ints.
  assert (G : forall acc, Forall (fun x => Z.abs x <= B) data ->
            Z.abs (fold_left Z.add data acc) <= Z.abs acc + Z.of_nat (List.length data) * B).
  { induction data as [|x l IH]; intros acc H; cbn [fold_left List.length]; [lia|].
    inversion H; subst. specialize (IH (acc + x) ltac:(assumption)).
    rewrite Nat2Z.inj_succ, Z.mul_succ_l; lia. }
  intros H; specialize (G 0 H); simpl in G; lia.
Qed.

(** ** Values of rounded results *)

Lemma Zdigits2_lb m : 0 < m -> 2 ^ (Zdigits2 m - 1) <= m.
Proof.
  intros Hm; destruct m as [|p|p]; try lia; apply digits2_pos_bound.
Qed.

Lemma Zdigits2_char m d : 0 < m -> 2 ^ (d - 1) <= m < 2 ^ d -> Zdigits2 m = d.
Proof.
  intros Hm [H1 H2].
  pose proof (Zdigits2_le m d ltac:(lia) H2) as Hle.
  pose proof (Zdigits2_lt m ltac:(lia)) as Hlt.
  destruct (Z.eq_dec (Zdigits2 m) d) as [E|E]; [exact E|].
  assert (Zdigits2 m <= d - 1) by lia.
  assert (0 <= Zdigits2 m) by (destruct m; simpl; lia).
  assert (2 ^ Zdigits2 m <= 2 ^ (d - 1)) by (apply Z.pow_le_mono_r; lia).
  lia.
Qed.

Lemma Zdigits2_mul_pow m k : 0 < m -> 0 <= k -> Zdigits2 (m * 2 ^ k) = Zdigits2 m + k.
Proof.
  intros Hm Hk; apply Zdigits2_char; [apply Z.mul_pos_pos; [lia|apply Z.pow_pos_nonneg; lia]|].
  pose proof (Zdigits2_lb m Hm); pose proof (Zdigits2_lt m ltac:(lia)).
  assert (1 <= Zdigits2 m) by (destruct m; simpl; lia).
  replace (Zdigits2 m + k - 1) with ((Zdigits2 m - 1) + k) by lia.
  rewrite !Z.pow_add_r by lia.
  assert (0 < 2 ^ k) by (apply Z.pow_pos_nonneg; lia).
  split; nia.
Qed.

Lemma iter_pos_nat {A} (f : A -> A) p x : iter_pos f p x = Nat.iter (Pos.to_nat p) f x.
Proof.
  revert x; induction p as [p IH|p IH|]; intros x; cbn [iter_pos].
  - rewrite IH, IH, Pos2Nat.inj_xI.
    replace (S (2 * Pos.to_nat p)) with (Pos.to_nat p + (Pos.to_nat p + 1))%nat by lia.
    rewrite !Nat.iter_add; reflexivity.
  - rewrite IH, IH, Pos2Nat.inj_xO.
    replace (2 * Pos.to_nat p)%nat with (Pos.to_nat p + Pos.to_nat p)%nat by lia.
    rewrite Nat.iter_add; reflexivity.
  - reflexivity.
Qed.

Lemma shr_1_spec mrs :
  0 <= shr_m mrs ->
  shr_m (shr_1 mrs) = shr_m mrs / 2 /\
  (shr_r (shr_1 mrs) || shr_s (shr_1 mrs) =
   Z.odd (shr_m mrs) || shr_r mrs || shr_s mrs)%bool.
Proof.
  destruct mrs as [m r s]; simpl; intros H.
  destruct m as [|p|p]; try lia; [split; reflexivity|].
  destruct p as [p|p|]; simpl; split; try reflexivity.
  - rewrite (Pos2Z.inj_xI p); apply Z.div_unique with (r := 1); lia.
  - rewrite (Pos2Z.inj_xO p); apply Z.div_unique with (r := 0); lia.
Qed.

(** Shifting [M] right [k] times keeps the quotient by [2 ^ k] and records
    whether a non-zero bit was shifted out. *)
Lemma iter_shr_1_exact k M :
  0 <= M ->
  shr_m (Nat.iter k shr_1 (Build_shr_record M false false)) = M / 2 ^ Z.of_nat k /\
  (shr_r (Nat.iter k shr_1 (Build_shr_record M false false)) ||
   shr_s (Nat.iter k shr_1 (Build_shr_record M false false)) =
   negb (M mod 2 ^ Z.of_nat k =? 0))%bool.
Proof.
  intros HM; induction k as [|k [IH1 IH2]].
  - simpl; rewrite Z.div_1_r, Z.mod_1_r; split; reflexivity.
  - rewrite !Nat.iter_succ.
    set (r0 := Nat.iter k shr_1 _) in *.
    assert (H0 : 0 <= shr_m r0) by (rewrite IH1; apply Z.div_pos; [lia|apply Z.pow_pos_nonneg; lia]).
    destruct (shr_1_spec r0 H0) as [E1 E2].
    rewrite Nat2Z.inj_succ, Z.pow_succ_r by lia.
    split.
    + rewrite E1, IH1, Z.div_div by (try apply Z.pow_pos_nonneg; lia). f_equal; ring.
    + rewrite E2, <- orb_assoc, IH2, IH1.
      assert (Hp : 0 < 2 ^ Z.of_nat k) by (apply Z.pow_pos_nonneg; lia).
      rewrite (Z.mul_comm 2), Z.rem_mul_r by lia.
      pose proof (Z.mod_pos_bound M (2 ^ Z.of_nat k) Hp).
      pose proof (Z.mod_pos_bound (M / 2 ^ Z.of_nat k) 2 ltac:(lia)).
      rewrite Zmod_odd.
      destruct (Z.odd (M / 2 ^ Z.of_nat k));
        destruct (M mod 2 ^ Z.of_nat k =? 0) eqn:Em;
        destruct (_ =? 0) eqn:Em2; simpl; try reflexivity;
        rewrite ?Z.eqb_eq, ?Z.eqb_neq in Em, Em2; lia.
Qed.

Lemma fexp_ge_emin x : emin prec emax <= fexp prec emax x.
Proof. unfold fexp; lia. Qed.

Lemma shr_fexp_spec M e l :
  0 <= M -> e <= fexp prec emax (Zdigits2 M + e) ->
  shr_m (fst (shr_fexp prec emax M e l)) = M / 2 ^ (fexp prec emax (Zdigits2 M + e) - e) /\
  snd (shr_fexp prec emax M e l) = fexp prec emax (Zdigits2 M + e) /\
  (l = loc_Exact -> M mod 2 ^ (fexp prec emax (Zdigits2 M + e) - e) = 0 ->
   loc_of_shr_record (fst (shr_fexp prec emax M e l)) = loc_Exact).
Proof.
  intros HM He; unfold shr_fexp, shr.
  assert (Hl : shr_m (shr_record_of_loc M l) = M) by (destruct l as [|[]]; reflexivity).
  destruct (fexp prec emax (Zdigits2 M + e) - e) as [|p|p] eqn:Ed; cbn [fst snd].
  - rewrite Hl, Z.pow_0_r, Z.div_1_r; split; [reflexivity|split; [lia|]].
    intros -> _; reflexivity.
  - rewrite iter_shr_1_div by lia; rewrite Hl; split; [reflexivity|split; [lia|]].
    intros -> Hm; cbn [shr_record_of_loc].
    rewrite iter_pos_nat.
    destruct (iter_shr_1_exact (Pos.to_nat p) M HM) as [_ H2].
    rewrite positive_nat_Z, Hm in H2; simpl in H2.
    destruct (Nat.iter _ _ _) as [m r s]; simpl in H2 |- *.
    destruct r, s; try discriminate; reflexivity.
  - lia.
Qed.

Lemma shr_fexp_small n F :
  0 <= n < 2 ^ 53 -> emin prec emax <= F ->
  shr_fexp prec emax n F loc_Exact = (Build_shr_record n false false, F).
Proof.
  intros Hn HF; unfold shr_fexp, shr.
  pose proof (Zdigits2_le n 53 ltac:(lia) ltac:(lia)).
  assert (fexp prec emax (Zdigits2 n + F) - F <= 0) by (unfold fexp, prec in *; lia).
  destruct (fexp prec emax (Zdigits2 n + F) - F) eqn:Ed; try lia; reflexivity.
Qed.

Lemma shr_fexp_top F :
  emin prec emax <= F ->
  shr_fexp prec emax (2 ^ 53) F loc_Exact = (Build_shr_record (2 ^ 52) false false, F + 1).
Proof.
  intros HF; unfold shr_fexp.
  replace (fexp prec emax (Zdigits2 (2 ^ 53) + F) - F) with 1
    by (change (Zdigits2 (2 ^ 53)) with 54; unfold fexp, emin, prec, emax in *; lia).
  reflexivity.
Qed.

(** [binary_round_aux] on a mantissa whose exponent is at most the
    canonical one: the mantissa is cut to [M / 2 ^ k], then rounded to [n]
    (exact when nothing was cut), and [n] is stored at the canonical
    exponent. *)
Lemma binary_round_aux_spec b M e l :
  0 <= M -> e <= fexp prec emax (Zdigits2 M + e) ->
  exists n,
    M / 2 ^ (fexp prec emax (Zdigits2 M + e) - e) <= n <=
      M / 2 ^ (fexp prec emax (Zdigits2 M + e) - e) + 1 /\
    (l = loc_Exact -> M mod 2 ^ (fexp prec emax (Zdigits2 M + e) - e) = 0 ->
     n = M / 2 ^ (fexp prec emax (Zdigits2 M + e) - e)) /\
    binary_round_aux prec emax b M e l = mkf b n (fexp prec emax (Zdigits2 M + e)).
Proof.
  intros HM He.
  set (F := fexp prec emax (Zdigits2 M + e)) in *.
  destruct (shr_fexp_spec M e l HM He) as (E1 & E2 & E3); fold F in E1, E2, E3.
  unfold binary_round_aux.
  destruct (shr_fexp prec emax M e l) as [mrs' e'] eqn:Es; cbn [fst snd] in E1, E2, E3.
  subst e'.
  set (n := round_nearest_even (shr_m mrs') (loc_of_shr_record mrs')).
  exists n.
  assert (Hp : 0 < 2 ^ (F - e)) by (apply Z.pow_pos_nonneg; lia).
  assert (Hq : 0 <= M / 2 ^ (F - e)) by (apply Z.div_pos; lia).
  assert (Hn : M / 2 ^ (F - e) <= n <= M / 2 ^ (F - e) + 1).
  { pose proof (round_nearest_even_ge (shr_m mrs') (loc_of_shr_record mrs')) as G1.
    pose proof (round_nearest_even_le (shr_m mrs') (loc_of_shr_record mrs')) as G2.
    fold n in G1, G2; rewrite E1 in G1, G2; lia. }
  split; [exact Hn|split].
  { intros -> Hm; unfold n; rewrite (E3 eq_refl Hm), E1; reflexivity. }
  assert (Hqb : M / 2 ^ (F - e) < 2 ^ 53).
  { apply Z.div_lt_upper_bound; [exact Hp|].
    pose proof (Zdigits2_lt M HM).
    assert (HF : Zdigits2 M + e - 53 <= F) by (subst F; unfold fexp, prec; lia).
    assert (2 ^ Zdigits2 M <= 2 ^ (F - e) * 2 ^ 53).
    { rewrite <- Z.pow_add_r by lia. apply Z.pow_le_mono_r; [lia|].
      lia. }
    lia. }
  assert (HFe : emin prec emax <= F) by apply fexp_ge_emin.
  destruct (Z.eq_dec n (2 ^ 53)) as [Etop|Etop].
  - rewrite Etop, shr_fexp_top by exact HFe; cbn [shr_m].
    unfold mkf; reflexivity.
  - rewrite shr_fexp_small by lia; cbn [shr_m].
    unfold mkf.
    destruct n as [|pn|pn] eqn:En; try lia; [reflexivity|].
    rewrite (proj2 (Z.eqb_neq (Zpos pn) (2 ^ 53)) Etop); reflexivity.
Qed.

Lemma repr_fin_repr R : repr_fin R -> repr R.
Proof. intros (m & k & H1 & H2 & H3); exists m, k; repeat split; lia. Qed.

Lemma repr_opp R : repr R -> repr (- R).
Proof. intros (m & k & H1 & H2 & H3); exists m, k; rewrite Z.abs_opp; auto. Qed.

Lemma repr_fin_opp R : repr_fin R -> repr_fin (- R).
Proof. intros (m & k & H1 & H2 & H3); exists m, k; rewrite Z.abs_opp; auto. Qed.

(** The rounding of [mz * 2 ^ ez], with [ez] at most the canonical
    exponent, in units of the smallest subnormal. *)
Lemma round_tail b mz ez X s :
  emin prec emax <= ez -> ez <= fexp prec emax (Zdigits2 (Zpos mz) + ez) ->
  X = Zpos mz * 2 ^ (ez - emin prec emax) ->
  s = Z.max (Zdigits2 X - 53) 0 ->
  exists n, X / 2 ^ s <= n <= X / 2 ^ s + 1 /\ (X mod 2 ^ s = 0 -> n = X / 2 ^ s) /\
    binary_round_aux prec emax b (Zpos mz) ez loc_Exact = mkf b n (emin prec emax + s).
Proof.
  intros He Hc HX Hs.
  destruct (binary_round_aux_spec b (Zpos mz) ez loc_Exact ltac:(lia) Hc) as (n & Hn & Hx & Hr).
  set (F := fexp prec emax (Zdigits2 (Zpos mz) + ez)) in *.
  assert (HD : Zdigits2 X = Zdigits2 (Zpos mz) + (ez - emin prec emax))
    by (rewrite HX; apply Zdigits2_mul_pow; lia).
  assert (HsF : s = F - emin prec emax).
  { subst s F; rewrite HD; unfold fexp, emin, prec, emax; lia. }
  assert (Hsplit : 2 ^ s = 2 ^ (F - ez) * 2 ^ (ez - emin prec emax))
    by (rewrite <- Z.pow_add_r by lia; f_equal; lia).
  assert (Hp1 : 0 < 2 ^ (F - ez)) by (apply Z.pow_pos_nonneg; lia).
  assert (Hp2 : 0 < 2 ^ (ez - emin prec emax)) by (apply Z.pow_pos_nonneg; lia).
  assert (Hdiv : X / 2 ^ s = Zpos mz / 2 ^ (F - ez))
    by (rewrite HX, Hsplit; apply Z.div_mul_cancel_r; lia).
  assert (Hmod : X mod 2 ^ s = (Zpos mz mod 2 ^ (F - ez)) * 2 ^ (ez - emin prec emax))
    by (rewrite HX, Hsplit; apply Z.mul_mod_distr_r; lia).
  exists n; rewrite Hdiv; split; [exact Hn|split].
  - intros H0; apply Hx; [reflexivity|]. rewrite Hmod in H0; nia.
  - rewrite Hr; f_equal; lia.
Qed.

Lemma binary_round_scaled b mx ex X s :
  emin prec emax <= ex ->
  X = Zpos mx * 2 ^ (ex - emin prec emax) ->
  s = Z.max (Zdigits2 X - 53) 0 ->
  exists n, X / 2 ^ s <= n <= X / 2 ^ s + 1 /\ (X mod 2 ^ s = 0 -> n = X / 2 ^ s) /\
    binary_round prec emax b mx ex = mkf b n (emin prec emax + s).
Proof.
  intros He HX Hs; unfold binary_round.
  change (Zpos (digits2_pos mx)) with (Zdigits2 (Zpos mx)).
  set (F0 := fexp prec emax (Zdigits2 (Zpos mx) + ex)).
  destruct (Z.le_gt_cases ex F0) as [Hle|Hgt].
  - assert (Ha : shl_align mx ex F0 = (mx, ex)).
    { unfold shl_align; destruct (F0 - ex) eqn:E; try lia; reflexivity. }
    rewrite Ha; apply round_tail; assumption.
  - pose proof (shl_align_fst mx ex F0 ltac:(lia)) as Hs1.
    assert (Hs2 : snd (shl_align mx ex F0) = F0).
    { unfold shl_align; destruct (F0 - ex) eqn:E; try lia; reflexivity. }
    destruct (shl_align mx ex F0) as [mz ez]; cbn [fst snd] in Hs1, Hs2; subst ez.
    assert (HF0 : emin prec emax <= F0) by apply fexp_ge_emin.
    apply round_tail; [exact HF0| |rewrite HX, Hs1; rewrite <- Z.mul_assoc, <- Z.pow_add_r by lia;
                                     f_equal; f_equal; lia|exact Hs].
    rewrite Hs1, Zdigits2_mul_pow by lia.
    replace (Zdigits2 (Zpos mx) + (ex - F0) + F0) with (Zdigits2 (Zpos mx) + ex) by lia.
    lia.
Qed.

Lemma round_scale_facts X s :
  0 < X -> s = Z.max (Zdigits2 X - 53) 0 ->
  0 <= s /\ X < 2 ^ 53 * 2 ^ s /\ (0 < s -> 2 ^ 52 * 2 ^ s <= X).
Proof.
  intros HX Hs.
  pose proof (Zdigits2_lt X ltac:(lia)); pose proof (Zdigits2_lb X HX).
  split; [lia|split].
  - rewrite <- Z.pow_add_r by lia.
    eapply Z.lt_le_trans; [eassumption|apply Z.pow_le_mono_r; lia].
  - intros Hs0; rewrite <- Z.pow_add_r by lia.
    replace (52 + s) with (Zdigits2 X - 1) by lia; assumption.
Qed.

Lemma round_pos_n X s n :
  0 < X -> s = Z.max (Zdigits2 X - 53) 0 -> X / 2 ^ s <= n <= X / 2 ^ s + 1 ->
  1 <= n <= 2 ^ 53 /\ (2 ^ 52 <= n \/ s = 0).
Proof.
  intros HX Hs Hn.
  destruct (round_scale_facts X s HX Hs) as (H0 & H1 & H2).
  assert (Hp : 0 < 2 ^ s) by (apply Z.pow_pos_nonneg; lia).
  assert (X / 2 ^ s < 2 ^ 53) by (apply Z.div_lt_upper_bound; lia).
  destruct (Z.eq_dec s 0) as [E|E].
  - subst s; rewrite E, Z.pow_0_r, Z.div_1_r in *; split; [lia|right; reflexivity].
  - assert (2 ^ 52 <= X / 2 ^ s) by (apply Z.div_le_lower_bound; lia).
    split; [lia|left; lia].
Qed.

Lemma round_pos_lo X s n R :
  0 < X -> s = Z.max (Zdigits2 X - 53) 0 -> X / 2 ^ s <= n ->
  repr R -> 0 <= R <= X -> R <= n * 2 ^ s.
Proof.
  intros HX Hs Hn (m & k & Hm & Hk & HR) HRX.
  rewrite Z.abs_eq in HR by lia.
  destruct (round_scale_facts X s HX Hs) as (H0 & H1 & H2).
  assert (Hp : 0 < 2 ^ s) by (apply Z.pow_pos_nonneg; lia).
  destruct (Z.le_gt_cases s k) as [Hks|Hks].
  - assert (E : R = m * 2 ^ (k - s) * 2 ^ s)
      by (rewrite HR, <- Z.mul_assoc, <- Z.pow_add_r by lia; f_equal; f_equal; lia).
    assert (m * 2 ^ (k - s) <= X / 2 ^ s) by (apply Z.div_le_lower_bound; lia).
    nia.
  - assert (Hs0 : 0 < s) by lia.
    specialize (H2 Hs0).
    assert (2 ^ 52 <= X / 2 ^ s) by (apply Z.div_le_lower_bound; lia).
    assert (R < 2 ^ 52 * 2 ^ s).
    { rewrite HR, <- Z.pow_add_r by lia.
      assert (2 ^ k * 2 ^ 53 = 2 ^ (k + 53)) by (rewrite Z.pow_add_r; lia).
      assert (2 ^ (k + 53) <= 2 ^ (52 + s)) by (apply Z.pow_le_mono_r; lia).
      assert (0 < 2 ^ k) by (apply Z.pow_pos_nonneg; lia).
      nia. }
    nia.
Qed.

Lemma round_pos_hi X s n R :
  0 < X -> s = Z.max (Zdigits2 X - 53) 0 -> n <= X / 2 ^ s + 1 ->
  (X mod 2 ^ s = 0 -> n = X / 2 ^ s) ->
  repr R -> X <= R -> n * 2 ^ s <= R.
Proof.
  intros HX Hs Hn Hx (m & k & Hm & Hk & HR) HRX.
  rewrite Z.abs_eq in HR by lia.
  destruct (round_scale_facts X s HX Hs) as (H0 & H1 & H2).
  assert (Hp : 0 < 2 ^ s) by (apply Z.pow_pos_nonneg; lia).
  pose proof (Z.div_mod X (2 ^ s) ltac:(lia)) as Hdm.
  pose proof (Z.mod_pos_bound X (2 ^ s) Hp) as Hmb.
  destruct (Z.le_gt_cases s k) as [Hks|Hks].
  - assert (E : R = m * 2 ^ (k - s) * 2 ^ s)
      by (rewrite HR, <- Z.mul_assoc, <- Z.pow_add_r by lia; f_equal; f_equal; lia).
    destruct (Z.eq_dec (X mod 2 ^ s) 0) as [Em|Em].
    + rewrite (Hx Em). nia.
    + assert (X / 2 ^ s < m * 2 ^ (k - s)) by nia. nia.
  - assert (Hs0 : 0 < s) by lia.
    specialize (H2 Hs0).
    assert (R < 2 ^ 52 * 2 ^ s).
    { rewrite HR, <- Z.pow_add_r by lia.
      assert (2 ^ k * 2 ^ 53 = 2 ^ (k + 53)) by (rewrite Z.pow_add_r; lia).
      assert (2 ^ (k + 53) <= 2 ^ (52 + s)) by (apply Z.pow_le_mono_r; lia).
      assert (0 < 2 ^ k) by (apply Z.pow_pos_nonneg; lia).
      nia. }
    lia.
Qed.

Lemma round_pos_fin X s n R :
  0 < X -> s = Z.max (Zdigits2 X - 53) 0 -> X / 2 ^ s <= n <= X / 2 ^ s + 1 ->
  repr_fin R -> n * 2 ^ s <= R ->
  (if n =? 2 ^ 53 then emin prec emax + s + 1 else emin prec emax + s) <= emax - prec.
Proof.
  intros HX Hs Hn (m & k & Hm & Hk & HR) HnR.
  destruct (round_pos_n X s n HX Hs Hn) as [Hn1 Hn2].
  destruct (round_scale_facts X s HX Hs) as (H0 & H1 & H2).
  assert (Hp : 0 < 2 ^ s) by (apply Z.pow_pos_nonneg; lia).
  assert (Hpk : 0 < 2 ^ k) by (apply Z.pow_pos_nonneg; lia).
  assert (HRb : R < 2 ^ 53 * 2 ^ k) by nia.
  assert (Hk2 : s <= k).
  { destruct (Z.eq_dec s 0) as [E|E]; [lia|].
    destruct Hn2 as [Hn2|Hn2]; [|lia].
    assert (Hlt : 2 ^ 52 * 2 ^ s < 2 ^ 53 * 2 ^ k) by nia.
    rewrite <- !Z.pow_add_r in Hlt by lia.
    apply Z.pow_lt_mono_r_iff in Hlt; lia. }
  destruct (n =? 2 ^ 53) eqn:En.
  - apply Z.eqb_eq in En; subst n.
    assert (2 ^ 53 * 2 ^ s < 2 ^ 53 * 2 ^ k) by lia.
    assert (Hlt : 2 ^ s < 2 ^ k) by nia.
    apply Z.pow_lt_mono_r_iff in Hlt; [|lia|lia].
    unfold emin, prec, emax in *; lia.
  - unfold emin, prec, emax in *; lia.
Qed.

Lemma mkf_spec b n F :
  0 <= n <= 2 ^ 53 -> emin prec emax <= F ->
  (n = 0 \/ 2 ^ 52 <= n \/ F = emin prec emax) ->
  (canon (mkf b n F) /\ sgn_ok b (mkf b n F) /\
   zval (mkf b n F) = cond_Zopp b (n * 2 ^ (F - emin prec emax))) \/
  (mkf b n F = S754_infinity b /\
   emax - prec < (if n =? 2 ^ 53 then F + 1 else F)).
Proof.
  intros Hn HF Hc; unfold mkf.
  destruct (n =? 0) eqn:E0.
  - apply Z.eqb_eq in E0; subst n; left; simpl; split; [exact I|split; [reflexivity|]].
    destruct b; reflexivity.
  - apply Z.eqb_neq in E0.
    destruct (n =? 2 ^ 53) eqn:E1.
    + apply Z.eqb_eq in E1; subst n.
      destruct (F + 1 <=? emax - prec) eqn:E2.
      * apply Z.leb_le in E2; left; cbn [canon sgn_ok zval].
        change (Zpos (Z.to_pos (2 ^ 52))) with (2 ^ 52).
        split; [split; [reflexivity|split; [lia|left; lia]]|split; [reflexivity|]].
        f_equal. replace (F + 1 - emin prec emax) with (1 + (F - emin prec emax)) by lia.
        rewrite Z.pow_add_r by (unfold emin, prec, emax in *; lia). ring.
      * apply Z.leb_gt in E2; right; split; [reflexivity|lia].
    + apply Z.eqb_neq in E1.
      destruct (F <=? emax - prec) eqn:E2.
      * apply Z.leb_le in E2; left; cbn [canon sgn_ok zval].
        rewrite Z2Pos.id by lia.
        split; [split; [lia|split; [lia|lia]]|split; [reflexivity|reflexivity]].
      * apply Z.leb_gt in E2; right; split; [reflexivity|lia].
Qed.

Lemma fge_canon f R : canon f -> R <= zval f -> fge f R.
Proof. destruct f; simpl; tauto. Qed.

Lemma fle_canon f R : canon f -> zval f <= R -> fle f R.
Proof. destruct f; simpl; tauto. Qed.

(** Rounding a positive mantissa [p * 2 ^ e]: the cases of the result. *)
Lemma binary_round_cases b p e :
  emin prec emax <= e ->
  exists n s,
    let X := Zpos p * 2 ^ (e - emin prec emax) in
    s = Z.max (Zdigits2 X - 53) 0 /\
    X / 2 ^ s <= n <= X / 2 ^ s + 1 /\ (X mod 2 ^ s = 0 -> n = X / 2 ^ s) /\
    ((canon (binary_round prec emax b p e) /\ sgn_ok b (binary_round prec emax b p e) /\
      zval (binary_round prec emax b p e) = cond_Zopp b (n * 2 ^ s)) \/
     (binary_round prec emax b p e = S754_infinity b /\
      emax - prec < (if n =? 2 ^ 53 then emin prec emax + s + 1 else emin prec emax + s))).
Proof.
  intros He.
  set (X := Zpos p * 2 ^ (e - emin prec emax)).
  set (s := Z.max (Zdigits2 X - 53) 0).
  assert (HX : 0 < X) by (subst X; apply Z.mul_pos_pos; [lia|apply Z.pow_pos_nonneg; lia]).
  destruct (binary_round_scaled b p e X s He eq_refl eq_refl) as (n & Hn & Hx & Hr).
  exists n, s; cbv zeta; fold X.
  split; [reflexivity|split; [exact Hn|split; [exact Hx|]]].
  destruct (round_pos_n X s n HX eq_refl Hn) as [Hn1 Hn2].
  assert (Hs0 : 0 <= s) by (subst s; lia).
  rewrite Hr.
  destruct (mkf_spec b n (emin prec emax + s) ltac:(lia) ltac:(lia) ltac:(lia))
    as [(H1 & H2 & H3)|(H1 & H2)].
  - left; split; [exact H1|split; [exact H2|]].
    rewrite H3; f_equal; f_equal; f_equal; lia.
  - right; split; [exact H1|]. destruct (n =? 2 ^ 53); lia.
Qed.

Lemma binary_normalize_ge M e R :
  emin prec emax <= e -> repr_fin R -> R <= M * 2 ^ (e - emin prec emax) ->
  fge (binary_normalize prec emax M e false) R.
Proof.
  intros He HR HRM.
  destruct M as [|p|p]; cbn [binary_normalize]; [simpl in *; lia| |].
  - destruct (binary_round_cases false p e He) as (n & s & Hs & Hn & Hx & [(H1 & H2 & H3)|(H1 & H2)]).
    + apply fge_canon; [exact H1|]. rewrite H3; cbn [cond_Zopp].
      assert (HX : 0 < Zpos p * 2 ^ (e - emin prec emax))
        by (apply Z.mul_pos_pos; [lia|apply Z.pow_pos_nonneg; lia]).
      destruct (round_scale_facts _ s HX Hs) as (Hs0 & _ & _).
      destruct (Z.le_gt_cases R 0); [pose proof (round_pos_n _ s n HX Hs Hn); assert (0 < 2 ^ s) by (apply Z.pow_pos_nonneg; lia); nia|].
      eapply round_pos_lo; [exact HX| exact Hs | apply Hn | apply repr_fin_repr, HR | lia].
    + rewrite H1; exact I.
  - assert (HX : 0 < Zpos p * 2 ^ (e - emin prec emax))
      by (apply Z.mul_pos_pos; [lia|apply Z.pow_pos_nonneg; lia]).
    change (Zneg p) with (- Zpos p) in HRM.
    destruct (binary_round_cases true p e He) as (n & s & Hs & Hn & Hx & [(H1 & H2 & H3)|(H1 & H2)]).
    + apply fge_canon; [exact H1|]. rewrite H3; cbn [cond_Zopp].
      enough (n * 2 ^ s <= - R) by lia.
      eapply round_pos_hi; [exact HX|exact Hs|apply Hn|exact Hx|apply repr_opp, repr_fin_repr, HR|lia].
    + exfalso.
      assert (n * 2 ^ s <= - R)
        by (eapply round_pos_hi; [exact HX|exact Hs|apply Hn|exact Hx|apply repr_opp, repr_fin_repr, HR|lia]).
      pose proof (round_pos_fin _ s n (- R) HX Hs Hn (repr_fin_opp R HR) H).
      lia.
Qed.

Lemma binary_normalize_le M e R :
  emin prec emax <= e -> repr_fin R -> M * 2 ^ (e - emin prec emax) <= R ->
  fle (binary_normalize prec emax M e false) R.
Proof.
  intros He HR HRM.
  destruct M as [|p|p]; cbn [binary_normalize]; [simpl in *; lia| |].
  - assert (HX : 0 < Zpos p * 2 ^ (e - emin prec emax))
      by (apply Z.mul_pos_pos; [lia|apply Z.pow_pos_nonneg; lia]).
    destruct (binary_round_cases false p e He) as (n & s & Hs & Hn & Hx & [(H1 & H2 & H3)|(H1 & H2)]).
    + apply fle_canon; [exact H1|]. rewrite H3; cbn [cond_Zopp].
      eapply round_pos_hi; [exact HX|exact Hs|apply Hn|exact Hx|apply repr_fin_repr, HR|lia].
    + exfalso.
      assert (n * 2 ^ s <= R)
        by (eapply round_pos_hi; [exact HX|exact Hs|apply Hn|exact Hx|apply repr_fin_repr, HR|lia]).
      pose proof (round_pos_fin _ s n R HX Hs Hn HR H).
      lia.
  - assert (HX : 0 < Zpos p * 2 ^ (e - emin prec emax))
      by (apply Z.mul_pos_pos; [lia|apply Z.pow_pos_nonneg; lia]).
    change (Zneg p) with (- Zpos p) in HRM.
    destruct (binary_round_cases true p e He) as (n & s & Hs & Hn & Hx & [(H1 & H2 & H3)|(H1 & H2)]).
    + apply fle_canon; [exact H1|]. rewrite H3; cbn [cond_Zopp].
      destruct (round_scale_facts _ s HX Hs) as (Hs0 & _ & _).
      destruct (Z.le_gt_cases 0 R); [pose proof (round_pos_n _ s n HX Hs Hn); assert (0 < 2 ^ s) by (apply Z.pow_pos_nonneg; lia); nia|].
      enough (- R <= n * 2 ^ s) by lia.
      eapply round_pos_lo; [exact HX|exact Hs|apply Hn|apply repr_opp, repr_fin_repr, HR|lia].
    + rewrite H1; exact I.
Qed.

Lemma binary_normalize_le_inf M e R :
  emin prec emax <= e -> repr R -> 0 <= M * 2 ^ (e - emin prec emax) <= R ->
  fle (binary_normalize prec emax M e false) R \/
  binary_normalize prec emax M e false = S754_infinity false.
Proof.
  intros He HR HRM.
  destruct M as [|p|p]; cbn [binary_normalize]; [left; simpl in *; lia| |].
  - assert (HX : 0 < Zpos p * 2 ^ (e - emin prec emax))
      by (apply Z.mul_pos_pos; [lia|apply Z.pow_pos_nonneg; lia]).
    destruct (binary_round_cases false p e He) as (n & s & Hs & Hn & Hx & [(H1 & H2 & H3)|(H1 & H2)]).
    + left; apply fle_canon; [exact H1|]. rewrite H3; cbn [cond_Zopp].
      eapply round_pos_hi; [exact HX|exact Hs|apply Hn|exact Hx|exact HR|lia].
    + right; exact H1.
  - assert (0 < Zpos p * 2 ^ (e - emin prec emax))
      by (apply Z.mul_pos_pos; [lia|apply Z.pow_pos_nonneg; lia]).
    change (Zneg p) with (- Zpos p) in HRM. lia.
Qed.

Lemma binary_normalize_canon M e :
  emin prec emax <= e ->
  canon (binary_normalize prec emax M e false) \/
  exists b, binary_normalize prec emax M e false = S754_infinity b.
Proof.
  intros He; destruct M as [|p|p]; cbn [binary_normalize]; [left; exact I| |];
    [destruct (binary_round_cases false p e He) as (n & s & _ & _ & _ & [(H1 & _)|(H1 & _)])
    |destruct (binary_round_cases true p e He) as (n & s & _ & _ & _ & [(H1 & _)|(H1 & _)])];
    eauto.
Qed.

Lemma zval_shift b m ex ez :
  ez <= ex -> emin prec emax <= ez ->
  cond_Zopp b (Zpos (fst (shl_align m ex ez))) * 2 ^ (ez - emin prec emax) =
  zval (S754_finite b m ex).
Proof.
  intros H1 H2; rewrite shl_align_fst by exact H1; cbn [zval].
  replace (ex - emin prec emax) with ((ex - ez) + (ez - emin prec emax)) by lia.
  rewrite Z.pow_add_r by lia. destruct b; cbn [cond_Zopp]; ring.
Qed.

Lemma canon_emin b m e : canon (S754_finite b m e) -> emin prec emax <= e.
Proof. cbn [canon]; lia. Qed.

(** A sum or difference of two canonical floats: the normalization of the
    exact result, or a canonical float of that exact value. *)
Lemma fadd_cases x y :
  canon x -> canon y ->
  (exists M e, emin prec emax <= e /\ M * 2 ^ (e - emin prec emax) = zval x + zval y /\
     fadd x y = binary_normalize prec emax M e false) \/
  (canon (fadd x y) /\ zval (fadd x y) = zval x + zval y).
Proof.
  intros Hx Hy; unfold fadd, SFadd.
  destruct x as [sx|sx| |sx mx ex]; destruct y as [sy|sy| |sy my ey];
    cbn [canon] in Hx, Hy; try contradiction.
  - right; destruct sx, sy; cbn; split; auto.
  - right; split; [exact Hy|cbn [zval]; lia].
  - right; split; [exact Hx|cbn [zval]; lia].
  - left; exists (cond_Zopp sx (Zpos (fst (shl_align mx ex (Z.min ex ey)))) +
                  cond_Zopp sy (Zpos (fst (shl_align my ey (Z.min ex ey))))), (Z.min ex ey).
    split; [lia|split; [|reflexivity]].
    rewrite Z.mul_add_distr_r, !zval_shift by lia; reflexivity.
Qed.

Lemma fsub_cases x y :
  canon x -> canon y ->
  (exists M e, emin prec emax <= e /\ M * 2 ^ (e - emin prec emax) = zval x - zval y /\
     fsub x y = binary_normalize prec emax M e false) \/
  (canon (fsub x y) /\ zval (fsub x y) = zval x - zval y).
Proof.
  intros Hx Hy; unfold fsub, SFsub.
  destruct x as [sx|sx| |sx mx ex]; destruct y as [sy|sy| |sy my ey];
    cbn [canon] in Hx, Hy; try contradiction.
  - right; destruct sx, sy; cbn; split; auto.
  - right; split; [exact Hy|cbn [zval]; destruct sy; cbn [cond_Zopp negb]; lia].
  - right; split; [exact Hx|cbn [zval]; lia].
  - left; exists (cond_Zopp sx (Zpos (fst (shl_align mx ex (Z.min ex ey)))) -
                  cond_Zopp sy (Zpos (fst (shl_align my ey (Z.min ex ey))))), (Z.min ex ey).
    split; [lia|split; [|reflexivity]].
    rewrite Z.mul_sub_distr_r, !zval_shift by lia; reflexivity.
Qed.

Lemma canon_repr_fin f : canon f -> repr_fin (zval f).
Proof.
  destruct f as [s|s| |s m e]; cbn [canon zval]; try contradiction.
  - intros _; exists 0, 0; cbn; repeat split; lia.
  - intros (H1 & H2 & _); exists (Zpos m), (e - emin prec emax).
    rewrite cond_Zopp_abs, Z.abs_eq by (apply Z.mul_nonneg_nonneg; [lia|apply Z.pow_nonneg; lia]).
    unfold emin, emax, prec in *; repeat split; lia.
Qed.

Lemma fadd_ge x y R :
  canon x -> canon y -> repr_fin R -> R <= zval x + zval y -> fge (fadd x y) R.
Proof.
  intros Hx Hy HR H.
  destruct (fadd_cases x y Hx Hy) as [(M & e & He & HM & ->)|(Hc & Hv)].
  - apply binary_normalize_ge; [exact He|exact HR|lia].
  - apply fge_canon; [exact Hc|lia].
Qed.

Lemma fadd_le x y R :
  canon x -> canon y -> repr_fin R -> zval x + zval y <= R -> fle (fadd x y) R.
Proof.
  intros Hx Hy HR H.
  destruct (fadd_cases x y Hx Hy) as [(M & e & He & HM & ->)|(Hc & Hv)].
  - apply binary_normalize_le; [exact He|exact HR|lia].
  - apply fle_canon; [exact Hc|lia].
Qed.

Lemma fadd_le_inf x y R :
  canon x -> canon y -> repr R -> 0 <= zval x + zval y <= R ->
  fle (fadd x y) R \/ fadd x y = S754_infinity false.
Proof.
  intros Hx Hy HR H.
  destruct (fadd_cases x y Hx Hy) as [(M & e & He & HM & ->)|(Hc & Hv)].
  - apply binary_normalize_le_inf; [exact He|exact HR|lia].
  - left; apply fle_canon; [exact Hc|lia].
Qed.

Lemma fsub_ge x y R :
  canon x -> canon y -> repr_fin R -> R <= zval x - zval y -> fge (fsub x y) R.
Proof.
  intros Hx Hy HR H.
  destruct (fsub_cases x y Hx Hy) as [(M & e & He & HM & ->)|(Hc & Hv)].
  - apply binary_normalize_ge; [exact He|exact HR|lia].
  - apply fge_canon; [exact Hc|lia].
Qed.

Lemma fsub_le x y R :
  canon x -> canon y -> repr_fin R -> zval x - zval y <= R -> fle (fsub x y) R.
Proof.
  intros Hx Hy HR H.
  destruct (fsub_cases x y Hx Hy) as [(M & e & He & HM & ->)|(Hc & Hv)].
  - apply binary_normalize_le; [exact He|exact HR|lia].
  - apply fle_canon; [exact Hc|lia].
Qed.

Lemma fadd_canon x y :
  canon x -> canon y -> canon (fadd x y) \/ exists b, fadd x y = S754_infinity b.
Proof.
  intros Hx Hy.
  destruct (fadd_cases x y Hx Hy) as [(M & e & He & HM & ->)|(Hc & Hv)];
    [apply binary_normalize_canon, He|left; exact Hc].
Qed.

Lemma fsub_canon x y :
  canon x -> canon y -> canon (fsub x y) \/ exists b, fsub x y = S754_infinity b.
Proof.
  intros Hx Hy.
  destruct (fsub_cases x y Hx Hy) as [(M & e & He & HM & ->)|(Hc & Hv)];
    [apply binary_normalize_canon, He|left; exact Hc].
Qed.

Lemma fadd_finite_inv x y : finite_f (fadd x y) -> finite_f x /\ finite_f y.
Proof.
  unfold fadd, SFadd.
  destruct x as [sx|sx| |sx mx ex]; destruct y as [sy|sy| |sy my ey]; cbn [finite_f];
    try tauto; destruct sx, sy; cbn; tauto.
Qed.

Lemma fge_fle f R : fge f R -> fle f R -> finite_f f /\ zval f = R.
Proof. destruct f as [[]|[]| |s m e]; cbn; intuition lia. Qed.

Lemma fge_finite f R : fge f R -> finite_f f -> R <= zval f.
Proof. destruct f as [[]|[]| |s m e]; cbn; tauto. Qed.

Lemma fle_finite f R : fle f R -> finite_f f -> zval f <= R.
Proof. destruct f as [[]|[]| |s m e]; cbn; tauto. Qed.

Lemma canon_finite f : canon f -> finite_f f.
Proof. destruct f; cbn; tauto. Qed.

(** The value of a non-negative canonical float. *)
Lemma canon_nonneg_val f :
  canon f -> sgn_ok false f ->
  exists m a, 0 <= m < 2 ^ 53 /\ 0 <= a <= emax - prec - emin prec emax /\
    zval f = m * 2 ^ a /\ (0 < a -> 2 ^ 52 <= m).
Proof.
  destruct f as [s|s| |s m e]; cbn [canon sgn_ok zval]; try contradiction.
  - intros _ _; exists 0, 0; cbn; repeat split; lia.
  - intros (H1 & H2 & H3) ->; exists (Zpos m), (e - emin prec emax); cbn [cond_Zopp].
    unfold emin, emax, prec in *; repeat split; lia.
Qed.

Lemma canon_exp_lt m1 a1 m2 a2 :
  0 <= m1 < 2 ^ 53 -> 0 <= a1 -> a1 < a2 -> (0 < a2 -> 2 ^ 52 <= m2) ->
  m1 * 2 ^ a1 < m2 * 2 ^ a2.
Proof.
  intros H1 H2 H3 H4.
  specialize (H4 ltac:(lia)).
  replace a2 with ((a2 - a1 - 1) + 1 + a1) by lia.
  rewrite !Z.pow_add_r, Z.pow_1_r by lia.
  assert (0 < 2 ^ a1) by (apply Z.pow_pos_nonneg; lia).
  assert (1 <= 2 ^ (a2 - a1 - 1)) by (apply (Z.pow_le_mono_r 2 0); lia).
  assert (2 ^ 53 = 2 ^ 52 * 2) by reflexivity.
  set (P := 2 ^ a1) in *; set (Q := 2 ^ (a2 - a1 - 1)) in *.
  apply Z.lt_le_trans with (2 ^ 53 * P); [nia|].
  apply Z.le_trans with (m2 * 2 * P); [nia|].
  assert (0 <= m2 * 2 * P) by nia.
  nia.
Qed.

(** [fabs(a) >= fabs(b)] compares the values of two non-negative canonical
    floats. *)
Lemma fabs_ge_canon f x :
  canon f -> canon x -> sgn_ok false f -> sgn_ok false x ->
  fabs_ge f x = (zval x <=? zval f).
Proof.
  intros Hf Hx Sf Sx.
  destruct f as [sf|sf| |sf mf ef]; destruct x as [sx|sx| |sx mx ex];
    cbn [canon sgn_ok] in Hf, Hx, Sf, Sx; try contradiction; subst;
    unfold fabs_ge; cbn [SFabs SFcompare zval cond_Zopp].
  - reflexivity.
  - symmetry; apply Z.leb_gt.
    apply Z.mul_pos_pos; [lia|apply Z.pow_pos_nonneg; lia].
  - symmetry; apply Z.leb_le.
    apply Z.mul_nonneg_nonneg; [lia|apply Z.pow_nonneg; lia].
  - destruct (Z.compare_spec ef ex) as [Ee|Ee|Ee].
    + subst ex. rewrite Pos.compare_cont_spec.
      assert (0 < 2 ^ (ef - emin prec emax)) by (apply Z.pow_pos_nonneg; lia).
      destruct (Pos.compare_spec mf mx) as [->|Hl|Hl]; cbv beta iota.
      * symmetry; apply Z.leb_le; lia.
      * symmetry; apply Z.leb_gt; apply Z.mul_lt_mono_pos_r; lia.
      * symmetry; apply Z.leb_le; apply Z.mul_le_mono_nonneg_r; lia.
    + symmetry; apply Z.leb_gt.
      apply canon_exp_lt; lia.
    + symmetry; apply Z.leb_le, Z.lt_le_incl.
      apply canon_exp_lt; lia.
Qed.

(** Sterbenz: the difference of two non-negative floats within a factor
    two of each other is a float. *)
Lemma sterbenz_Z mf a mt b :
  0 <= mf < 2 ^ 53 -> 0 <= mt < 2 ^ 53 ->
  0 <= a <= emax - prec - emin prec emax -> 0 <= b <= emax - prec - emin prec emax ->
  mf * 2 ^ a <= mt * 2 ^ b <= 2 * (mf * 2 ^ a) ->
  repr_fin (mt * 2 ^ b - mf * 2 ^ a).
Proof.
  intros Hf Ht Ha Hb H.
  destruct (Z.le_gt_cases a b) as [Hab|Hab].
  - assert (E : 2 ^ b = 2 ^ (b - a) * 2 ^ a)
      by (rewrite <- Z.pow_add_r by lia; f_equal; lia).
    assert (0 < 2 ^ a) by (apply Z.pow_pos_nonneg; lia).
    exists (mt * 2 ^ (b - a) - mf), a.
    rewrite E in H |- *.
    assert (mf <= mt * 2 ^ (b - a) <= 2 * mf) by nia.
    split; [lia|split; [lia|]].
    rewrite Z.abs_eq by nia. ring.
  - assert (E : 2 ^ a = 2 ^ (a - b) * 2 ^ b)
      by (rewrite <- Z.pow_add_r by lia; f_equal; lia).
    assert (0 < 2 ^ b) by (apply Z.pow_pos_nonneg; lia).
    assert (1 <= 2 ^ (a - b)) by (apply (Z.pow_le_mono_r 2 0); lia).
    exists (mt - mf * 2 ^ (a - b)), b.
    rewrite E in H |- *.
    assert (mf * 2 ^ (a - b) <= mt) by nia.
    split; [nia|split; [lia|]].
    rewrite Z.abs_eq by nia. ring.
Qed.

Lemma sterbenz f t :
  canon f -> canon t -> sgn_ok false f -> sgn_ok false t ->
  zval f <= zval t <= 2 * zval f -> repr_fin (zval t - zval f).
Proof.
  intros Hf Ht Sf St H.
  destruct (canon_nonneg_val f Hf Sf) as (mf & a & Hmf & Ha & Ef & _).
  destruct (canon_nonneg_val t Ht St) as (mt & b & Hmt & Hb & Et & _).
  rewrite Ef, Et in *; apply sterbenz_Z; assumption.
Qed.

Lemma canon_double_repr f : canon f -> sgn_ok false f -> repr (2 * zval f).
Proof.
  intros Hf Sf.
  destruct (canon_nonneg_val f Hf Sf) as (mf & a & Hmf & Ha & Ef & _).
  exists mf, (a + 1); rewrite Ef, Z.pow_add_r, Z.pow_1_r by lia.
  assert (0 <= 2 ^ a) by (apply Z.pow_nonneg; lia).
  split; [lia|split; [lia|]]. rewrite Z.abs_eq by nia. ring.
Qed.

Lemma Zdigits2_ge_53 q : 2 ^ 52 <= q -> 53 <= Zdigits2 q.
Proof.
  intros H; destruct (Z.le_gt_cases 53 (Zdigits2 q)) as [|Hl]; [assumption|].
  pose proof (Zdigits2_lt q ltac:(lia)).
  assert (2 ^ Zdigits2 q <= 2 ^ 52) by (apply Z.pow_le_mono_r; lia).
  lia.
Qed.

Lemma binary_round_aux_canon b M e l :
  0 <= M -> e <= fexp prec emax (Zdigits2 M + e) ->
  canon (binary_round_aux prec emax b M e l) \/
  exists s, binary_round_aux prec emax b M e l = S754_infinity s.
Proof.
  intros HM He.
  destruct (binary_round_aux_spec b M e l HM He) as (n & Hn & _ & ->).
  set (D := Zdigits2 M) in *.
  set (F := fexp prec emax (D + e)) in *.
  assert (HF : F = Z.max (D + e - 53) (emin prec emax)) by reflexivity.
  assert (Hp : 0 < 2 ^ (F - e)) by (apply Z.pow_pos_nonneg; lia).
  assert (HD : M < 2 ^ D) by (apply Zdigits2_lt; lia).
  assert (HMk : M < 2 ^ 53 * 2 ^ (F - e)).
  { rewrite <- Z.pow_add_r by (unfold emin, prec, emax in *; lia).
    eapply Z.lt_le_trans; [exact HD|apply Z.pow_le_mono_r; lia]. }
  assert (M / 2 ^ (F - e) < 2 ^ 53) by (apply Z.div_lt_upper_bound; lia).
  assert (0 <= M / 2 ^ (F - e)) by (apply Z.div_pos; lia).
  assert (Hc : n = 0 \/ 2 ^ 52 <= n \/ F = emin prec emax).
  { destruct (Z.eq_dec F (emin prec emax)) as [|Hne]; [tauto|right; left].
    assert (HF' : F = D + e - 53) by lia.
    assert (HM0 : 0 < M).
    { destruct (Z.eq_dec M 0) as [E|]; [|lia].
      subst D; rewrite E in HF'; cbn in HF'; lia. }
    pose proof (Zdigits2_lb M HM0) as Hlb; fold D in Hlb.
    enough (2 ^ 52 <= M / 2 ^ (F - e)) by lia.
    apply Z.div_le_lower_bound; [lia|].
    rewrite <- Z.pow_add_r by lia.
    replace (F - e + 52) with (D - 1) by lia; exact Hlb. }
  destruct (mkf_spec b n F ltac:(lia) ltac:(apply fexp_ge_emin) Hc) as [(H1 & _)|(H1 & _)];
    [left; exact H1|right; eauto].
Qed.

Lemma SFdiv_core_canon m1 e1 m2 e2 :
  0 < m1 -> 0 < m2 ->
  0 <= fst (fst (SFdiv_core_binary prec emax m1 e1 m2 e2)) /\
  snd (fst (SFdiv_core_binary prec emax m1 e1 m2 e2)) <=
    fexp prec emax (Zdigits2 (fst (fst (SFdiv_core_binary prec emax m1 e1 m2 e2))) +
                    snd (fst (SFdiv_core_binary prec emax m1 e1 m2 e2))).
Proof.
  intros H1 H2; unfold SFdiv_core_binary.
  set (d1 := Zdigits2 m1); set (d2 := Zdigits2 m2).
  set (G := fexp prec emax (d1 + e1 - (d2 + e2))).
  set (e' := Z.min G (e1 - e2)).
  assert (He' : e' = Z.min G (e1 - e2)) by reflexivity.
  assert (Hm' : exists s, 0 <= s /\ e1 - e2 - e' = s /\
            match e1 - e2 - e' with Zpos _ => Z.shiftl m1 (e1 - e2 - e') | Z0 => m1
                                   | Zneg _ => 0 end = m1 * 2 ^ s).
  { exists (e1 - e2 - e'); split; [lia|split; [reflexivity|]].
    destruct (e1 - e2 - e') eqn:Es; [ring|apply Z.shiftl_mul_pow2; lia|lia]. }
  destruct Hm' as (s & Hs0 & Hs & ->).
  pose proof (Z_div_mod (m1 * 2 ^ s) m2 ltac:(lia)) as Hd.
  assert (Hq : fst (Z.div_eucl (m1 * 2 ^ s) m2) = m1 * 2 ^ s / m2)
    by (unfold Z.div; destruct (Z.div_eucl _ _); reflexivity).
  destruct (Z.div_eucl (m1 * 2 ^ s) m2) as [q r]; cbn [fst snd] in Hq |- *.
  subst q.
  assert (0 < 2 ^ s) by (apply Z.pow_pos_nonneg; lia).
  split; [apply Z.div_pos; nia|].
  assert (HG : G = Z.max (d1 + e1 - (d2 + e2) - 53) (emin prec emax)) by reflexivity.
  destruct (Z.eq_dec G (emin prec emax)) as [HGe|HGe].
  - pose proof (fexp_ge_emin (Zdigits2 (m1 * 2 ^ s / m2) + e')). lia.
  - assert (Hq52 : 2 ^ 52 <= m1 * 2 ^ s / m2).
    { apply Z.div_le_lower_bound; [lia|].
      pose proof (Zdigits2_lb m1 H1) as L1; fold d1 in L1.
      pose proof (Zdigits2_lt m2 ltac:(lia)) as L2; fold d2 in L2.
      assert (2 ^ 52 * 2 ^ d2 <= 2 ^ (d1 - 1) * 2 ^ s).
      { assert (1 <= d2) by (subst d2; destruct m2; cbn; lia).
        assert (1 <= d1) by (subst d1; destruct m1; cbn; lia).
        rewrite <- !Z.pow_add_r by lia.
        apply Z.pow_le_mono_r; lia. }
      nia. }
    pose proof (Zdigits2_ge_53 _ Hq52).
    unfold fexp at 1; unfold prec; lia.
Qed.

Lemma py_int_truediv_canon a b f : py_int_truediv a b = Ok f -> canon f.
Proof.
  unfold py_int_truediv.
  destruct (b =? 0) eqn:Eb; [discriminate|apply Z.eqb_neq in Eb].
  destruct a as [|pa|pa].
  - intros H; inversion H; exact I.
  - pose proof (SFdiv_core_canon (Z.abs (Zpos pa)) 0 (Z.abs b) 0 ltac:(lia) ltac:(lia)) as Hc.
    destruct (SFdiv_core_binary prec emax _ _ _ _) as [[q e] l]; cbn [fst snd] in Hc.
    destruct (binary_round_aux_canon (xorb (Zpos pa <? 0) (b <? 0)) q e l (proj1 Hc) (proj2 Hc))
      as [Hk|(s & Hk)]; [|rewrite Hk; discriminate].
    destruct (binary_round_aux _ _ _ _ _ _); intros H; inversion H; subst; exact Hk.
  - pose proof (SFdiv_core_canon (Z.abs (Zneg pa)) 0 (Z.abs b) 0 ltac:(lia) ltac:(lia)) as Hc.
    destruct (SFdiv_core_binary prec emax _ _ _ _) as [[q e] l]; cbn [fst snd] in Hc.
    destruct (binary_round_aux_canon (xorb (Zneg pa <? 0) (b <? 0)) q e l (proj1 Hc) (proj2 Hc))
      as [Hk|(s & Hk)]; [|rewrite Hk; discriminate].
    destruct (binary_round_aux _ _ _ _ _ _); intros H; inversion H; subst; exact Hk.
Qed.

Lemma py_float_of_int_canon z f : py_float_of_int z = Ok f -> canon f.
Proof.
  unfold py_float_of_int.
  destruct (binary_normalize_canon z 0 ltac:(unfold emin, prec, emax; lia)) as [Hk|(s & Hk)];
    [|rewrite Hk; discriminate].
  destruct (binary_normalize _ _ _ _ _); intros H; inversion H; subst; exact Hk.
Qed.

Lemma py_pow2_canon x f : canon x -> py_pow2 x = Ok f -> canon f.
Proof.
  intros Hx; unfold py_pow2.
  destruct x as [s|s| |s m e]; cbn [canon] in Hx; try contradiction.
  - intros H; inversion H; exact I.
  - unfold fmul, SFmul; cbn [xorb].
    assert (Hc : e + e <= fexp prec emax (Zdigits2 (Zpos (m * m)) + (e + e))).
    { destruct Hx as (H1 & H2 & [H3|H3]).
      - assert (2 ^ 52 * 2 ^ 52 <= Zpos (m * m)) by (rewrite Pos2Z.inj_mul; nia).
        assert (2 ^ 52 <= Zpos (m * m)) by lia.
        assert (H104 : 105 <= Zdigits2 (Zpos (m * m))).
        { destruct (Z.le_gt_cases 105 (Zdigits2 (Zpos (m * m)))) as [|Hl]; [assumption|].
          pose proof (Zdigits2_lt (Zpos (m * m)) ltac:(lia)).
          assert (2 ^ Zdigits2 (Zpos (m * m)) <= 2 ^ 104) by (apply Z.pow_le_mono_r; lia).
          change (2 ^ 104) with (2 ^ 52 * 2 ^ 52) in *. lia. }
        unfold fexp, prec; lia.
      - pose proof (fexp_ge_emin (Zdigits2 (Zpos (m * m)) + (e + e))).
        unfold emin, prec, emax in *; lia. }
    destruct (binary_round_aux_canon false (Zpos (m * m)) (e + e) loc_Exact ltac:(lia) Hc)
      as [Hk|(s' & Hk)]; [|rewrite Hk; discriminate].
    destruct (binary_round_aux _ _ _ _ _ _); intros H; inversion H; subst; exact Hk.
Qed.

(** ** The compensated sum of non-negative floats *)

Lemma canon_zval_nonneg f : canon f -> sgn_ok false f -> 0 <= zval f.
Proof.
  intros Hf Sf; destruct (canon_nonneg_val f Hf Sf) as (m & a & Hm & Ha & -> & _).
  apply Z.mul_nonneg_nonneg; [lia|apply Z.pow_nonneg; lia].
Qed.

Lemma canon_finite_or_inf f :
  canon f \/ (exists b, f = S754_infinity b) -> finite_f f -> canon f.
Proof. intros [H|(b & ->)]; [auto|cbn; tauto]. Qed.

(** The error term of one step is at least [f - t]. *)
Lemma neumaier_err_a f x t :
  canon f -> canon x -> sgn_ok false f -> sgn_ok false x ->
  t = fadd f x -> finite_f t -> zval x <= zval f ->
  finite_f (fadd (fsub f t) x) ->
  canon (fadd (fsub f t) x) /\ zval f - zval t <= zval (fadd (fsub f t) x).
Proof.
  intros Cf Cx Sf Sx Et Ft Hle Fd.
  pose proof (canon_zval_nonneg f Cf Sf) as F0.
  pose proof (canon_zval_nonneg x Cx Sx) as X0.
  assert (Ct : canon t) by (subst t; apply canon_finite_or_inf; [apply fadd_canon|]; assumption).
  assert (St : sgn_ok false t) by (subst t; apply fadd_nonneg; assumption).
  assert (T1 : zval f <= zval t).
  { apply fge_finite; [|exact Ft]. subst t; apply fadd_ge; auto using canon_repr_fin; lia. }
  assert (T2 : zval t <= 2 * zval f).
  { destruct (fadd_le_inf f x (2 * zval f) Cf Cx (canon_double_repr f Cf Sf) ltac:(lia))
      as [H|H]; [apply fle_finite; [|exact Ft]; rewrite Et; exact H|].
    rewrite <- Et in H; rewrite H in Ft; contradiction. }
  assert (Rd : repr_fin (zval f - zval t)).
  { replace (zval f - zval t) with (- (zval t - zval f)) by ring.
    apply repr_fin_opp, sterbenz; auto; lia. }
  destruct (fge_fle (fsub f t) (zval f - zval t)) as (Fu & Eu).
  { apply fsub_ge; auto; lia. }
  { apply fsub_le; auto; lia. }
  assert (Cu : canon (fsub f t)) by (apply canon_finite_or_inf; [apply fsub_canon|]; assumption).
  split; [apply canon_finite_or_inf; [apply fadd_canon|]; assumption|].
  apply fge_finite; [|exact Fd]. apply fadd_ge; auto; lia.
Qed.

Lemma neumaier_err_b f x t :
  canon f -> canon x -> sgn_ok false f -> sgn_ok false x ->
  t = fadd f x -> finite_f t -> zval f < zval x ->
  finite_f (fadd (fsub x t) f) ->
  canon (fadd (fsub x t) f) /\ zval f - zval t <= zval (fadd (fsub x t) f).
Proof.
  intros Cf Cx Sf Sx Et Ft Hlt Fd.
  pose proof (canon_zval_nonneg f Cf Sf) as F0.
  pose proof (canon_zval_nonneg x Cx Sx) as X0.
  assert (Ct : canon t) by (subst t; apply canon_finite_or_inf; [apply fadd_canon|]; assumption).
  assert (St : sgn_ok false t) by (subst t; apply fadd_nonneg; assumption).
  assert (T1 : zval x <= zval t).
  { apply fge_finite; [|exact Ft]. subst t; apply fadd_ge; auto using canon_repr_fin; lia. }
  assert (T2 : zval t <= 2 * zval x).
  { destruct (fadd_le_inf f x (2 * zval x) Cf Cx (canon_double_repr x Cx Sx) ltac:(lia))
      as [H|H]; [apply fle_finite; [|exact Ft]; rewrite Et; exact H|].
    rewrite <- Et in H; rewrite H in Ft; contradiction. }
  assert (Rd : repr_fin (zval x - zval t)).
  { replace (zval x - zval t) with (- (zval t - zval x)) by ring.
    apply repr_fin_opp, sterbenz; auto; lia. }
  destruct (fge_fle (fsub x t) (zval x - zval t)) as (Fv & Ev).
  { apply fsub_ge; auto; lia. }
  { apply fsub_le; auto; lia. }
  assert (Cv : canon (fsub x t)) by (apply canon_finite_or_inf; [apply fsub_canon|]; assumption).
  split; [apply canon_finite_or_inf; [apply fadd_canon|]; assumption|].
  assert (zval x - zval t <= zval (fadd (fsub x t) f)).
  { apply fge_finite; [|exact Fd]. apply fadd_ge; auto; lia. }
  lia.
Qed.

Lemma neumaier_step_inv st x :
  neumaier_inv st -> item_ok x -> neumaier_inv (neumaier_step st x).
Proof.
  destruct st as [f c]; intros (Sf & If) (Sx & Ix); unfold neumaier_step.
  set (t := fadd f x).
  assert (St : sgn_ok false t) by (apply fadd_nonneg; assumption).
  assert (G : forall d, (finite_f t -> finite_f d -> canon d /\ zval f - zval t <= zval d) ->
            neumaier_inv (t, fadd c d)).
  { intros d Hd; cbn [neumaier_inv]; split; [exact St|intros Ft].
    destruct (fadd_finite_inv f x Ft) as [Ff Fx].
    destruct (If Ff) as (Cf & Ic).
    pose proof (Ix Fx) as Cx.
    assert (Ct : canon t) by (apply canon_finite_or_inf; [apply fadd_canon|]; assumption).
    split; [exact Ct|intros Fc'].
    destruct (fadd_finite_inv c d Fc') as [Fc Fd].
    destruct (Ic Fc) as (Cc & Hc).
    destruct (Hd Ft Fd) as (Cd & Hd').
    split; [apply canon_finite_or_inf; [apply fadd_canon|]; assumption|].
    enough (- zval t <= zval (fadd c d)) by lia.
    apply fge_finite; [|exact Fc'].
    apply fadd_ge; auto using repr_fin_opp, canon_repr_fin; lia. }
  destruct (fabs_ge f x) eqn:Eg; apply G; intros Ft Fd;
    destruct (fadd_finite_inv f x Ft) as [Ff Fx];
    destruct (If Ff) as (Cf & _); pose proof (Ix Fx) as Cx;
    rewrite fabs_ge_canon in Eg by assumption.
  - apply Z.leb_le in Eg; apply neumaier_err_a; auto.
  - apply Z.leb_gt in Eg; apply neumaier_err_b; auto.
Qed.

Lemma neumaier_fold_inv rest st :
  neumaier_inv st -> Forall item_ok rest -> neumaier_inv (fold_left neumaier_step rest st).
Proof.
  revert st; induction rest as [|x rest IH]; intros st Hst Hr; cbn [fold_left]; [exact Hst|].
  inversion Hr; subst; apply IH; [apply neumaier_step_inv|]; assumption.
Qed.

Lemma neumaier_init x : item_ok x -> neumaier_inv (fadd fzero x, fzero).
Proof.
  intros (Sx & Ix); cbn [neumaier_inv].
  assert (S0 : sgn_ok false (fadd fzero x)) by (apply fadd_nonneg; [reflexivity|exact Sx]).
  split; [exact S0|intros F0].
  destruct (fadd_finite_inv fzero x F0) as [_ Fx].
  assert (C0 : canon (fadd fzero x))
    by (apply canon_finite_or_inf; [apply fadd_canon; [exact I|apply Ix, Fx]|exact F0]).
  split; [exact C0|intros _; split; [exact I|]].
  pose proof (canon_zval_nonneg _ C0 S0); cbn [zval fzero]; lia.
Qed.

Lemma neumaier_final f c :
  neumaier_inv (f, c) ->
  sgn_ok false (match c with S754_finite _ _ _ => fadd f c | _ => f end).
Proof.
  intros (Sf & If).
  destruct c as [sc|sc| |sc mc ec]; try exact Sf.
  destruct f as [sf|sf| |sf mf ef]; cbn [sgn_ok] in Sf; try contradiction; subst sf.
  - destruct (If I) as (_ & Ic); destruct (Ic I) as (_ & Hc).
    cbn [zval] in Hc. unfold fadd, SFadd; cbn [sgn_ok].
    destruct sc; [|reflexivity]. cbn [cond_Zopp] in Hc.
    assert (0 < Zpos mc * 2 ^ (ec - emin prec emax)); [|lia].
    destruct (Ic I) as ((_ & Hec & _) & _).
    apply Z.mul_pos_pos; [lia|apply Z.pow_pos_nonneg; lia].
  - reflexivity.
  - destruct (If I) as (Cf & Ic); destruct (Ic I) as (Cc & Hc).
    unfold fadd, SFadd.
    set (ez := Z.min ef ec).
    set (M := cond_Zopp false (Zpos (fst (shl_align mf ef ez))) +
              cond_Zopp sc (Zpos (fst (shl_align mc ec ez)))).
    pose proof (binary_normalize_sgn M ez) as HM.
    replace (M <? 0) with false in HM; [exact HM|].
    symmetry; apply Z.ltb_ge.
    assert (HV : M * 2 ^ (ez - emin prec emax) = zval (S754_finite false mf ef) +
                                                  zval (S754_finite sc mc ec)).
    { subst M ez; rewrite Z.mul_add_distr_r, !zval_shift; try reflexivity;
        cbn [canon] in Cf, Cc; lia. }
    assert (0 < 2 ^ (ez - emin prec emax))
      by (apply Z.pow_pos_nonneg; cbn [canon] in Cf, Cc; subst ez; lia).
    nia.
Qed.

(** A compensated sum of non-negative floats (finite ones canonical) is
    non-negative. *)
Lemma py_sum_floats_nonneg xs : Forall item_ok xs -> sgn_ok false (py_sum_floats xs).
Proof.
  destruct xs as [|x rest]; [reflexivity|]; intros H; inversion H; subst.
  unfold py_sum_floats.
  pose proof (neumaier_fold_inv rest _ (neumaier_init x ltac:(assumption)) ltac:(assumption)) as Hi.
  destruct (fold_left neumaier_step rest (fadd fzero x, fzero)) as [f c].
  apply neumaier_final, Hi.
Qed.

(** ** Magnitude of the compensated sum *)

Lemma neumaier_step_bnd B E f c x :
  bnd B f -> bnd (B + 6) c -> bnd E x -> E <= B -> emin prec emax <= E -> B + 8 <= emax - prec ->
  bnd (B + 2) (fst (neumaier_step (f, c) x)) /\ bnd (B + 8) (snd (neumaier_step (f, c) x)).
Proof.
  intros Bf Bc Bx HE H1 H2; unfold neumaier_step.
  assert (Bx' : bnd B x) by (eapply bnd_mono; [|exact Bx]; lia).
  assert (Bt : bnd (B + 2) (fadd f x)) by (apply fadd_bnd; auto; lia).
  assert (Bf2 : bnd (B + 2) f) by (eapply bnd_mono; [|exact Bf]; lia).
  assert (Bx2 : bnd (B + 2) x) by (eapply bnd_mono; [|exact Bx]; lia).
  assert (Bu : bnd (B + 4) (fsub f (fadd f x))) by (replace (B + 4) with (B + 2 + 2) by lia; apply fsub_bnd; auto; lia).
  assert (Bv : bnd (B + 4) (fsub x (fadd f x))) by (replace (B + 4) with (B + 2 + 2) by lia; apply fsub_bnd; auto; lia).
  assert (Bd1 : bnd (B + 6) (fadd (fsub f (fadd f x)) x))
    by (replace (B + 6) with (B + 4 + 2) by lia; apply fadd_bnd; [exact Bu|eapply bnd_mono; [|exact Bx]; lia|lia|lia]).
  assert (Bd2 : bnd (B + 6) (fadd (fsub x (fadd f x)) f))
    by (replace (B + 6) with (B + 4 + 2) by lia; apply fadd_bnd; [exact Bv|eapply bnd_mono; [|exact Bf]; lia|lia|lia]).
  destruct (fabs_ge f x); cbn [fst snd]; (split; [exact Bt|]);
    replace (B + 8) with (B + 6 + 2) by lia; apply fadd_bnd; auto; lia.
Qed.

Lemma neumaier_fold_bnd rest : forall B E f c,
  bnd B f -> bnd (B + 6) c -> Forall (bnd E) rest -> E <= B -> emin prec emax <= E ->
  B + 2 * Z.of_nat (List.length rest) + 8 <= emax - prec ->
  bnd (B + 2 * Z.of_nat (List.length rest)) (fst (fold_left neumaier_step rest (f, c))) /\
  bnd (B + 2 * Z.of_nat (List.length rest) + 6) (snd (fold_left neumaier_step rest (f, c))).
Proof.
  induction rest as [|x rest IH]; intros B E f c Bf Bc Hr HE H1 H2;
    cbn [fold_left List.length] in *.
  - rewrite Z.add_0_r; split; assumption.
  - inversion Hr; subst.
    destruct (neumaier_step_bnd B E f c x Bf Bc ltac:(assumption) HE H1 ltac:(lia)) as [B1 B2].
    destruct (neumaier_step (f, c) x) as [f' c'] eqn:Es; cbn [fst snd] in B1, B2.
    replace (B + 2 * Z.of_nat (S (List.length rest)))
      with (B + 2 + 2 * Z.of_nat (List.length rest)) by lia.
    apply (IH (B + 2) E); try assumption; try lia.
    replace (B + 2 + 6) with (B + 8) by lia; exact B2.
Qed.

Lemma py_sum_floats_bnd E xs :
  Forall (bnd E) xs -> emin prec emax <= E ->
  E + 2 * Z.of_nat (List.length xs) + 8 <= emax - prec ->
  bnd (E + 2 * Z.of_nat (List.length xs) + 8) (py_sum_floats xs).
Proof.
  destruct xs as [|x rest]; intros Hx H1 H2; [exact I|].
  inversion Hx; subst; unfold py_sum_floats; cbn [List.length] in H2 |- *.
  assert (B0 : bnd (E + 2) (fadd fzero x)) by (apply fadd_bnd; auto; [exact I|lia]).
  destruct (neumaier_fold_bnd rest (E + 2) E (fadd fzero x) fzero B0 I ltac:(assumption)
              ltac:(lia) H1 ltac:(lia)) as [Bf Bc].
  destruct (fold_left neumaier_step rest (fadd fzero x, fzero)) as [f c]; cbn [fst snd] in Bf, Bc.
  replace (E + 2 * Z.of_nat (S (List.length rest)) + 8)
    with (E + 2 + 2 * Z.of_nat (List.length rest) + 6 + 2) by lia.
  destruct c as [sc|sc| |sc mc ec]; try (eapply bnd_mono; [|exact Bf]; lia).
  apply fadd_bnd; [eapply bnd_mono; [|exact Bf]; lia|exact Bc|lia|lia].
Qed.

(** The variance of the history [0, 1, 2251799813685282] goes through the
    compensated sum: a plain left-to-right sum of the squared deviations
    would give the safety stock 1061508612087645. *)
Lemma forecast_on_compensated_example :
  forecast_on "reagent-1" [0; 1; 2251799813685282] =
    Ok (mkForecastResponse "reagent-1" 10508399130531322 1061508612087644 6315708177353305).
Proof. vm_compute; reflexivity. Qed.

(** ** Signs of the stages of [forecast] *)

Lemma sq_dev_spec avg x :
  canon avg -> ok_or_overflow item_ok (sq_dev avg x).
Proof.
  intros Ca; unfold sq_dev.
  destruct (py_float_of_int x) as [fx|e] eqn:Ex; cbn [bind];
    [|pose proof (py_float_of_int_spec x) as H; rewrite Ex in H; exact H].
  pose proof (py_float_of_int_canon x fx Ex) as Cx.
  pose proof (py_pow2_spec (fsub fx avg)
                (fsub_not_nan _ _ (canon_finite _ Cx) (canon_finite _ Ca))) as Hs.
  destruct (py_pow2 (fsub fx avg)) as [f|e] eqn:Ep; cbn [ok_or_overflow] in Hs |- *; [|exact Hs].
  split; [exact Hs|intros Ff].
  destruct (fsub_canon fx avg Cx Ca) as [Cs|(b & Eb)]; [exact (py_pow2_canon _ _ Cs Ep)|].
  rewrite Eb in Ep; cbn in Ep; inversion Ep; subst; contradiction.
Qed.

Lemma forecast_stddev_spec data avg :
  data <> [] -> canon avg ->
  ok_or_overflow (sgn_ok false) (forecast_stddev data avg).
Proof.
  intros Hne Ca; unfold forecast_stddev, forecast_variance.
  apply bind_ok_or_overflow with (P := sgn_ok false); [|intros v Hv].
  2: { destruct (py_sqrt_nonneg v Hv) as (r & -> & Hr); exact Hr. }
  apply bind_ok_or_overflow with (P := Forall item_ok).
  { apply py_map_spec; intros x _; apply sq_dev_spec, Ca. }
  intros sqs Hsqs.
  destruct (py_float_of_int (py_len data)) as [n|e] eqn:En; simpl; [|].
  - destruct (py_float_of_int_pos _ _ (py_len_pos data Hne) En) as (m & e & ->).
    simpl. apply fdiv_nonneg, py_sum_floats_nonneg, Hsqs.
  - pose proof (py_float_of_int_spec (py_len data)) as H; rewrite En in H; exact H.
Qed.

(** Every run of [forecast_on] on a non-empty history ends with a response
    that echoes the sku, or with an [OverflowError]; on a history of
    non-negative quantities the reorder point of a response is
    non-negative. *)
Lemma forecast_on_spec s data :
  data <> [] ->
  ok_or_overflow
    (fun r => resp_sku r = s /\
              (Forall (fun x => 0 <= x) data -> 0 <= reorder_point r))
    (forecast_on s data).
Proof.
  intros Hne; unfold forecast_on.
  pose proof (forecast_avg_spec data Hne) as Ha.
  destruct (forecast_avg data) as [avg|e] eqn:Ea; cbn [bind]; [|exact Ha].
  destruct Ha as [Fa Sa].
  pose proof (py_int_truediv_canon _ _ _ Ea) as Ca.
  apply bind_ok_or_overflow with (P := sgn_ok false);
    [apply forecast_stddev_spec; assumption|intros sd Hsd].
  apply bind_ok_or_overflow with (P := fun _ => True);
    [eapply ok_or_overflow_weaken; [|apply py_round_spec; exists false; exact Hsd]; auto|].
  intros r _.
  apply bind_ok_or_overflow with (P := fun f => finite_f f /\ sgn_ok false f).
  { pose proof (py_float_of_int_spec (Z.max 2 r)) as H.
    replace (Z.max 2 r <? 0) with false in H by (symmetry; apply Z.ltb_ge; lia).
    exact H. }
  intros fs [Ffs Sfs].
  rewrite float_of_small_lead_time, float_of_small_14.
  apply bind_ok_or_overflow with
    (P := fun n => Forall (fun x => 0 <= x) data -> 0 <= n).
  { eapply ok_or_overflow_weaken; [|apply py_round_spec, fadd_not_nan, Ffs;
                                     apply fmul_not_nan; [exact Fa|exact I]].
    intros n Hn HF; apply Hn.
    apply fadd_nonneg; [|exact Sfs].
    apply fmul_nonneg; auto; reflexivity. }
  intros rp Hrp.
  apply bind_ok_or_overflow with (P := fun _ => True).
  { eapply ok_or_overflow_weaken; [|apply py_round_spec, fmul_not_nan; [exact Fa|exact I]].
    auto. }
  intros q _; simpl; auto.
Qed.

(** ** The stages of [forecast] on a bounded history *)

Lemma bnd_finite E f : bnd E f -> finite_f f.
Proof. destruct f; simpl; tauto. Qed.

Lemma forecast_avg_bnd data :
  hist_bounded data -> exists avg, forecast_avg data = Ok avg /\ bnd 10 avg.
Proof.
  intros (Hne & Hl & Hx); unfold forecast_avg.
  pose proof (py_sum_ints_abs data (2 ^ 53)) as Hs.
  specialize (Hs ltac:(eapply Forall_impl; [|exact Hx]; simpl; lia)).
  assert (Z.of_nat (List.length data) * 2 ^ 53 <= 256 * 2 ^ 53)
    by (apply Z.mul_le_mono_nonneg_r; lia).
  assert (256 * 2 ^ 53 < 2 ^ 62) by reflexivity.
  destruct (py_int_truediv_bnd (py_sum_ints data) (py_len data) 62) as (avg & Ha & Hb).
  - lia.
  - pose proof (py_len_pos data Hne); lia.
  - unfold emax, prec; lia.
  - exists avg; split; [exact Ha|exact Hb].
Qed.

Lemma sq_dev_bnd avg x :
  bnd 10 avg -> canon avg -> Z.abs x < 2 ^ 53 ->
  exists f, sq_dev avg x = Ok f /\ bnd 78 f /\ item_ok f.
Proof.
  intros Ha Ca Hx.
  pose proof (sq_dev_spec avg x Ca) as Hi.
  unfold sq_dev in Hi |- *.
  destruct (py_float_of_int_bnd x 53 Hx ltac:(unfold emax, prec; lia)) as (fx & Hfx & Bfx).
  rewrite Hfx in Hi |- *; cbn [bind] in Hi |- *.
  assert (Bs : bnd 12 (fsub fx avg)).
  { apply (fsub_bnd 10); [eapply bnd_mono; [|exact Bfx]; lia|exact Ha|
                          unfold emin, emax, prec; lia|unfold emax, prec; lia]. }
  destruct (py_pow2_bnd 12 78 _ Bs ltac:(unfold emin, emax, prec; lia)
              ltac:(unfold emax, prec; lia)) as (f & Hf & Bf).
  rewrite Hf in Hi.
  exists f; split; [exact Hf|split; [exact Bf|exact Hi]].
Qed.

Lemma forecast_stddev_bnd data avg :
  hist_bounded data -> bnd 10 avg -> canon avg ->
  exists sd, forecast_stddev data avg = Ok sd /\ bnd 652 sd.
Proof.
  intros (Hne & Hl & Hx) Ha Ca; unfold forecast_stddev, forecast_variance.
  destruct (py_map_ok (sq_dev avg) (fun f => bnd 78 f /\ item_ok f) data)
    as (sqs & Hsqs & Psqs & Lsqs).
  { intros x Hin; apply sq_dev_bnd; [exact Ha|exact Ca|].
    rewrite Forall_forall in Hx; apply Hx, Hin. }
  rewrite Hsqs; cbn [bind].
  pose proof (py_len_pos data Hne) as Hn0.
  assert (Hn1 : py_len data <= 256) by (unfold py_len; lia).
  destruct (py_float_of_int_bnd (py_len data) 9) as (nf & Hnf & Bnf);
    [rewrite Z.abs_eq by lia; change (2 ^ 9) with 512; lia|unfold emax, prec; lia|].
  destruct (py_float_of_int_pos _ _ Hn0 Hnf) as (mn & en & ->).
  assert (Hen : -52 <= en).
  { destruct (py_len data) as [|p|p] eqn:Ep; try lia.
    exact (py_float_of_int_exp p false mn en Hnf). }
  rewrite Hnf; cbn [bind py_float_truediv].
  assert (Bsum : bnd 598 (py_sum_floats sqs)).
  { eapply bnd_mono; [|apply (py_sum_floats_bnd 78)].
    - rewrite Lsqs; lia.
    - eapply Forall_impl; [|exact Psqs]; simpl; tauto.
    - unfold emin, emax, prec; lia.
    - rewrite Lsqs; unfold emax, prec; lia. }
  assert (Ssum : sgn_ok false (py_sum_floats sqs)).
  { apply py_sum_floats_nonneg; eapply Forall_impl; [|exact Psqs]; simpl; tauto. }
  assert (Bv : bnd 651 (fdiv (py_sum_floats sqs) (S754_finite false mn en))).
  { apply (fdiv_bnd 598); [exact Bsum|unfold emin, emax, prec; lia|unfold emax, prec; lia]. }
  destruct (py_sqrt_bnd 651 _ Bv (fdiv_nonneg _ _ _ Ssum) ltac:(lia)
              ltac:(unfold emax, prec; lia)) as (sd & Hsd & Bsd).
  exists sd; split; [exact Hsd|exact Bsd].
Qed.

(** On a bounded history [forecast_on] returns a response: no float
    overflows. *)
Lemma forecast_on_total s data :
  hist_bounded data -> exists r, forecast_on s data = Ok r.
Proof.
  intros Hd; unfold forecast_on.
  destruct (forecast_avg_bnd data Hd) as (avg & Ha & Ba); rewrite Ha; cbn [bind].
  pose proof (py_int_truediv_canon _ _ _ Ha) as Ca.
  destruct (forecast_stddev_bnd data avg Hd Ba Ca) as (sd & Hsd & Bsd); rewrite Hsd; cbn [bind].
  destruct (py_round_bnd 652 sd Bsd ltac:(lia)) as (r1 & Hr1 & Br1); rewrite Hr1; cbn [bind].
  assert (2 ^ (53 + 652) < 2 ^ 706) by (apply Z.pow_lt_mono_r; lia).
  assert (2 < 2 ^ 706) by reflexivity.
  destruct (py_float_of_int_bnd (Z.max 2 r1) 706) as (fs & Hfs & Bfs);
    [lia|unfold emax, prec; lia|].
  rewrite Hfs; cbn [bind].
  rewrite float_of_small_lead_time, float_of_small_14.
  assert (B7 : bnd 646 (fmul avg (S754_finite false 7881299347898368 (-50)))).
  { apply (fmul_bnd 10 (-50)); [exact Ba|split; [reflexivity|lia]|
                                unfold emin, emax, prec; lia|unfold emax, prec; lia]. }
  assert (B14 : bnd 15 (fmul avg (S754_finite false 7881299347898368 (-49)))).
  { apply (fmul_bnd 10 (-49)); [exact Ba|split; [reflexivity|lia]|
                                unfold emin, emax, prec; lia|unfold emax, prec; lia]. }
  assert (Brp : bnd 656 (fadd (fmul avg (S754_finite false 7881299347898368 (-50))) fs)).
  { apply (fadd_bnd 654); [eapply bnd_mono; [|exact B7]; lia|eapply bnd_mono; [|exact Bfs]; lia|
                     unfold emin, emax, prec; lia|unfold emax, prec; lia]. }
  destruct (py_round_bnd 656 _ Brp ltac:(lia)) as (rp & Hrp & _); rewrite Hrp; cbn [bind].
  destruct (py_round_bnd 15 _ B14 ltac:(lia)) as (q & Hq & _); rewrite Hq; cbn [bind].
  eexists; reflexivity.
Qed.

Lemma valid_random_sample_bounded rs : valid_random_sample rs -> hist_bounded rs.
Proof.
  intros [Hl Hx]; split; [intros ->; discriminate|split; [lia|]].
  eapply Forall_impl; [|exact Hx]; simpl; intros x Hb.
  assert (5 < 2 ^ 53) by reflexivity. lia.
Qed.

(** * Claims *)

Ltac solve_valid_sample :=
  unfold valid_random_sample, zeros_sample, fives_sample; simpl;
  split; [reflexivity|repeat (constructor; [lia|]); constructor].

(** ** C1 *)

(** C1 (counterexample): with an empty history, forecast does not fail;
    it returns a forecast computed on the random substitute, here the
    valid draw of thirty zeros. *)
Lemma C1_counterexample :
  valid_random_sample zeros_sample /\
  forecast zeros_sample (mkForecastRequest "reagent-1" []) =
    Ok (mkForecastResponse "reagent-1" 5 2 2).
Proof. split; [solve_valid_sample|vm_compute; reflexivity]. Qed.

(** C1 (amended): an empty history is replaced by the thirty random draws
    in 0..5 and the forecast is computed on them exactly as on a supplied
    history; every such sample gives a response (no error at all), which
    echoes the sku and has [safety_stock >= 2], [reorder_point >= 0] and
    [recommended_reorder_qty >= 5]. *)
Theorem C1_empty_history_uses_sample rs s :
  valid_random_sample rs ->
  forecast rs (mkForecastRequest s []) = forecast_on s rs /\
  exists r, forecast rs (mkForecastRequest s []) = Ok r /\
    resp_sku r = s /\ 2 <= safety_stock r /\ 0 <= reorder_point r /\
    5 <= recommended_reorder_qty r.
Proof.
  intros Hrs; split; [reflexivity|].
  unfold forecast; cbn [forecast_data last_30d_consumption sku].
  assert (Hne : rs <> []) by (destruct Hrs as [Hl _]; intros ->; discriminate).
  destruct (forecast_on_total s rs (valid_random_sample_bounded rs Hrs)) as (r & E).
  pose proof (forecast_on_spec s rs Hne) as H; rewrite E in H.
  destruct H as [Hs Hrp].
  destruct (forecast_on_ok _ _ _ E)
    as (avg & sd & r1 & fs & r3 & _ & _ & _ & Hsf & _ & _ & _ & Hq & _).
  exists r; split; [exact E|].
  split; [exact Hs|]. split; [lia|]. split; [|lia].
  apply Hrp; destruct Hrs as [_ Hrs]; eapply Forall_impl; [|exact Hrs]; simpl; lia.
Qed.

Lemma C1_empty_history_uses_sample_witness :
  valid_random_sample zeros_sample /\
  forecast zeros_sample (mkForecastRequest "reagent-1" []) =
    forecast_on "reagent-1" zeros_sample /\
  exists r, forecast zeros_sample (mkForecastRequest "reagent-1" []) = Ok r /\
    resp_sku r = "reagent-1"%string /\ 2 <= safety_stock r /\
    0 <= reorder_point r /\ 5 <= recommended_reorder_qty r.
Proof.
  split; [solve_valid_sample|].
  apply (C1_empty_history_uses_sample zeros_sample "reagent-1").
  solve_valid_sample.
Defined.

(** ** C2 *)

(** C2 (counterexample): two calls with the same request carrying an
    empty history differ when the random draws differ (thirty zeros, then
    thirty fives). *)
Lemma C2_counterexample :
  valid_random_sample zeros_sample /\ valid_random_sample fives_sample /\
  forecast zeros_sample (mkForecastRequest "reagent-1" []) =
    Ok (mkForecastResponse "reagent-1" 5 2 2) /\
  forecast fives_sample (mkForecastRequest "reagent-1" []) =
    Ok (mkForecastResponse "reagent-1" 70 2 37).
Proof.
  split; [solve_valid_sample|]. split; [solve_valid_sample|].
  split; vm_compute; reflexivity.
Qed.

(** C2 (amended): for a request with a non-empty history the result does
    not depend on the random draws: two calls with that request give the
    same result. *)
Theorem C2_deterministic_nonempty rs1 rs2 req :
  last_30d_consumption req <> [] ->
  forecast rs1 req = forecast rs2 req.
Proof.
  intros H; unfold forecast, forecast_data.
  destruct (last_30d_consumption req); [congruence|reflexivity].
Qed.

Lemma C2_deterministic_nonempty_witness :
  last_30d_consumption (mkForecastRequest "reagent-1" [3; 1; 4]) <> [] /\
  forecast zeros_sample (mkForecastRequest "reagent-1" [3; 1; 4]) =
    forecast fives_sample (mkForecastRequest "reagent-1" [3; 1; 4]).
Proof.
  split; [simpl; discriminate|].
  apply C2_deterministic_nonempty; simpl; discriminate.
Defined.

(** ** C3 *)

(** C3 (counterexample): the history [-10] is accepted and gives the
    negative reorder point -68. *)
Lemma C3_counterexample :
  forecast [] (mkForecastRequest "reagent-1" [-10]) =
    Ok (mkForecastResponse "reagent-1" 5 2 (-68)).
Proof. vm_compute; reflexivity. Qed.

(** C3 (amended): for a history of non-negative integers (an empty one
    included, whose random substitute is non-negative), every response has
    [safety_stock >= 2], [reorder_point >= 0] and
    [recommended_reorder_qty >= 5]. *)
Theorem C3_nonneg_fields rs req r :
  valid_random_sample rs ->
  Forall (fun x => 0 <= x) (last_30d_consumption req) ->
  forecast rs req = Ok r ->
  2 <= safety_stock r /\ 0 <= reorder_point r /\ 5 <= recommended_reorder_qty r.
Proof.
  intros Hrs Hnn E; unfold forecast in E.
  pose proof (forecast_on_spec (sku req) _ (forecast_data_nonempty rs req Hrs)) as H.
  rewrite E in H; destruct H as [_ Hrp].
  destruct (forecast_on_ok _ _ _ E) as (avg & sd & r1 & fs & r3 & _ & _ & _ & Hsf & _ & _ & _ & Hq & _).
  split; [lia|]. split; [|lia].
  apply Hrp, forecast_data_nonneg; assumption.
Qed.

Lemma C3_nonneg_fields_witness :
  valid_random_sample zeros_sample /\
  Forall (fun x => 0 <= x) (last_30d_consumption (mkForecastRequest "reagent-1" [5; 0; 9])) /\
  forecast zeros_sample (mkForecastRequest "reagent-1" [5; 0; 9]) =
    Ok (mkForecastResponse "reagent-1" 65 4 37) /\
  2 <= 4 /\ 0 <= 37 /\ 5 <= 65.
Proof.
  split; [solve_valid_sample|].
  split; [simpl; repeat (constructor; [lia|]); constructor|].
  split; [vm_compute; reflexivity|].
  apply (C3_nonneg_fields zeros_sample (mkForecastRequest "reagent-1" [5; 0; 9])
           (mkForecastResponse "reagent-1" 65 4 37)).
  - solve_valid_sample.
  - simpl; repeat (constructor; [lia|]); constructor.
  - vm_compute; reflexivity.
Defined.

(** ** C4 *)

(** C4 (counterexample): a history with a negative quantity is not
    rejected; a forecast is returned. *)
Lemma C4_counterexample :
  forecast [] (mkForecastRequest "reagent-1" [4; -2; 7]) =
    Ok (mkForecastResponse "reagent-1" 42 4 25).
Proof. vm_compute; reflexivity. Qed.

(** C4 (amended): [forecast] does not validate the quantities: a history
    containing a negative quantity is processed like any other and yields a
    response echoing the sku, unless a floating-point overflow raises
    [OverflowError]; there is no InvalidInput error. *)
Theorem C4_negative_accepted rs req :
  (exists x, In x (last_30d_consumption req) /\ x < 0) ->
  ok_or_overflow (fun r => resp_sku r = sku req) (forecast rs req).
Proof.
  intros (x & Hin & _); unfold forecast.
  assert (Hne : forecast_data rs req <> []).
  { unfold forecast_data; destruct (last_30d_consumption req); [contradiction|discriminate]. }
  eapply ok_or_overflow_weaken; [|apply forecast_on_spec, Hne].
  intros r [Hs _]; exact Hs.
Qed.

Lemma C4_negative_accepted_witness :
  (exists x, In x (last_30d_consumption (mkForecastRequest "reagent-1" [4; -2; 7])) /\ x < 0) /\
  ok_or_overflow (fun r => resp_sku r = "reagent-1"%string)
    (forecast [] (mkForecastRequest "reagent-1" [4; -2; 7])).
Proof.
  split; [exists (-2); simpl; split; [auto|lia]|].
  apply (C4_negative_accepted [] (mkForecastRequest "reagent-1" [4; -2; 7])).
  exists (-2); simpl; split; [auto|lia].
Defined.

(** ** C5 *)

(** C5 (counterexample): for 28 days summing to 115, the exact mean times
    14 is 57.5, which rounds to 58 under either rounding convention, while
    the binary64 product [115 / 28 * 14] is 57.49999999999999 and the code
    recommends 57. *)
Lemma C5_counterexample :
  forecast [] (mkForecastRequest "reagent-1" tie_history) =
    Ok (mkForecastResponse "reagent-1" 57 2 31) /\
  spec_forecast HalfEven tie_history = (2, 31, 58) /\
  spec_forecast HalfAway tie_history = (2, 31, 58).
Proof. split; [|split]; vm_compute; reflexivity. Qed.

(** C5 (amended): for a non-empty history, a response is computed by the
    formulas in binary64 arithmetic: [avg] is the binary64 quotient
    [sum / len], [stddev] the square root of the binary64 population
    variance (its [sum] of squared deviations is CPython's compensated
    float summation, [py_sum_floats]), [safety_stock = max(2, r1)], [reorder_point = r2] and
    [reorder_qty = max(5, r3)], where [r1], [r2], [r3] are the values of
    the finite floats [stddev], [avg * 7 + safety_stock] and [avg * 14]
    rounded half to even (lead time 7 days). *)
Theorem C5_formulas_binary64 rs req r :
  last_30d_consumption req <> [] ->
  forecast rs req = Ok r ->
  let h := last_30d_consumption req in
  exists avg sd fs r1 r3,
    forecast_avg h = Ok avg /\
    forecast_stddev h avg = Ok sd /\
    lead_time_days = 7 /\
    finite_f sd /\ rounds_half_even (fvalue sd) r1 /\
    safety_stock r = Z.max 2 r1 /\
    py_float_of_int (safety_stock r) = Ok fs /\
    finite_f (fadd (fmul avg (float_of_small lead_time_days)) fs) /\
    rounds_half_even (fvalue (fadd (fmul avg (float_of_small lead_time_days)) fs))
      (reorder_point r) /\
    finite_f (fmul avg (float_of_small 14)) /\
    rounds_half_even (fvalue (fmul avg (float_of_small 14))) r3 /\
    recommended_reorder_qty r = Z.max 5 r3.
Proof.
  intros Hne E h.
  assert (Hd : forecast_data rs req = h).
  { unfold forecast_data, h; destruct (last_30d_consumption req); [congruence|reflexivity]. }
  unfold forecast in E; rewrite Hd in E.
  destruct (forecast_on_ok _ _ _ E)
    as (avg & sd & r1 & fs & r3 & Ha & Hsd & H1 & Hs & Hfs & H2 & H3 & Hq & _).
  exists avg, sd, fs, r1, r3.
  repeat split; try assumption;
    eauto using py_round_finite, py_round_half_even.
Qed.

Lemma C5_formulas_binary64_witness :
  last_30d_consumption (mkForecastRequest "reagent-1" tie_history) <> [] /\
  forecast [] (mkForecastRequest "reagent-1" tie_history) =
    Ok (mkForecastResponse "reagent-1" 57 2 31) /\
  exists avg sd fs r1 r3,
    forecast_avg tie_history = Ok avg /\
    forecast_stddev tie_history avg = Ok sd /\
    lead_time_days = 7 /\
    finite_f sd /\ rounds_half_even (fvalue sd) r1 /\
    2 = Z.max 2 r1 /\
    py_float_of_int 2 = Ok fs /\
    finite_f (fadd (fmul avg (float_of_small lead_time_days)) fs) /\
    rounds_half_even (fvalue (fadd (fmul avg (float_of_small lead_time_days)) fs)) 31 /\
    finite_f (fmul avg (float_of_small 14)) /\
    rounds_half_even (fvalue (fmul avg (float_of_small 14))) r3 /\
    57 = Z.max 5 r3.
Proof.
  split; [unfold tie_history; simpl; discriminate|].
  split; [vm_compute; reflexivity|].
  apply (C5_formulas_binary64 [] (mkForecastRequest "reagent-1" tie_history)
           (mkForecastResponse "reagent-1" 57 2 31)).
  - unfold tie_history; simpl; discriminate.
  - vm_compute; reflexivity.
Defined.

(** ** C6 *)

(** C6: every response of [forecast] has [safety_stock >= 2]; in
    particular for every non-empty history of non-negative integers. *)
Theorem C6_safety_stock_min rs req r :
  forecast rs req = Ok r -> 2 <= safety_stock r.
Proof.
  intros E.
  destruct (forecast_on_ok _ _ _ E) as (avg & sd & r1 & fs & r3 & _ & _ & _ & Hs & _).
  lia.
Qed.

Lemma C6_safety_stock_min_witness :
  forecast [] (mkForecastRequest "reagent-1" [0; 1; 0; 2]) =
    Ok (mkForecastResponse "reagent-1" 10 2 7) /\ 2 <= 2.
Proof.
  split; [vm_compute; reflexivity|].
  apply (C6_safety_stock_min [] (mkForecastRequest "reagent-1" [0; 1; 0; 2])
           (mkForecastResponse "reagent-1" 10 2 7)).
  vm_compute; reflexivity.
Defined.

(** ** C7 *)

(** C7: every response of [forecast] has [recommended_reorder_qty >= 5];
    in particular for every non-empty history of integers. *)
Theorem C7_reorder_qty_min rs req r :
  forecast rs req = Ok r -> 5 <= recommended_reorder_qty r.
Proof.
  intros E.
  destruct (forecast_on_ok _ _ _ E)
    as (avg & sd & r1 & fs & r3 & _ & _ & _ & _ & _ & _ & _ & Hq & _).
  lia.
Qed.

Lemma C7_reorder_qty_min_witness :
  forecast [] (mkForecastRequest "reagent-1" [-3; 1]) =
    Ok (mkForecastResponse "reagent-1" 5 2 (-5)) /\ 5 <= 5.
Proof.
  split; [vm_compute; reflexivity|].
  apply (C7_reorder_qty_min [] (mkForecastRequest "reagent-1" [-3; 1])
           (mkForecastResponse "reagent-1" 5 2 (-5))).
  vm_compute; reflexivity.
Defined.

(** ** C8 *)

(** C8: thirty zeros give [avg = 0], [stddev = 0], safety stock 2, reorder
    point 2 and reorder quantity 5, whatever the request's sku and the
    random draws. *)
Theorem C8_thirty_zeros rs s :
  forecast_avg (repeat 0 30) = Ok (S754_zero false) /\
  forecast_stddev (repeat 0 30) (S754_zero false) = Ok (S754_zero false) /\
  forecast rs (mkForecastRequest s (repeat 0 30)) =
    Ok (mkForecastResponse s 5 2 2).
Proof. split; [|split]; vm_compute; reflexivity. Qed.

(** ** C9 *)

(** C9: the reorder point can be smaller than the reorder quantity: thirty
    days of 5 give reorder point 37 and reorder quantity 70. *)
Theorem C9_reorder_point_below_qty :
  exists h r,
    h <> [] /\ Forall (fun x => 0 <= x) h /\
    (forall rs, forecast rs (mkForecastRequest "reagent-1" h) = Ok r) /\
    reorder_point r < recommended_reorder_qty r.
Proof.
  exists (repeat 5 30), (mkForecastResponse "reagent-1" 70 2 37).
  split; [discriminate|].
  split; [simpl; repeat (constructor; [lia|]); constructor|].
  split; [intros rs; vm_compute; reflexivity|].
  simpl; lia.
Qed.

(** ** C10 *)

(** C10 (counterexample): the history [10^308] makes [avg * 7] overflow to
    infinity, and [round] raises [OverflowError]. *)
Lemma C10_counterexample :
  forecast [] (mkForecastRequest "reagent-1" [10 ^ 308]) = Err OverflowError.
Proof. vm_compute; reflexivity. Qed.

(** C10 (amended): for every non-empty history of integers, negative ones
    included, [forecast] either returns a response whose sku is the
    request's, with three integer fields, or raises [OverflowError] when a
    floating-point value overflows; it raises no other exception, and a
    history of at most 256 entries, each of magnitude below [2^53], always
    gets a response. *)
Theorem C10_ok_or_overflow rs req :
  last_30d_consumption req <> [] ->
  ok_or_overflow (fun r => resp_sku r = sku req) (forecast rs req) /\
  (hist_bounded (last_30d_consumption req) ->
   exists r, forecast rs req = Ok r /\ resp_sku r = sku req).
Proof.
  intros Hne.
  assert (Hd : forecast_data rs req = last_30d_consumption req).
  { unfold forecast_data; destruct (last_30d_consumption req); [congruence|reflexivity]. }
  assert (Hs : ok_or_overflow (fun r => resp_sku r = sku req) (forecast rs req)).
  { unfold forecast; rewrite Hd.
    eapply ok_or_overflow_weaken; [|apply forecast_on_spec, Hne].
    intros r [Hs _]; exact Hs. }
  split; [exact Hs|intros Hb].
  unfold forecast in Hs |- *; rewrite Hd in Hs |- *.
  destruct (forecast_on_total (sku req) _ Hb) as (r & E).
  rewrite E in Hs; exists r; split; [exact E|exact Hs].
Qed.

Lemma C10_ok_or_overflow_witness :
  last_30d_consumption (mkForecastRequest "reagent-1" [10 ^ 308]) <> [] /\
  ok_or_overflow (fun r => resp_sku r = "reagent-1"%string)
    (forecast [] (mkForecastRequest "reagent-1" [10 ^ 308])) /\
  (hist_bounded (last_30d_consumption (mkForecastRequest "reagent-1" [10 ^ 308])) ->
   exists r, forecast [] (mkForecastRequest "reagent-1" [10 ^ 308]) = Ok r /\
     resp_sku r = "reagent-1"%string).
Proof.
  split; [simpl; discriminate|].
  apply (C10_ok_or_overflow [] (mkForecastRequest "reagent-1" [10 ^ 308])).
  simpl; discriminate.
Defined.

(** * Properties of the other endpoints *)


Lemma py_lower_char_idem c : py_lower_char (py_lower_char c) = py_lower_char c.
Proof.
  destruct c as [b0 b1 b2 b3 b4 b5 b6 b7].
  destruct b0, b1, b2, b3, b4, b5, b6, b7; reflexivity.
Qed.

Lemma py_lower_idem s : py_lower (py_lower s) = py_lower s.
Proof. induction s as [|c s IH]; simpl; [reflexivity | now rewrite py_lower_char_idem, IH]. Qed.

Lemma role_permissions_nonempty r :
  dict_get role_permissions r [] <> [] <-> In r user_role_names.
Proof.
  unfold dict_get, role_permissions, user_role_names; simpl.
  repeat match goal with
         | |- context [String.eqb r ?k] => destruct (String.eqb_spec r k)
         end; subst; simpl; split; intros H; try congruence;
    intuition congruence.
Qed.

Lemma substring_0_length n s :
  String.length (substring 0 n s) = Nat.min n (String.length s).
Proof.
  revert n; induction s as [|c s IH]; intros [|n]; simpl; auto.
Qed.

Lemma substring_0_prefix n s : String.prefix (substring 0 n s) s = true.
Proof.
  revert n; induction s as [|c s IH]; intros [|n]; simpl; auto.
  destruct (ascii_dec c c) as [_|E]; [apply IH | now destruct E].
Qed.

Lemma first_key_in_cases ks c d : first_key_in ks c d = d \/ In (first_key_in ks c d) ks.
Proof.
  induction ks as [|k ks IH]; simpl; [auto|].
  destruct (py_str_contains k (py_lower c)); [right; left; reflexivity|].
  destruct IH as [H|H]; [left|right; right]; auto.
Qed.

(** X1: [mock_login] answers with the submitted email and the lower-cased role, and grants a non-empty permission list exactly when the lower-cased role is one of the six role names of [UserRole]; any other role gets []. *)
Theorem mock_login_role_permissions (p : LoginRequest) :
  lr_user (mock_login p) = login_email p /\
  lr_role (mock_login p) = py_lower (login_role p) /\
  (lr_permissions (mock_login p) <> [] <-> In (py_lower (login_role p)) user_role_names).
Proof.
  unfold mock_login; simpl; split; [reflexivity|split; [reflexivity|]].
  apply role_permissions_nonempty.
Qed.

(** X2: Logging in again with the user and role that [mock_login] returned gives the same response: the returned role is already lower case. *)
Theorem mock_login_relogin (p : LoginRequest) :
  mock_login (mkLoginRequest (lr_user (mock_login p)) (lr_role (mock_login p))) = mock_login p.
Proof. unfold mock_login; simpl; now rewrite py_lower_idem. Qed.

(** X3: When the lower-cased message contains [inventory], [ai_ask] answers with the inventory hint, whatever other keywords the message contains, and echoes the first 300 characters of the message. *)
Theorem ai_ask_inventory_first (msg : ChatMessage)
  (H : py_str_contains "inventory" (py_lower (cm_content msg)) = true) :
  ai_ask msg = Some ("Insight: Current low stock items can be reviewed in Inventory > Alerts. Consider reordering high ABC-class reagents first." ++ newline ++ "You asked: " ++ substring 0 300 (cm_content msg))%string.
Proof. unfold ai_ask; simpl; rewrite H; reflexivity. Qed.

Lemma ai_ask_inventory_first_witness :
  py_str_contains "inventory" (py_lower "Any INVENTORY or finance news?") = true /\
  ai_ask (mkChatMessage "user" "Any INVENTORY or finance news?" None) =
  Some ("Insight: Current low stock items can be reviewed in Inventory > Alerts. Consider reordering high ABC-class reagents first." ++ newline ++ "You asked: " ++ substring 0 300 "Any INVENTORY or finance news?")%string.
Proof. split; [reflexivity | apply ai_ask_inventory_first; reflexivity]. Defined.

Lemma hints_lookup_key k :
  k = "lims"%string \/ In k (map fst hints) -> exists h, dict_lookup hints k = Some h /\ In (k, h) hints.
Proof.
  intros [E|E]; [|simpl in E; destruct E as [E|[E|[E|[E|[]]]]]];
    subst k; eexists; split; try reflexivity; unfold hints; simpl; auto 6.
Qed.

(** X5: [ai_ask] never fails on [hints[key]]: its answer is [Insight: ] with one of the four hints, a newline, [You asked: ] and the first min(300, len) characters of the message, a prefix of it. *)
Theorem ai_ask_answer_shape (msg : ChatMessage) :
  exists k h, In (k, h) hints /\
  ai_ask msg = Some ("Insight: " ++ h ++ newline ++ "You asked: " ++ substring 0 300 (cm_content msg))%string /\
  String.length (substring 0 300 (cm_content msg)) = Nat.min 300 (String.length (cm_content msg)) /\
  String.prefix (substring 0 300 (cm_content msg)) (cm_content msg) = true.
Proof.
  unfold ai_ask; cbv zeta.
  destruct (hints_lookup_key (first_key_in (map fst hints) (cm_content msg) "lims")
              (first_key_in_cases _ _ _)) as [h [L I]].
  rewrite L; exists (first_key_in (map fst hints) (cm_content msg) "lims"), h.
  split; [exact I|split; [reflexivity|]].
  split; [apply substring_0_length | apply substring_0_prefix].
Qed.

(** X4: When the lower-cased message contains none of the four hint keys, [ai_ask] answers with the lims hint. *)
Theorem ai_ask_default_lims (msg : ChatMessage)
  (H : forall k, In k (map fst hints) -> py_str_contains k (py_lower (cm_content msg)) = false) :
  ai_ask msg = Some ("Insight: 3 samples have abnormal results awaiting validation in Biochemistry." ++ newline ++ "You asked: " ++ substring 0 300 (cm_content msg))%string.
Proof.
  unfold ai_ask; simpl in *.
  rewrite !H by auto. reflexivity.
Qed.

Lemma ai_ask_default_lims_witness :
  (forall k, In k (map fst hints) -> py_str_contains k (py_lower "What is the TAT today?") = false) /\
  ai_ask (mkChatMessage "user" "What is the TAT today?" None) =
  Some ("Insight: 3 samples have abnormal results awaiting validation in Biochemistry." ++ newline ++ "You asked: " ++ substring 0 300 "What is the TAT today?")%string.
Proof.
  assert (Hk : forall k, In k (map fst hints) -> py_str_contains k (py_lower "What is the TAT today?") = false).
  { intros k Hk; simpl in Hk; destruct Hk as [<-|[<-|[<-|[<-|[]]]]]; reflexivity. }
  split; [exact Hk | apply ai_ask_default_lims; exact Hk].
Defined.



Lemma SFcompare_lt_le_trans x y z :
  SFcompare x y = Some Lt -> (SFcompare y z = Some Lt \/ SFcompare y z = Some Eq) ->
  SFcompare x z = Some Lt.
Proof.
  destruct x as [[]|[]| |[] mx ex], y as [[]|[]| |[] my ey], z as [[]|[]| |[] mz ez];
    simpl; intros H1 H2; try discriminate; try reflexivity;
    destruct H2 as [H2|H2]; try discriminate;
    change (Pos.compare_cont Eq) with Pos.compare in *;
    repeat match goal with
           | H : context [Z.compare ?a ?b] |- _ => destruct (Z.compare_spec a b); subst
           | |- context [Z.compare ?a ?b] => destruct (Z.compare_spec a b); subst
           | H : context [Pos.compare ?a ?b] |- _ => destruct (Pos.compare_spec a b); subst
           | |- context [Pos.compare ?a ?b] => destruct (Pos.compare_spec a b); subst
           end; simpl in *; try congruence; try lia.
Qed.

(** X6: When the value is above [ref_high], [add_result] flags the entry [H], whatever [ref_low] and the submitted flag are, sets [entered_at] to now and leaves every other field unchanged. *)
Theorem add_result_entry_high (e : ResultEntry) (now : Z) (hi : spec_float)
  (Hhi : re_ref_high e = Some hi) (Hgt : py_fgt (re_value e) hi = true) :
  add_result_entry e now =
  mkResultEntry (re_barcode e) (re_test_code e) (re_parameter e) (re_value e) (re_unit e)
    (re_ref_low e) (re_ref_high e) (Some FlagH) (re_entered_by e) (Some now).
Proof. unfold add_result_entry; rewrite Hhi, Hgt; reflexivity. Qed.


Lemma add_result_entry_high_witness :
  add_result_entry (sample_entry 250 70 110 (Some FlagCRIT)) 7 =
  mkResultEntry "BC001" "GLU" "Glucose" (float_of_small 250) "mg/dL"
    (Some (float_of_small 70)) (Some (float_of_small 110)) (Some FlagH) None (Some 7).
Proof. apply (add_result_entry_high (sample_entry 250 70 110 (Some FlagCRIT)) 7 (float_of_small 110)); reflexivity. Defined.

(** X7: With [ref_low <= ref_high], [add_result] flags a value below [ref_low] as [L], a value above [ref_high] as [H], and keeps the submitted flag otherwise. *)
Theorem add_result_entry_range (e : ResultEntry) (now : Z) (lo hi : spec_float)
  (Hlo : re_ref_low e = Some lo) (Hhi : re_ref_high e = Some hi)
  (Hrange : SFcompare lo hi = Some Lt \/ SFcompare lo hi = Some Eq) :
  re_abnormal_flag (add_result_entry e now) =
  if py_flt (re_value e) lo then Some FlagL
  else if py_fgt (re_value e) hi then Some FlagH
  else re_abnormal_flag e.
Proof.
  unfold add_result_entry; rewrite Hlo, Hhi; simpl.
  unfold py_flt, py_fgt in *.
  destruct (SFcompare (re_value e) lo) as [[]|] eqn:E1;
    [| rewrite (SFcompare_lt_le_trans _ _ _ E1 Hrange) | |];
    destruct (SFcompare (re_value e) hi) as [[]|]; reflexivity.

Qed.

Lemma add_result_entry_range_witness :
  re_abnormal_flag (add_result_entry (sample_entry 50 70 110 None) 7) = Some FlagL.
Proof.
  rewrite (add_result_entry_range _ 7 (float_of_small 70) (float_of_small 110));
    [reflexivity | reflexivity | reflexivity | left; reflexivity].
Defined.

(** X8: A nan value, or an entry with no reference bounds, keeps the submitted flag (for example [CRIT]) in [add_result]; [entered_at] is set to now. *)
Theorem add_result_entry_keeps_flag (e : ResultEntry) (now : Z)
  (H : re_value e = S754_nan \/ (re_ref_low e = None /\ re_ref_high e = None)) :
  re_abnormal_flag (add_result_entry e now) = re_abnormal_flag e /\
  re_entered_at (add_result_entry e now) = Some now.
Proof.
  unfold add_result_entry, py_flt, py_fgt; simpl.
  destruct H as [H|[H1 H2]]; [rewrite H|rewrite H1, H2]; split; try reflexivity.
  destruct (re_ref_low e), (re_ref_high e); reflexivity.
Qed.

Lemma add_result_entry_keeps_flag_witness :
  re_abnormal_flag (add_result_entry (mkResultEntry "BC001" "GLU" "Glucose" S754_nan "mg/dL"
    (Some (float_of_small 70)) (Some (float_of_small 110)) (Some FlagCRIT) None None) 7) = Some FlagCRIT /\
  re_entered_at (add_result_entry (mkResultEntry "BC001" "GLU" "Glucose" S754_nan "mg/dL"
    (Some (float_of_small 70)) (Some (float_of_small 110)) (Some FlagCRIT) None None) 7) = Some 7.
Proof. apply add_result_entry_keeps_flag; left; reflexivity. Defined.



Lemma update_first_none {A} (p : A -> bool) f l :
  (forall x, In x l -> p x = false) -> update_first p f l = (l, false).
Proof.
  induction l as [|x xs IH]; intros H; simpl; [reflexivity|].
  rewrite H by (left; reflexivity).
  rewrite IH by (intros y Hy; apply H; right; exact Hy); reflexivity.
Qed.

Lemma update_first_split {A} (p : A -> bool) f pre d post :
  (forall x, In x pre -> p x = false) -> p d = true ->
  update_first p f (pre ++ d :: post) = (pre ++ f d :: post, true).
Proof.
  induction pre as [|x xs IH]; intros H Hd; simpl; [rewrite Hd; reflexivity|].
  rewrite H by (left; reflexivity).
  rewrite IH by (auto; intros y Hy; apply H; right; exact Hy); reflexivity.
Qed.

Lemma list_first_match {A} (p : A -> bool) l :
  (forall x, In x l -> p x = false) \/
  exists pre d post, l = pre ++ d :: post /\ (forall x, In x pre -> p x = false) /\ p d = true.
Proof.
  induction l as [|x xs IH]; [left; intros _ []|].
  destruct (p x) eqn:Px.
  - right; exists [], x, xs; simpl; split; [reflexivity|split; [intros _ []|exact Px]].
  - destruct IH as [H|(pre & d & post & E & H & Hd)].
    + left; intros y [<-|Hy]; auto.
    + right; exists (x :: pre), d, post; subst; simpl; split; [reflexivity|split; auto].
      intros y [<-|Hy]; auto.
Qed.

Lemma find_split {A} (p : A -> bool) pre d post :
  (forall x, In x pre -> p x = false) -> p d = true -> find p (pre ++ d :: post) = Some d.
Proof.
  induction pre as [|x xs IH]; intros H Hd; simpl; [rewrite Hd; reflexivity|].
  rewrite H by (left; reflexivity); apply IH; auto.
  intros y Hy; apply H; right; exact Hy.
Qed.

Lemma find_all_false {A} (p : A -> bool) l :
  (forall x, In x l -> p x = false) -> find p l = None.
Proof.
  induction l as [|x xs IH]; intros H; simpl; [reflexivity|].
  rewrite H by (left; reflexivity); apply IH; auto.
  intros y Hy; apply H; right; exact Hy.
Qed.

Lemma opt_str_truthy_spec o :
  opt_str_truthy o = true <-> exists s, o = Some s /\ s <> ""%string.
Proof.
  destruct o as [s|]; simpl.
  - destruct (String.eqb_spec s ""); simpl; split; intros H.
    + discriminate.
    + destruct H as (s' & E & Hs); injection E as <-; contradiction.
    + exists s; auto.
    + reflexivity.
  - split; [discriminate | intros (s & E & _); discriminate].
Qed.

Lemma in_worksheets samples dep d :
  In d (worksheets (Some samples) dep) <->
  In d samples /\
  (forall dep', dep = Some dep' -> dep' <> ""%string -> In dep' (sd_departments d)) /\
  (sd_status d = "received"%string \/ sd_status d = "in_progress"%string).
Proof.
  unfold worksheets; rewrite filter_In, andb_true_iff.
  assert (Hst : existsb (String.eqb (sd_status d)) ["received"; "in_progress"]%string = true <->
                (sd_status d = "received"%string \/ sd_status d = "in_progress"%string)).
  { simpl; rewrite orb_false_r, orb_true_iff, !String.eqb_eq; reflexivity. }
  rewrite Hst.
  assert (Hdep : (if opt_str_truthy dep then
                    match dep with
                    | Some dep0 => existsb (String.eqb dep0) (sd_departments d)
                    | None => true end else true) = true <->
                 (forall dep', dep = Some dep' -> dep' <> ""%string -> In dep' (sd_departments d))).
  { destruct dep as [s|]; simpl.
    - destruct (String.eqb_spec s ""); simpl.
      + split; [intros _ dep' E Hn; injection E as <-; contradiction | reflexivity].
      + rewrite existsb_exists; split.
        * intros (x & Hx & Ex) dep' E _; injection E as <-.
          apply String.eqb_eq in Ex; subst; exact Hx.
        * intros H; exists s; split; [apply H; auto | apply String.eqb_refl].
    - split; [intros _ dep' E; discriminate | reflexivity]. }
  rewrite Hdep; tauto.
Qed.

(** X10: [reject_sample] with a barcode no sample has answers 404 [Sample not found] and leaves the collection unchanged; without a database it answers 500 [Database not configured]. *)
Theorem reject_sample_not_found (samples : list SampleDoc) (barcode reason : string) (now : Z)
  (H : forall d, In d samples -> sd_barcode d <> barcode) :
  reject_sample (Some samples) barcode reason now =
    (Some samples, ApiErr (HTTPException 404 "Sample not found")) /\
  reject_sample None barcode reason now = (None, ApiErr db_not_configured).
Proof.
  split; [|reflexivity].
  unfold reject_sample; rewrite update_first_none; [reflexivity|].
  intros d Hd; apply String.eqb_neq, H, Hd.
Qed.


Lemma reject_sample_not_found_witness :
  reject_sample (Some [sample_doc "BC001" "received"]) "BC404" "haemolysed" 9 =
    (Some [sample_doc "BC001" "received"], ApiErr (HTTPException 404 "Sample not found")) /\
  reject_sample None "BC404" "haemolysed" 9 = (None, ApiErr db_not_configured).
Proof.
  apply reject_sample_not_found.
  intros d [<-|[]]; discriminate.
Defined.

Lemma reject_sample_split_eq (pre post : list SampleDoc) (d : SampleDoc)
  (barcode reason : string) (now : Z)
  (Hpre : forall x, In x pre -> sd_barcode x <> barcode) (Hd : sd_barcode d = barcode) :
  reject_sample (Some (pre ++ d :: post)) barcode reason now =
  (Some (pre ++ mkSampleDoc barcode (sd_departments d) "rejected" (Some reason)
                  (sd_received_at d) (Some now) :: post),
   ApiOk (barcode, "rejected"%string)).
Proof.
  unfold reject_sample.
  rewrite update_first_split; [rewrite Hd; reflexivity| |].
  - intros x Hx; apply String.eqb_neq, Hpre, Hx.
  - apply String.eqb_eq, Hd.
Qed.

(** X11: [reject_sample] rejects only the first sample with the barcode (status, reason, updated_at), leaves every other sample unchanged, including later ones with the same barcode, and answers the barcode with status [rejected]. *)
Theorem reject_sample_first_match (pre post : list SampleDoc) (d : SampleDoc)
  (barcode reason : string) (now : Z)
  (Hpre : forall x, In x pre -> sd_barcode x <> barcode) (Hd : sd_barcode d = barcode) :
  reject_sample (Some (pre ++ d :: post)) barcode reason now =
  (Some (pre ++ mkSampleDoc barcode (sd_departments d) "rejected" (Some reason)
                  (sd_received_at d) (Some now) :: post),
   ApiOk (barcode, "rejected"%string)).
Proof. apply reject_sample_split_eq; assumption. Qed.

Lemma reject_sample_first_match_witness :
  reject_sample (Some ([sample_doc "BC001" "received"] ++ sample_doc "BC002" "received" :: [sample_doc "BC002" "in_progress"])) "BC002" "haemolysed" 9 =
  (Some ([sample_doc "BC001" "received"] ++ mkSampleDoc "BC002" ["biochemistry"]%string "rejected" (Some "haemolysed"%string) (Some 1) (Some 9) :: [sample_doc "BC002" "in_progress"]),
   ApiOk ("BC002"%string, "rejected"%string)).
Proof.
  apply (reject_sample_first_match [sample_doc "BC001" "received"] [sample_doc "BC002" "in_progress"] (sample_doc "BC002" "received")).
  - intros x [<-|[]]; discriminate.
  - reflexivity.
Defined.

(** X12: [worksheets] treats the empty department string like no department, returns [] without a database, and returns only stored samples with status [received] or [in_progress] that have a test of the requested department. *)
Theorem worksheets_filter (db : option (list SampleDoc)) (dep : option string) :
  worksheets db (Some ""%string) = worksheets db None /\
  worksheets None dep = [] /\
  forall samples d, db = Some samples -> In d (worksheets db dep) ->
    In d samples /\
    (forall dep', dep = Some dep' -> dep' <> ""%string -> In dep' (sd_departments d)) /\
    (sd_status d = "received"%string \/ sd_status d = "in_progress"%string).
Proof.
  split; [destruct db; reflexivity|split; [reflexivity|]].
  intros samples d -> Hd; apply in_worksheets, Hd.
Qed.

(** X13: After [reject_sample] on a barcode held by one sample, no worksheet lists that barcode, for any department. *)
Theorem reject_sample_leaves_worksheets (pre post : list SampleDoc) (d : SampleDoc)
  (barcode reason : string) (now : Z) (dep : option string)
  (Hpre : forall x, In x pre -> sd_barcode x <> barcode)
  (Hpost : forall x, In x post -> sd_barcode x <> barcode)
  (Hd : sd_barcode d = barcode) :
  Forall (fun x => sd_barcode x <> barcode)
    (worksheets (fst (reject_sample (Some (pre ++ d :: post)) barcode reason now)) dep).
Proof.
  rewrite reject_sample_split_eq by assumption; simpl.
  apply Forall_forall; intros x Hx; apply in_worksheets in Hx; destruct Hx as (Hx & _ & Hs).
  apply in_app_or in Hx; destruct Hx as [Hx|[<-|Hx]]; auto.
  simpl in Hs; destruct Hs; discriminate.
Qed.

Lemma reject_sample_leaves_worksheets_witness :
  Forall (fun x => sd_barcode x <> "BC002"%string)
    (worksheets (fst (reject_sample (Some ([sample_doc "BC001" "received"] ++ sample_doc "BC002" "received" :: [sample_doc "BC003" "in_progress"])) "BC002" "haemolysed" 9)) None).
Proof.
  apply (reject_sample_leaves_worksheets [sample_doc "BC001" "received"] [sample_doc "BC003" "in_progress"] (sample_doc "BC002" "received")).
  - intros x [<-|[]]; discriminate.
  - intros x [<-|[]]; discriminate.
  - reflexivity.
Defined.

(** X14: [add_result] sets the first sample with the entry's barcode to [in_progress], whatever its status was (a rejected or validated sample included), keeping its rejection reason; the sample then shows up in the worksheets. *)
Theorem add_result_reopens_sample (pre post : list SampleDoc) (d : SampleDoc)
  (barcode : string) (now : Z)
  (Hpre : forall x, In x pre -> sd_barcode x <> barcode) (Hd : sd_barcode d = barcode) :
  add_result_mark (pre ++ d :: post) barcode now =
    pre ++ mkSampleDoc barcode (sd_departments d) "in_progress" (sd_rejection_reason d)
             (sd_received_at d) (Some now) :: post /\
  In (mkSampleDoc barcode (sd_departments d) "in_progress" (sd_rejection_reason d)
        (sd_received_at d) (Some now))
     (worksheets (Some (add_result_mark (pre ++ d :: post) barcode now)) None).
Proof.
  assert (E : add_result_mark (pre ++ d :: post) barcode now =
    pre ++ mkSampleDoc barcode (sd_departments d) "in_progress" (sd_rejection_reason d)
             (sd_received_at d) (Some now) :: post).
  { unfold add_result_mark; rewrite update_first_split; [rewrite Hd; reflexivity| |].
    - intros x Hx; apply String.eqb_neq, Hpre, Hx.
    - apply String.eqb_eq, Hd. }
  split; [exact E|]; rewrite E.
  apply in_worksheets; split; [apply in_or_app; right; left; reflexivity|].
  split; [intros dep' Hn; discriminate | right; reflexivity].
Qed.

Lemma add_result_reopens_sample_witness :
  add_result_mark ([sample_doc "BC001" "received"] ++ rejected_sample :: []) "BC002" 12 =
    [sample_doc "BC001" "received"] ++ mkSampleDoc "BC002" ["biochemistry"]%string "in_progress" (Some "haemolysed"%string) (Some 1) (Some 12) :: [] /\
  In (mkSampleDoc "BC002" ["biochemistry"]%string "in_progress" (Some "haemolysed"%string) (Some 1) (Some 12))
     (worksheets (Some (add_result_mark ([sample_doc "BC001" "received"] ++ rejected_sample :: []) "BC002" 12)) None).
Proof.
  apply (add_result_reopens_sample [sample_doc "BC001" "received"] [] rejected_sample).
  - intros x [<-|[]]; discriminate.
  - reflexivity.
Defined.

(** X15: [validate_results] marks the first sample with the barcode [validated]; when that barcode is held by one sample, no worksheet lists it afterwards. *)
Theorem validate_leaves_worksheets (pre post : list SampleDoc) (d : SampleDoc)
  (barcode : string) (now : Z) (dep : option string)
  (Hpre : forall x, In x pre -> sd_barcode x <> barcode)
  (Hpost : forall x, In x post -> sd_barcode x <> barcode)
  (Hd : sd_barcode d = barcode) :
  validate_mark (pre ++ d :: post) barcode now =
    pre ++ mkSampleDoc barcode (sd_departments d) "validated" (sd_rejection_reason d)
             (sd_received_at d) (Some now) :: post /\
  Forall (fun x => sd_barcode x <> barcode)
    (worksheets (Some (validate_mark (pre ++ d :: post) barcode now)) dep).
Proof.
  assert (E : validate_mark (pre ++ d :: post) barcode now =
    pre ++ mkSampleDoc barcode (sd_departments d) "validated" (sd_rejection_reason d)
             (sd_received_at d) (Some now) :: post).
  { unfold validate_mark; rewrite update_first_split; [rewrite Hd; reflexivity| |].
    - intros x Hx; apply String.eqb_neq, Hpre, Hx.
    - apply String.eqb_eq, Hd. }
  split; [exact E|]; rewrite E.
  apply Forall_forall; intros x Hx; apply in_worksheets in Hx; destruct Hx as (Hx & _ & Hs).
  apply in_app_or in Hx; destruct Hx as [Hx|[<-|Hx]]; auto.
  simpl in Hs; destruct Hs; discriminate.
Qed.

Lemma validate_leaves_worksheets_witness :
  validate_mark ([sample_doc "BC001" "received"] ++ sample_doc "BC002" "in_progress" :: []) "BC002" 12 =
    [sample_doc "BC001" "received"] ++ mkSampleDoc "BC002" ["biochemistry"]%string "validated" None (Some 1) (Some 12) :: [] /\
  Forall (fun x => sd_barcode x <> "BC002"%string)
    (worksheets (Some (validate_mark ([sample_doc "BC001" "received"] ++ sample_doc "BC002" "in_progress" :: []) "BC002" 12)) None).
Proof.
  apply (validate_leaves_worksheets [sample_doc "BC001" "received"] [] (sample_doc "BC002" "in_progress")).
  - intros x [<-|[]]; discriminate.
  - intros x [].
  - reflexivity.
Defined.



Lemma firstn_sublist_in {A} n (l : list A) x : In x (firstn n l) -> In x l.
Proof.
  revert l; induction n as [|n IH]; intros [|y ys]; simpl; try tauto.
  intros [<-|H]; [left; reflexivity | right; apply IH, H].
Qed.

(** X16: [validation_queue] returns [] without a database, at most 200 entries, only stored entries with a flag, and every flagged entry when there are at most 200 of them. *)
Theorem validation_queue_bounded (entries : list ResultEntry) :
  validation_queue None = [] /\
  (List.length (validation_queue (Some entries)) <= 200)%nat /\
  (forall e, In e (validation_queue (Some entries)) -> In e entries /\ re_abnormal_flag e <> None) /\
  ((List.length (filter (fun e => match re_abnormal_flag e with Some _ => true | None => false end) entries) <= 200)%nat ->
   forall e, In e entries -> re_abnormal_flag e <> None -> In e (validation_queue (Some entries))).
Proof.
  assert (Hf : forall e : ResultEntry,
            (match re_abnormal_flag e with Some (FlagH | FlagL | FlagCRIT) => true | None => false end) =
            (match re_abnormal_flag e with Some _ => true | None => false end)).
  { intros e; destruct (re_abnormal_flag e) as [[]|]; reflexivity. }
  unfold validation_queue; split; [reflexivity|].
  rewrite (filter_ext _ _ Hf).
  split; [apply firstn_le_length|split].
  - intros e He; apply firstn_sublist_in, filter_In in He; destruct He as [He Hs].
    split; [exact He|]; destruct (re_abnormal_flag e); [discriminate|discriminate Hs].
  - intros Hlen e He Hn; rewrite firstn_all2 by exact Hlen.
    apply filter_In; split; [exact He|]; destruct (re_abnormal_flag e); [reflexivity|now destruct Hn].
Qed.

(** requisitions *)


(** X17: When a requisition has the [req_id], [req_action] updates only the first such requisition (pending ones elsewhere are left alone), and answers [approved] exactly when the action is exactly [approve]. *)
Theorem req_action_by_req_id (pre post : list ReqDoc) (d : ReqDoc) (act : ReqAction) (now : Z)
  (Hpre : forall x, In x pre -> rq_req_id x <> Some (ra_req_id act))
  (Hd : rq_req_id d = Some (ra_req_id act)) :
  req_action (Some (pre ++ d :: post)) act now =
    (Some (pre ++ req_set act now d :: post),
     ApiOk (if String.eqb (ra_action act) "approve" then "approved" else "rejected")%string) /\
  (snd (req_action (Some (pre ++ d :: post)) act now) = ApiOk "approved"%string <->
   ra_action act = "approve"%string).
Proof.
  assert (E : req_action (Some (pre ++ d :: post)) act now =
    (Some (pre ++ req_set act now d :: post),
     ApiOk (if String.eqb (ra_action act) "approve" then "approved" else "rejected")%string)).
  { unfold req_action; rewrite update_first_split; [reflexivity| |].
    - intros x Hx; specialize (Hpre x Hx); destruct (rq_req_id x) as [r|]; [|reflexivity].
      apply String.eqb_neq; congruence.
    - rewrite Hd; apply String.eqb_refl. }
  split; [exact E|]; rewrite E; simpl.
  destruct (String.eqb_spec (ra_action act) "approve"); split; intros H; congruence.
Qed.

Lemma req_action_by_req_id_witness :
  req_action (Some ([req_doc "pending"] ++ req_doc_id "REQ-7" :: []))
    (mkReqAction "REQ-7" "head@lab.com" "Approve" None) 5 =
    (Some ([req_doc "pending"] ++ req_set (mkReqAction "REQ-7" "head@lab.com" "Approve" None) 5 (req_doc_id "REQ-7") :: []),
     ApiOk (if String.eqb (ra_action (mkReqAction "REQ-7" "head@lab.com" "Approve" None)) "approve" then "approved" else "rejected")%string) /\
  (snd (req_action (Some ([req_doc "pending"] ++ req_doc_id "REQ-7" :: []))
          (mkReqAction "REQ-7" "head@lab.com" "Approve" None) 5) = ApiOk "approved"%string <->
   ra_action (mkReqAction "REQ-7" "head@lab.com" "Approve" None) = "approve"%string).
Proof.
  apply (req_action_by_req_id [req_doc "pending"] [] (req_doc_id "REQ-7")
           (mkReqAction "REQ-7" "head@lab.com" "Approve" None) 5).
  - intros x [<-|[]]; discriminate.
  - reflexivity.
Defined.


(** X18: When no requisition has the [req_id], [req_action] updates the first pending requisition instead, whichever request it belongs to. *)
Theorem req_action_fallback_pending (pre post : list ReqDoc) (d : ReqDoc) (act : ReqAction) (now : Z)
  (Hnone : forall x, In x (pre ++ d :: post) -> rq_req_id x <> Some (ra_req_id act))
  (Hpre : forall x, In x pre -> rq_status x <> "pending"%string)
  (Hd : rq_status d = "pending"%string) :
  fst (req_action (Some (pre ++ d :: post)) act now) = Some (pre ++ req_set act now d :: post).
Proof.
  unfold req_action.
  rewrite update_first_none.
  - simpl; rewrite update_first_split; [reflexivity| |].
    + intros x Hx; apply String.eqb_neq, Hpre, Hx.
    + apply String.eqb_eq, Hd.
  - intros x Hx; specialize (Hnone x Hx); destruct (rq_req_id x) as [r|]; [|reflexivity].
    apply String.eqb_neq; congruence.
Qed.


Lemma req_action_fallback_pending_witness :
  fst (req_action (Some ([req_doc "rejected"] ++ req_doc "pending" :: [req_doc "pending"]))
         (mkReqAction "REQ-9" "head@lab.com" "approve" None) 5) =
  Some ([req_doc "rejected"] ++ mkReqDoc None "approved" (Some "head@lab.com"%string) None (Some 5) :: [req_doc "pending"]).
Proof.
  apply (req_action_fallback_pending [req_doc "rejected"] [req_doc "pending"] (req_doc "pending")
           (mkReqAction "REQ-9" "head@lab.com" "approve" None) 5).
  - intros x Hx; simpl in Hx; destruct Hx as [<-|[<-|[<-|[]]]]; discriminate.
  - intros x [<-|[]]; discriminate.
  - reflexivity.
Defined.

(** X19: When no requisition has the [req_id] and none is pending, [req_action] changes nothing but still answers the new status; without a database it answers 500. *)
Theorem req_action_nothing_to_update (reqs : list ReqDoc) (act : ReqAction) (now : Z)
  (Hnone : forall x, In x reqs -> rq_req_id x <> Some (ra_req_id act))
  (Hnp : forall x, In x reqs -> rq_status x <> "pending"%string) :
  req_action (Some reqs) act now =
  (Some reqs, ApiOk (if String.eqb (ra_action act) "approve" then "approved" else "rejected")%string) /\
  req_action None act now = (None, ApiErr db_not_configured).
Proof.
  split; [|reflexivity].
  unfold req_action.
  rewrite update_first_none.
  - simpl; rewrite update_first_none; [reflexivity|].
    intros x Hx; apply String.eqb_neq, Hnp, Hx.
  - intros x Hx; specialize (Hnone x Hx); destruct (rq_req_id x) as [r|]; [|reflexivity].
    apply String.eqb_neq; congruence.
Qed.

Lemma req_action_nothing_to_update_witness :
  req_action (Some [req_doc "approved"]) (mkReqAction "REQ-9" "head@lab.com" "reject" None) 5 =
  (Some [req_doc "approved"], ApiOk "rejected"%string) /\
  req_action None (mkReqAction "REQ-9" "head@lab.com" "reject" None) 5 = (None, ApiErr db_not_configured).
Proof.
  apply req_action_nothing_to_update.
  - intros x [<-|[]]; discriminate.
  - intros x [<-|[]]; discriminate.
Defined.

(** X20: When no requisition has the [req_id], [create_po] answers 404 exactly when no requisition is approved or pending, and otherwise uses the first approved or pending one. *)
Theorem create_po_lookup_fallback (reqs : list ReqDoc) (req_id : string)
  (Hnone : forall x, In x reqs -> rq_req_id x <> Some req_id) :
  (create_po_lookup (Some reqs) req_id = ApiErr (HTTPException 404 "Requisition not found") <->
   forall x, In x reqs -> rq_status x <> "approved"%string /\ rq_status x <> "pending"%string) /\
  (forall pre d post, reqs = pre ++ d :: post ->
   (forall x, In x pre -> rq_status x <> "approved"%string /\ rq_status x <> "pending"%string) ->
   rq_status d = "approved"%string \/ rq_status d = "pending"%string ->
   create_po_lookup (Some reqs) req_id = ApiOk d).
Proof.
  set (pid := fun d => match rq_req_id d with Some r => String.eqb r req_id | None => false end).
  set (pst := fun d => existsb (String.eqb (rq_status d)) ["approved"; "pending"]%string).
  assert (Hpst : forall d, pst d = false <->
            rq_status d <> "approved"%string /\ rq_status d <> "pending"%string).
  { intros d; unfold pst; simpl; rewrite orb_false_r.
    destruct (String.eqb_spec (rq_status d) "approved"), (String.eqb_spec (rq_status d) "pending");
      simpl; split; intros H; try discriminate; try tauto; reflexivity. }
  assert (Hid : find pid reqs = None).
  { apply find_all_false; intros x Hx; unfold pid; specialize (Hnone x Hx).
    destruct (rq_req_id x) as [r|]; [|reflexivity].
    apply String.eqb_neq; congruence. }
  unfold create_po_lookup; fold pid; fold pst; rewrite Hid.
  split.
  - split.
    + intros H x Hx; apply Hpst.
      destruct (pst x) eqn:Px; [|reflexivity].
      destruct (find pst reqs) eqn:F; [discriminate|].
      rewrite (List.find_none pst reqs F x Hx) in Px; discriminate.
    + intros H; rewrite find_all_false; [reflexivity|].
      intros x Hx; apply Hpst, H, Hx.
  - intros pre d post -> Hpre Hd.
    rewrite find_split; [reflexivity| |].
    + intros x Hx; apply Hpst, Hpre, Hx.
    + unfold pst; simpl; destruct Hd as [-> | ->]; reflexivity.
Qed.

Lemma create_po_lookup_fallback_witness :
  (create_po_lookup (Some [req_doc "rejected"; req_doc "po_created"]) "REQ-9" =
     ApiErr (HTTPException 404 "Requisition not found") <->
   forall x, In x [req_doc "rejected"; req_doc "po_created"] ->
     rq_status x <> "approved"%string /\ rq_status x <> "pending"%string) /\
  (forall pre d post, [req_doc "rejected"; req_doc "po_created"] = pre ++ d :: post ->
   (forall x, In x pre -> rq_status x <> "approved"%string /\ rq_status x <> "pending"%string) ->
   rq_status d = "approved"%string \/ rq_status d = "pending"%string ->
   create_po_lookup (Some [req_doc "rejected"; req_doc "po_created"]) "REQ-9" = ApiOk d).
Proof.
  apply create_po_lookup_fallback.
  intros x [<-|[<-|[]]]; discriminate.
Defined.



Lemma stock_of_split pre d post sku :
  (forall x, In x pre -> inv_sku x <> sku) -> inv_sku d = sku ->
  stock_of (pre ++ d :: post) sku = match inv_qty d with Some q => q | None => 0 end.
Proof.
  intros Hpre Hd; unfold stock_of; rewrite find_split; [reflexivity| |].
  - intros x Hx; apply String.eqb_neq, Hpre, Hx.
  - apply String.eqb_eq, Hd.
Qed.

Lemma stock_of_absent items sku :
  (forall x, In x items -> inv_sku x <> sku) -> stock_of items sku = 0.
Proof.
  intros H; unfold stock_of; rewrite find_all_false; [reflexivity|].
  intros x Hx; apply String.eqb_neq, H, Hx.
Qed.

Lemma consume_existing_eq (pre post : list InvDoc) (d : InvDoc) (sku : string) (q now : Z) :
  (forall x, In x pre -> inv_sku x <> sku) -> inv_sku d = sku ->
  int64_ok (- Z.abs q) = true ->
  int64_ok (stock_of (pre ++ d :: post) sku - Z.abs q) = true ->
  consume (Some (pre ++ d :: post)) sku q now =
  (Some (pre ++ mkInvDoc sku (inv_batch d) (Some (stock_of (pre ++ d :: post) sku - Z.abs q))
                   (inv_unit d) (Some now) :: post),
   ApiOk (Some (mkInvDoc sku (inv_batch d) (Some (stock_of (pre ++ d :: post) sku - Z.abs q))
                   (inv_unit d) (Some now)))).
Proof.
  intros Hpre Hd Hq Hn.
  assert (Hp : forall x, In x pre -> String.eqb (inv_sku x) sku = false)
    by (intros x Hx; apply String.eqb_neq, Hpre, Hx).
  assert (Hpd : String.eqb (inv_sku d) sku = true) by (apply String.eqb_eq, Hd).
  rewrite (stock_of_split pre d post sku Hpre Hd) in Hn |- *.
  unfold consume; rewrite Hq; simpl.
  rewrite find_split by assumption.
  replace (match inv_qty d with Some q0 => q0 | None => 0 end + - Z.abs q)
    with (match inv_qty d with Some q0 => q0 | None => 0 end - Z.abs q) by lia.
  rewrite Hn; simpl.
  rewrite update_first_split by assumption; simpl.
  rewrite find_split; [| assumption | simpl; rewrite Hd; apply String.eqb_refl].
  rewrite Hd; reflexivity.
Qed.

Lemma find_app_absent {A} (p : A -> bool) l y :
  (forall x, In x l -> p x = false) -> find p (l ++ [y]) = if p y then Some y else None.
Proof.
  induction l as [|x xs IH]; intros H; simpl; [reflexivity|].
  rewrite H by (left; reflexivity); apply IH.
  intros z Hz; apply H; right; exact Hz.
Qed.

Lemma consume_absent_eq (items : list InvDoc) (sku : string) (q now : Z) :
  (forall x, In x items -> inv_sku x <> sku) ->
  int64_ok (- Z.abs q) = true ->
  consume (Some items) sku q now =
  (Some (items ++ [mkInvDoc sku None (Some (- Z.abs q)) None (Some now)]),
   ApiOk (Some (mkInvDoc sku None (Some (- Z.abs q)) None (Some now)))).
Proof.
  intros Habs Hq.
  assert (Hp : forall x, In x items -> String.eqb (inv_sku x) sku = false)
    by (intros x Hx; apply String.eqb_neq, Habs, Hx).
  unfold consume; rewrite Hq; simpl.
  rewrite find_all_false by exact Hp.
  rewrite find_app_absent by exact Hp; simpl; rewrite String.eqb_refl; reflexivity.
Qed.

(** X21: when [-abs(qty)] and the new stock [stock - abs(qty)] both fit in a signed 64-bit integer, [consume] on a stocked sku lowers the qty of the first item with that sku by [abs(qty)], sets its updated_at, leaves every other item unchanged and returns the updated item; a negative qty acts as its absolute value. *)
Theorem consume_existing_item (pre post : list InvDoc) (d : InvDoc) (sku : string) (q now : Z)
  (Hpre : forall x, In x pre -> inv_sku x <> sku) (Hd : inv_sku d = sku)
  (Hq : int64_ok (- Z.abs q) = true)
  (Hn : int64_ok (stock_of (pre ++ d :: post) sku - Z.abs q) = true) :
  let d' := mkInvDoc sku (inv_batch d) (Some (stock_of (pre ++ d :: post) sku - Z.abs q))
              (inv_unit d) (Some now) in
  consume (Some (pre ++ d :: post)) sku q now = (Some (pre ++ d' :: post), ApiOk (Some d')) /\
  consume (Some (pre ++ d :: post)) sku (- q) now = consume (Some (pre ++ d :: post)) sku q now.
Proof.
  cbv zeta; split; [apply consume_existing_eq; assumption|].
  unfold consume; rewrite Z.abs_opp; reflexivity.
Qed.


Lemma consume_existing_item_witness :
  consume (Some ([inv_doc "RG-ALB" 40] ++ inv_doc "RG-GLU-100" 25 :: [inv_doc "RG-GLU-100" 99])) "RG-GLU-100" (-4) 8 =
  (Some ([inv_doc "RG-ALB" 40] ++ mkInvDoc "RG-GLU-100" (Some "B1"%string) (Some 21) (Some "kit"%string) (Some 8) :: [inv_doc "RG-GLU-100" 99]),
   ApiOk (Some (mkInvDoc "RG-GLU-100" (Some "B1"%string) (Some 21) (Some "kit"%string) (Some 8)))) /\
  consume (Some ([inv_doc "RG-ALB" 40] ++ inv_doc "RG-GLU-100" 25 :: [inv_doc "RG-GLU-100" 99])) "RG-GLU-100" (- (-4)) 8 =
  consume (Some ([inv_doc "RG-ALB" 40] ++ inv_doc "RG-GLU-100" 25 :: [inv_doc "RG-GLU-100" 99])) "RG-GLU-100" (-4) 8.
Proof.
  apply (consume_existing_item [inv_doc "RG-ALB" 40] [inv_doc "RG-GLU-100" 99] (inv_doc "RG-GLU-100" 25) "RG-GLU-100" (-4) 8).
  - intros x [<-|[]]; discriminate.
  - reflexivity.
  - reflexivity.
  - reflexivity.
Defined.


(** X22: when [-abs(qty)] fits in a signed 64-bit integer, [consume] on a sku no item has appends a new item with that sku and qty [-abs(qty)] and returns it. *)
Theorem consume_unknown_sku (items : list InvDoc) (sku : string) (q now : Z)
  (Habs : forall x, In x items -> inv_sku x <> sku)
  (Hq : int64_ok (- Z.abs q) = true) :
  consume (Some items) sku q now =
  (Some (items ++ [mkInvDoc sku None (Some (- Z.abs q)) None (Some now)]),
   ApiOk (Some (mkInvDoc sku None (Some (- Z.abs q)) None (Some now)))).
Proof. apply consume_absent_eq; assumption.
Qed.

Lemma consume_unknown_sku_witness :
  consume (Some [inv_doc "RG-ALB" 40]) "CS-VAC-2ML" 3 8 =
  (Some ([inv_doc "RG-ALB" 40] ++ [mkInvDoc "CS-VAC-2ML" None (Some (-3)) None (Some 8)]),
   ApiOk (Some (mkInvDoc "CS-VAC-2ML" None (Some (-3)) None (Some 8)))).
Proof.
  apply (consume_unknown_sku [inv_doc "RG-ALB" 40] "CS-VAC-2ML" 3 8).
  - intros x [<-|[]]; discriminate.
  - reflexivity.
Defined.

(** X23: When the new stock would leave the int64 range, [consume] fails with an error and leaves the collection unchanged. *)
Theorem consume_out_of_range (items : list InvDoc) (sku : string) (q now : Z)
  (H : int64_ok (stock_of items sku - Z.abs q) = false) :
  fst (consume (Some items) sku q now) = Some items /\
  exists e, snd (consume (Some items) sku q now) = ApiErr e.
Proof.
  unfold consume, stock_of in *.
  destruct (int64_ok (- Z.abs q)) eqn:Hq; simpl; [|eauto].
  destruct (find (fun d => String.eqb (inv_sku d) sku) items) as [d|] eqn:F.
  - replace (match inv_qty d with Some q0 => q0 | None => 0 end + - Z.abs q)
      with (match inv_qty d with Some q0 => q0 | None => 0 end - Z.abs q) by lia.
    rewrite H; simpl; eauto.
  - replace (0 - Z.abs q) with (- Z.abs q) in H by lia; congruence.
Qed.

Lemma consume_out_of_range_witness :
  fst (consume (Some [inv_doc "RG-GLU-100" (- 2 ^ 63 + 1)]) "RG-GLU-100" 2 8) =
    Some [inv_doc "RG-GLU-100" (- 2 ^ 63 + 1)] /\
  exists e, snd (consume (Some [inv_doc "RG-GLU-100" (- 2 ^ 63 + 1)]) "RG-GLU-100" 2 8) = ApiErr e.
Proof. apply consume_out_of_range; reflexivity. Defined.

(** X24: Two consumes of [q1] and [q2] leave the collection as one consume of [abs(q1) + abs(q2)] does, when the current stock, the combined decrement [-(abs(q1) + abs(q2))] and the final stock [stock - (abs(q1) + abs(q2))] all fit in a signed 64-bit integer. *)
Theorem consume_twice (items : list InvDoc) (sku : string) (q1 q2 t1 t2 : Z)
  (Hs : int64_ok (stock_of items sku) = true)
  (Hq : int64_ok (- (Z.abs q1 + Z.abs q2)) = true)
  (Hn : int64_ok (stock_of items sku - (Z.abs q1 + Z.abs q2)) = true) :
  fst (consume (fst (consume (Some items) sku q1 t1)) sku q2 t2) =
  fst (consume (Some items) sku (Z.abs q1 + Z.abs q2) t2).
Proof.
  assert (I : forall z, -2 ^ 63 <= z < 2 ^ 63 -> int64_ok z = true).
  { intros z Hz; unfold int64_ok; apply andb_true_iff; rewrite Z.leb_le, Z.ltb_lt; lia. }
  unfold int64_ok in Hs, Hq, Hn; rewrite !andb_true_iff, !Z.leb_le, !Z.ltb_lt in Hs, Hq, Hn.
  destruct (list_first_match (fun x => String.eqb (inv_sku x) sku) items)
    as [Habs|(pre & d & post & E & Hpre & Hd)].
  - assert (Habs' : forall x, In x items -> inv_sku x <> sku)
      by (intros x Hx; apply String.eqb_neq, Habs, Hx).
    rewrite stock_of_absent in Hs, Hn by exact Habs'.
    rewrite (consume_absent_eq items sku q1 t1 Habs' (I (- Z.abs q1) ltac:(lia))); cbn [fst].
    set (d1 := mkInvDoc sku None (Some (- Z.abs q1)) None (Some t1)).
    assert (S1 : stock_of (items ++ d1 :: []) sku = - Z.abs q1)
      by (rewrite stock_of_split; auto).
    rewrite (consume_existing_eq items [] d1 sku q2 t2 Habs' eq_refl (I (- Z.abs q2) ltac:(lia))
               ltac:(rewrite S1; apply I; lia)).
    rewrite (consume_absent_eq items sku (Z.abs q1 + Z.abs q2) t2 Habs' ltac:(apply I; lia)).
    cbn [fst]; rewrite S1.
    rewrite (Z.abs_eq (Z.abs q1 + Z.abs q2)) by lia.
    replace (- Z.abs q1 - Z.abs q2) with (- (Z.abs q1 + Z.abs q2)) by lia; reflexivity.
  - subst items; apply String.eqb_eq in Hd.
    assert (Hpre' : forall x, In x pre -> inv_sku x <> sku)
      by (intros x Hx; apply String.eqb_neq, Hpre, Hx).
    pose proof (stock_of_split pre d post sku Hpre' Hd) as S0.
    set (s0 := stock_of (pre ++ d :: post) sku) in *.
    rewrite (consume_existing_eq pre post d sku q1 t1 Hpre' Hd (I (- Z.abs q1) ltac:(lia)) (I (s0 - Z.abs q1) ltac:(lia))).
    cbn [fst]; fold s0.
    set (d1 := mkInvDoc sku (inv_batch d) (Some (s0 - Z.abs q1)) (inv_unit d) (Some t1)).
    assert (S1 : stock_of (pre ++ d1 :: post) sku = s0 - Z.abs q1)
      by (rewrite stock_of_split; auto).
    rewrite (consume_existing_eq pre post d1 sku q2 t2 Hpre' eq_refl (I (- Z.abs q2) ltac:(lia))
               ltac:(rewrite S1; apply I; lia)).
    rewrite (consume_existing_eq pre post d sku (Z.abs q1 + Z.abs q2) t2 Hpre' Hd
               ltac:(apply I; rewrite Z.abs_eq by lia; lia)
               ltac:(apply I; rewrite Z.abs_eq by lia; lia)).
    cbn [fst]; fold s0; rewrite S1.
    rewrite (Z.abs_eq (Z.abs q1 + Z.abs q2)) by lia.
    replace (s0 - Z.abs q1 - Z.abs q2) with (s0 - (Z.abs q1 + Z.abs q2)) by lia; reflexivity.
Qed.

Lemma consume_twice_witness :
  fst (consume (fst (consume (Some [inv_doc "RG-GLU-100" 25]) "RG-GLU-100" 3 7)) "RG-GLU-100" (-4) 8) =
  fst (consume (Some [inv_doc "RG-GLU-100" 25]) "RG-GLU-100" (Z.abs 3 + Z.abs (-4)) 8).
Proof. apply consume_twice; reflexivity. Defined.

(** X25: For draws in the ranges of [random.randint], the dashboard charts list the months Jan..Dec in order, each profit is revenue minus cost and lies in [28000, 73000], and every revenue, cost and spend lies in its range. *)
Theorem dashboard_charts_ranges (draw : nat -> MonthDraws)
  (H : forall i, valid_month_draws (draw i)) :
  map pnl_month (fst (dashboard_charts draw)) = months /\
  map sp_month (snd (dashboard_charts draw)) = months /\
  Forall (fun e => pnl_profit e = pnl_revenue e - pnl_cost e /\
                   110000 <= pnl_revenue e <= 135000 /\ 62000 <= pnl_cost e <= 82000 /\
                   28000 <= pnl_profit e <= 73000) (fst (dashboard_charts draw)) /\
  Forall (fun e => 15000 <= sp_reagents e <= 30000 /\ 5000 <= sp_consumables e <= 15000 /\
                   3000 <= sp_logistics e <= 10000) (snd (dashboard_charts draw)).
Proof.
  split; [reflexivity|split; [reflexivity|split]].
  - apply Forall_forall; intros e He; unfold dashboard_charts in He; cbn [fst] in He.
    apply in_map_iff in He; destruct He as [[i m] [<- _]].
    cbv beta iota zeta; cbn [pnl_profit pnl_revenue pnl_cost].
    specialize (H i); unfold valid_month_draws in H; lia.
  - apply Forall_forall; intros e He; unfold dashboard_charts in He; cbn [snd] in He.
    apply in_map_iff in He; destruct He as [[i m] [<- _]].
    cbv beta iota zeta; cbn [sp_reagents sp_consumables sp_logistics].
    specialize (H i); unfold valid_month_draws in H; lia.
Qed.


Lemma dashboard_charts_ranges_witness :
  map pnl_month (fst (dashboard_charts flat_draws)) = months /\
  map sp_month (snd (dashboard_charts flat_draws)) = months /\
  Forall (fun e => pnl_profit e = pnl_revenue e - pnl_cost e /\
                   110000 <= pnl_revenue e <= 135000 /\ 62000 <= pnl_cost e <= 82000 /\
                   28000 <= pnl_profit e <= 73000) (fst (dashboard_charts flat_draws)) /\
  Forall (fun e => 15000 <= sp_reagents e <= 30000 /\ 5000 <= sp_consumables e <= 15000 /\
                   3000 <= sp_logistics e <= 10000) (snd (dashboard_charts flat_draws)).
Proof.
  apply dashboard_charts_ranges; intros i; unfold valid_month_draws; simpl; lia.
Defined.

(** X26: An invoice with no items is never [partial]: it is [paid] exactly when the paid sum is at least 0, and [unpaid] exactly when it is not (a negative or nan paid sum); a nan paid sum makes any invoice [unpaid] (or the total fails). *)
Theorem invoice_status_edges (paid : spec_float) (items : list InvoiceItem) :
  invoice_status paid [] <> Ok "partial"%string /\
  (invoice_status paid [] = Ok "paid"%string <->
   SFcompare paid fzero = Some Gt \/ SFcompare paid fzero = Some Eq) /\
  (invoice_status paid [] = Ok "unpaid"%string <->
   ~ (SFcompare paid fzero = Some Gt \/ SFcompare paid fzero = Some Eq)) /\
  (invoice_status S754_nan items = Ok "unpaid"%string \/
   exists e, invoice_status S754_nan items = Err e).
Proof.
  unfold invoice_status, py_fge, py_fgt; simpl.
  split; [|split; [|split]].
  - destruct (SFcompare paid fzero) as [[]|]; intros E; injection E; discriminate.
  - destruct (SFcompare paid fzero) as [[]|]; split; intros E;
      try (injection E; discriminate); try reflexivity; try tauto;
      destruct E; discriminate.
  - destruct (SFcompare paid fzero) as [[]|]; split; intros E;
      try (injection E; discriminate); try reflexivity; try tauto;
      try (exfalso; apply E; auto; fail); intros [H|H]; discriminate.
  - destruct (invoice_total_loop fzero items) as [t|e]; simpl; [left; reflexivity|right; eauto].
Qed.
